(** * The Redpanda reconciler: a shallow embedding and its checked properties

    Source: [src/go/k8s/internal/controller/redpanda/redpanda_controller.go].

    The controller talks to three collaborators: the API server (through
    [client.Client]), the event recorder and the logger.  They are modelled
    by one record, [World], threaded through a state monad [M]; every
    method of the reconciler becomes a function into [M].  Objects the
    reconciler holds through a pointer ([rp], [hr]) are passed in and handed
    back explicitly. *)

From Stdlib Require Import ZArith.
From stdpp Require Import base option list strings gmap fin_maps.

Local Open Scope string_scope.
Local Open Scope Z_scope.
Local Open Scope list_scope.

(** ** Kubernetes object metadata *)

(** [metav1.ObjectMeta], restricted to the fields the controller reads or
    writes.  Go's nil map and empty map are both the empty [gmap]: the
    controller only ranges over, indexes and replaces these maps, and
    [maps.Equal] does not tell the two apart. *)
Record ObjectMeta := mkMeta {
  Name : string;
  Namespace : string;
  Labels : gmap string string;
  Annotations : gmap string string;
  Finalizers : list string;
  Generation : Z;
}.

Definition emptyMeta : ObjectMeta := mkMeta "" "" ∅ ∅ [] 0.

Definition withLabels (l : gmap string string) (m : ObjectMeta) : ObjectMeta :=
  mkMeta (Name m) (Namespace m) l (Annotations m) (Finalizers m) (Generation m).

Definition withAnnotations (a : gmap string string) (m : ObjectMeta) : ObjectMeta :=
  mkMeta (Name m) (Namespace m) (Labels m) a (Finalizers m) (Generation m).

Definition withFinalizers (f : list string) (m : ObjectMeta) : ObjectMeta :=
  mkMeta (Name m) (Namespace m) (Labels m) (Annotations m) f (Generation m).

(** [controllerutil.ContainsFinalizer] and [controllerutil.RemoveFinalizer]:
    the latter drops every occurrence. *)
Definition ContainsFinalizer (m : ObjectMeta) (finalizer : string) : bool :=
  bool_decide (finalizer ∈ Finalizers m).

Definition RemoveFinalizer (m : ObjectMeta) (finalizer : string) : ObjectMeta :=
  withFinalizers (filter (λ f, f ≠ finalizer) (Finalizers m)) m.

(** The kinds of objects the controller reads and writes. *)
Inductive Kind :=
  | Cluster | Console | Pod | Service | ServiceAccount | PodDisruptionBudget
  | StatefulSet | Deployment | Ingress | HelmRelease | HelmRepository | Redpanda.

#[global] Instance Kind_eq_dec : EqDecision Kind.
Proof. solve_decision. Defined.

Definition Kind_to_nat (k : Kind) : nat :=
  match k with
  | Cluster => 0 | Console => 1 | Pod => 2 | Service => 3 | ServiceAccount => 4
  | PodDisruptionBudget => 5 | StatefulSet => 6 | Deployment => 7 | Ingress => 8
  | HelmRelease => 9 | HelmRepository => 10 | Redpanda => 11
  end%nat.

Definition Kind_of_nat (n : nat) : Kind :=
  match n with
  | 0 => Cluster | 1 => Console | 2 => Pod | 3 => Service | 4 => ServiceAccount
  | 5 => PodDisruptionBudget | 6 => StatefulSet | 7 => Deployment | 8 => Ingress
  | 9 => HelmRelease | 10 => HelmRepository | _ => Redpanda
  end%nat.

#[global] Instance Kind_countable : Countable Kind.
Proof. apply (inj_countable' Kind_to_nat Kind_of_nat). by intros []. Defined.

(** A [types.NamespacedName]: namespace first, then name. *)
Abbreviation Key := (string * string)%type.

(** A [client.Object] of one of the kinds touched by the migration: its
    metadata and, for a Service, [Spec.Selector] (empty for the others). *)
Record Object := mkObject {
  ObjMeta : ObjectMeta;
  Selector : gmap string string;
}.

Definition emptyObject : Object := mkObject emptyMeta ∅.

Definition GetLabels (o : Object) : gmap string string := Labels (ObjMeta o).
Definition GetAnnotations (o : Object) : gmap string string := Annotations (ObjMeta o).
Definition SetLabels (l : gmap string string) (o : Object) : Object :=
  mkObject (withLabels l (ObjMeta o)) (Selector o).
Definition SetAnnotations (a : gmap string string) (o : Object) : Object :=
  mkObject (withAnnotations a (ObjMeta o)) (Selector o).
Definition SetSelector (s : gmap string string) (o : Object) : Object :=
  mkObject (ObjMeta o) s.
Definition SetMeta (m : ObjectMeta) (o : Object) : Object :=
  mkObject m (Selector o).

(** ** The parent resource, [v1alpha1.Redpanda] *)

(** [metav1.Duration], in nanoseconds as [time.Duration] has it. *)
Definition Duration := Z.
Definition Second : Duration := 1000000000.
Definition Minute : Duration := 60 * Second.

(** [helmv2beta1.UpgradeRemediation]. *)
Record UpgradeRemediation := mkRemediation {
  Retries : Z;
  IgnoreTestFailures : option bool;
  RemediateLastFailure : option bool;
  Strategy : option string;
}.

(** [helmv2beta1.Upgrade], the fields the template sets. *)
Record Upgrade := mkUpgrade {
  UpgForce : bool;
  UpgCleanupOnFail : bool;
  UpgPreserveValues : bool;
  UpgRemediation : option UpgradeRemediation;
}.

(** [v1alpha1.HelmUpgrade]: every field is a pointer the user may leave nil. *)
Record HelmUpgrade := mkHelmUpgrade {
  HuRemediation : option UpgradeRemediation;
  HuForce : option bool;
  HuPreserveValues : option bool;
  HuCleanupOnFail : option bool;
}.

Record ChartRef := mkChartRef {
  ChartVersion : string;
  ChartTimeout : option Duration;
  ChartUpgrade : option HelmUpgrade;
}.

Record NamespaceNameRef := mkRef {
  RefNamespace : string;
  RefName : string;
}.

(** [rp.Spec.Migration]; [tryMigration] is only entered behind the guard
    [rp.Spec.Migration != nil && rp.Spec.Migration.Enabled], so the record
    stands for the pointee. *)
Record Migration := mkMigration {
  MigrationEnabled : bool;
  ClusterRef : NamespaceNameRef;
  ConsoleRef : NamespaceNameRef;
}.

(** [rp.Spec.ClusterSpec.Console]. *)
Record RedpandaConsole := mkConsole {
  ConsoleEnabled : option bool;
  ConsoleFullNameOverride : option string;
}.

(** [rp.Spec.ClusterSpec]: the two fields the controller reads by name; the
    rest of the chart values only reaches the controller through
    [ValuesJSON] and is kept as the opaque [OtherValues]. *)
Record RedpandaClusterSpec := mkClusterSpec {
  FullNameOverride : string;
  ConsoleSpec : RedpandaConsole;
  OtherValues : string;
}.

Record RedpandaSpec := mkSpec {
  SpecChartRef : ChartRef;
  ClusterSpec : RedpandaClusterSpec;
  SpecMigration : Migration;
}.

(** [metav1.Condition], type and status only. *)
Record Condition := mkCondition {
  CondType : string;
  CondStatus : string;
}.

(** [v1alpha1.RedpandaStatus].  The two readiness flags are [*bool] in the
    source: [None] is nil (never observed), [Some true] ready, [Some false]
    not ready. *)
Record RedpandaStatus := mkStatus {
  ObservedGeneration : Z;
  Conditions : list Condition;
  LastAttemptedRevision : string;
  StatusHelmRelease : string;
  HelmReleaseReady : option bool;
  StatusHelmRepository : string;
  HelmRepositoryReady : option bool;
}.

Record RedpandaT := mkRedpanda {
  RpMeta : ObjectMeta;
  RpDeletionTimestamp : option Z;
  Spec : RedpandaSpec;
  Status : RedpandaStatus;
}.

Definition withStatus (st : RedpandaStatus) (rp : RedpandaT) : RedpandaT :=
  mkRedpanda (RpMeta rp) (RpDeletionTimestamp rp) (Spec rp) st.

Definition withRpMeta (m : ObjectMeta) (rp : RedpandaT) : RedpandaT :=
  mkRedpanda m (RpDeletionTimestamp rp) (Spec rp) (Status rp).

Definition setHelmRelease (n : string) (st : RedpandaStatus) : RedpandaStatus :=
  mkStatus (ObservedGeneration st) (Conditions st) (LastAttemptedRevision st)
    n (HelmReleaseReady st) (StatusHelmRepository st) (HelmRepositoryReady st).

Definition setHelmRepository (n : string) (st : RedpandaStatus) : RedpandaStatus :=
  mkStatus (ObservedGeneration st) (Conditions st) (LastAttemptedRevision st)
    (StatusHelmRelease st) (HelmReleaseReady st) n (HelmRepositoryReady st).

Definition setHelmReleaseReady (b : option bool) (st : RedpandaStatus) : RedpandaStatus :=
  mkStatus (ObservedGeneration st) (Conditions st) (LastAttemptedRevision st)
    (StatusHelmRelease st) b (StatusHelmRepository st) (HelmRepositoryReady st).

Definition setHelmRepositoryReady (b : option bool) (st : RedpandaStatus) : RedpandaStatus :=
  mkStatus (ObservedGeneration st) (Conditions st) (LastAttemptedRevision st)
    (StatusHelmRelease st) (HelmReleaseReady st) (StatusHelmRepository st) b.

(** Modelled from the spec: the accessors [GetHelmReleaseName],
    [GetHelmRepositoryName] and [GetHelmRelease] of [v1alpha1.Redpanda] live
    next to the type, outside the sources at hand.  The spec has the names
    of the dependents "deterministically derived from parent"; the e2e
    assertions under [tests/e2e-v2] show how ([helmRelease: redpanda] for the
    parent [redpanda], [helmRepository: redpanda-repository]). *)
Definition GetHelmReleaseName (rp : RedpandaT) : string := Name (RpMeta rp).
Definition GetHelmRepositoryName (rp : RedpandaT) : string := "redpanda-repository".
Definition GetHelmRelease (st : RedpandaStatus) : string := StatusHelmRelease st.

(** Modelled from the spec: [FinalizerKey], [NotManaged] and the two console
    finalizers are constants declared outside the sources at hand; the spec
    only says that they are fixed identifiers.  [FinalizerKey] is spelled as
    the e2e assertions have it on the parent; the spellings of the other
    three are placeholders, and nothing proved below depends on them. *)
Definition FinalizerKey : string := "operator.redpanda.com/finalizer".
Definition NotManaged : string := "false".
Definition ConsoleSAFinalizer : string := "consoles.redpanda.vectorized.io/service-account".
Definition ConsoleACLFinalizer : string := "consoles.redpanda.vectorized.io/acl".

Definition resourceTypeHelmRepository : string := "HelmRepository".
Definition resourceTypeHelmRelease : string := "HelmRelease".
Definition managedPath : string := "/managed".
Definition helm : string := "Helm".

(** [fmt.Sprintf(resourceReadyStrFmt, kind, ns, name)] and its twin. *)
Definition resourceReadyStr (kind ns name : string) : string :=
  kind +:+ " '" +:+ ns +:+ "/" +:+ name +:+ "' is ready".
Definition resourceNotReadyStr (kind ns name : string) : string :=
  kind +:+ " '" +:+ ns +:+ "/" +:+ name +:+ "' is not ready".

(** [ptr.Equal] of [k8s.io/utils/ptr] ("true if both arguments are nil or
    both arguments dereference to the same value"): false when exactly one
    side is nil, true when both are, otherwise the pointees are compared. *)
Definition ptr_Equal {T} `{EqDecision T} (a b : option T) : bool :=
  if negb (Bool.eqb (bool_decide (a = None)) (bool_decide (b = None))) then false
  else match a, b with
       | None, _ => true
       | Some x, Some y => bool_decide (x = y)
       | Some _, None => false
       end.

(** [ptr.Deref]. *)
Definition ptr_Deref {T} (p : option T) (def : T) : T := default def p.

(** ** Errors, events and the API server *)

(** Go [error] values as the controller builds them: an error of the API
    machinery, [fmt.Errorf("<label>: %w", cause)] and [errors.New]. *)
Inductive error :=
  | ErrNotFound (k : Kind) (key : Key)
  | ErrAlreadyExists (k : Kind) (key : Key)
  | ErrTransient (msg : string)
  | Errorf (label : string) (cause : error)
  | ErrNew (msg : string).

#[global] Instance error_eq_dec : EqDecision error.
Proof. solve_decision. Defined.

(** [apierrors.IsNotFound] and [apierrors.IsAlreadyExists], on the errors a
    client call hands back unwrapped. *)
Definition IsNotFound (e : error) : bool :=
  match e with ErrNotFound _ _ => true | _ => false end.
Definition IsAlreadyExists (e : error) : bool :=
  match e with ErrAlreadyExists _ _ => true | _ => false end.

(** The label of an entry built by [fmt.Errorf]. *)
Definition errLabel (e : error) : string :=
  match e with Errorf l _ => l | _ => "" end.

(** [errors.Join(new, old)] as [tryMigration] uses it: the accumulated
    error is the list of entries, newest first, and nil is the empty list. *)
Definition Join (e : error) (errorResult : list error) : list error :=
  e :: errorResult.

Inductive result (A : Type) :=
  | Ok (a : A)
  | Err (e : error).
Arguments Ok {A} a.
Arguments Err {A} e.

Inductive Severity := EventSeverityInfo | EventSeverityError.

#[global] Instance Severity_eq_dec : EqDecision Severity.
Proof. solve_decision. Defined.

(** One call of [EventRecorder.AnnotatedEventf]: the object it is attached
    to, the revision annotation ([None] for a nil metadata map), the event
    type, the reason (the severity) and the message. *)
Record Event := mkEvent {
  EvKind : Kind;
  EvObject : Key;
  EvRevision : option string;
  EvType : string;
  EvReason : Severity;
  EvMessage : string;
}.

#[global] Instance Event_eq_dec : EqDecision Event.
Proof. solve_decision. Defined.

Inductive Propagation := Orphan | Background | Foreground.

#[global] Instance Propagation_eq_dec : EqDecision Propagation.
Proof. solve_decision. Defined.

(** The verbs of [client.Client] the controller uses; a delete carries its
    [PropagationPolicy] ([None] when no option is passed, which leaves the
    choice to the API server's default). *)
Inductive Verb :=
  | VGet | VList | VCreate | VUpdate | VPatch | VStatusPatch
  | VDelete (policy : option Propagation).

#[global] Instance Verb_eq_dec : EqDecision Verb.
Proof. solve_decision. Defined.

Record Call := mkCall {
  CallVerb : Verb;
  CallKind : Kind;
  CallKey : Key;
}.

#[global] Instance Call_eq_dec : EqDecision Call.
Proof. solve_decision. Defined.

Definition isMutation (c : Call) : bool :=
  match CallVerb c with
  | VGet | VList => false
  | _ => true
  end.

(** [helmv2beta1.HelmRelease]: the spec the template fills in and the status
    the readiness check reads.  [HrValues] is [Spec.Values.Raw];
    [HrTerminating] says that [metadata.deletionTimestamp] is set. *)
Record HelmChartTemplateSpec := mkChartSpec {
  Chart : string;
  Version : string;
  ChartInterval : option Duration;
  SourceRefKind : string;
  SourceRefName : string;
  SourceRefNamespace : string;
}.

Record HelmReleaseSpec := mkHRSpec {
  HrChart : HelmChartTemplateSpec;
  HrValues : option string;
  HrInterval : Duration;
  HrTimeout : option Duration;
  HrUpgrade : option Upgrade;
}.

Record HelmReleaseT := mkHR {
  HrMeta : ObjectMeta;
  HrOwner : option Key;
  HrSpec : HelmReleaseSpec;
  HrObservedGeneration : Z;
  HrConditions : list Condition;
  HrTerminating : bool;
}.

(** What the controller can see and change outside its own memory.
    [objects], [releases] and [parents] are the API server's content;
    [calls], [events] and [logs] record, newest first, the client calls
    issued, the events recorded and the fingerprint lines logged;
    [faults] says which calls the API server refuses with a transient
    error whatever its content. *)
Record World := mkWorld {
  objects : gmap (Kind * Key) Object;
  releases : gmap Key HelmReleaseT;
  parents : gmap Key RedpandaT;
  calls : list Call;
  events : list Event;
  logs : list string;
  faults : Call → option string;
}.

Definition M (A : Type) : Type := World → A * World.

#[global] Instance M_ret : MRet M := λ A a w, (a, w).
#[global] Instance M_bind : MBind M := λ A B f m w, let '(a, w') := m w in f a w'.

(** The world once the call [c] has been issued. *)
Definition called (c : Call) (w : World) : World :=
  mkWorld (objects w) (releases w) (parents w) (c :: calls w) (events w) (logs w) (faults w).

(** Every client call is recorded, then refused or let through. *)
Definition recordCall (c : Call) : M (option string) := λ w, (faults w c, called c w).

Definition setObjects (o : gmap (Kind * Key) Object) : M unit := λ w,
  (tt, mkWorld o (releases w) (parents w) (calls w) (events w) (logs w) (faults w)).

Definition setReleases (r : gmap Key HelmReleaseT) : M unit := λ w,
  (tt, mkWorld (objects w) r (parents w) (calls w) (events w) (logs w) (faults w)).

Definition setParents (p : gmap Key RedpandaT) : M unit := λ w,
  (tt, mkWorld (objects w) (releases w) p (calls w) (events w) (logs w) (faults w)).

Definition getWorld : M World := λ w, (w, w).

(** The client calls and the events a computation adds when run from [w],
    newest first. *)
Definition issued {A} (m : M A) (w : World) : list Call :=
  take (length (calls (m w).2) - length (calls w)) (calls (m w).2).

Definition emitted {A} (m : M A) (w : World) : list Event :=
  take (length (events (m w).2) - length (events w)) (events (m w).2).

(** [EventRecorder.AnnotatedEventf]. *)
Definition AnnotatedEventf (k : Kind) (m : ObjectMeta) (revision : option string)
    (eventtype : string) (reason : Severity) (msg : string) : M unit := λ w,
  (tt, mkWorld (objects w) (releases w) (parents w) (calls w)
         (mkEvent k (Namespace m, Name m) revision eventtype reason msg :: events w)
         (logs w) (faults w)).

Definition logInfo (line : string) : M unit := λ w,
  (tt, mkWorld (objects w) (releases w) (parents w) (calls w) (events w)
         (line :: logs w) (faults w)).

Definition keyOf (m : ObjectMeta) : Key := (Namespace m, Name m).

(** [client.Get] for the kinds kept in [objects]. *)
Definition Get (k : Kind) (key : Key) : M (result Object) :=
  f ← recordCall (mkCall VGet k key);
  w ← getWorld;
  match f with
  | Some msg => mret (Err (ErrTransient msg))
  | None =>
      match objects w !! (k, key) with
      | Some o => mret (Ok o)
      | None => mret (Err (ErrNotFound k key))
      end
  end.

(** [client.Update]: the stored object is replaced; updating an object
    that is gone is refused. *)
Definition Update (k : Kind) (o : Object) : M (option error) :=
  f ← recordCall (mkCall VUpdate k (keyOf (ObjMeta o)));
  w ← getWorld;
  match f with
  | Some msg => mret (Some (ErrTransient msg))
  | None =>
      match objects w !! (k, keyOf (ObjMeta o)) with
      | Some _ => setObjects (<[(k, keyOf (ObjMeta o)) := o]> (objects w));; mret None
      | None => mret (Some (ErrNotFound k (keyOf (ObjMeta o))))
      end
  end.

(** [client.Delete] for the kinds kept in [objects], which the controller
    deletes with orphan propagation or without an option: the object leaves
    the store.  What the policy does to dependents is the garbage
    collector's business and is not modelled; the policy is kept in the
    call record. *)
Definition Delete (k : Kind) (o : Object) (policy : option Propagation) : M (option error) :=
  f ← recordCall (mkCall (VDelete policy) k (keyOf (ObjMeta o)));
  w ← getWorld;
  match f with
  | Some msg => mret (Some (ErrTransient msg))
  | None =>
      match objects w !! (k, keyOf (ObjMeta o)) with
      | Some _ => setObjects (delete (k, keyOf (ObjMeta o)) (objects w));; mret None
      | None => mret (Some (ErrNotFound k (keyOf (ObjMeta o))))
      end
  end.

(** [labels ⊆ Labels o], the meaning of [client.MatchingLabels]. *)
Definition matchesLabels (labels : gmap string string) (o : Object) : bool :=
  bool_decide (labels ⊆ GetLabels o).

(** The pods of namespace [ns] that carry [labels], in the order the store
    lists them. *)
Definition selectPods (ns : string) (labels : gmap string string)
    (store : gmap (Kind * Key) Object) : list Object :=
  omap (λ '(kk, o),
          if bool_decide (kk.1 = Pod ∧ kk.2.1 = ns) && matchesLabels labels o
          then Some o else None)
       (map_to_list store).

(** [client.List] of pods with [client.InNamespace] and
    [client.MatchingLabels]. *)
Definition ListPods (ns : string) (labels : gmap string string) : M (result (list Object)) :=
  f ← recordCall (mkCall VList Pod (ns, ""));
  w ← getWorld;
  match f with
  | Some msg => mret (Err (ErrTransient msg))
  | None => mret (Ok (selectPods ns labels (objects w)))
  end.

(** ** Ownership markers *)

(** A Go [for k, v := range m] whose body assigns to one accumulator: the
    entries of the map are visited once each, in an order the language
    leaves open; [map_to_list] fixes one. *)
Definition rangeMap {A} (body : A → string → string → A) (init : A)
    (m : gmap string string) : A :=
  foldl (λ acc kv, body acc kv.1 kv.2) init (map_to_list m).

(** [hasLabelsAndAnnotations], lines 495-515: three flags, set while ranging
    over the labels and then over the annotations. *)
Definition hasLabelsAndAnnotations (object : Object) (rp : RedpandaT) : bool :=
  let manageByLabel :=
    rangeMap (λ acc k v,
                if bool_decide (k = "app.kubernetes.io/managed-by") && bool_decide (v = helm)
                then true else acc)
             false (GetLabels object) in
  let flags :=
    rangeMap (λ (acc : bool * bool) k v,
                if bool_decide (k = "meta.helm.sh/release-name")
                then (bool_decide (v = Name (RpMeta rp)), acc.2)
                else if bool_decide (k = "meta.helm.sh/release-namespace")
                then (acc.1, bool_decide (v = Namespace (RpMeta rp)))
                else acc)
             (false, false) (GetAnnotations object) in
  manageByLabel && flags.1 && flags.2.

(** [setHelmLabelsAndAnnotations], lines 519-528: both maps are made afresh
    and set on the object. *)
Definition setHelmLabelsAndAnnotations (object : Object) (rp : RedpandaT) : Object :=
  let labels : gmap string string := <["app.kubernetes.io/managed-by" := helm]> ∅ in
  let object := SetLabels labels object in
  let annotations : gmap string string :=
    <["meta.helm.sh/release-namespace" := Namespace (RpMeta rp)]>
      (<["meta.helm.sh/release-name" := Name (RpMeta rp)]> ∅) in
  SetAnnotations annotations object.

(** [isRedpandaManaged], lines 895-904, on the parent's annotations. *)
Definition isRedpandaManaged (redpandaCluster : RedpandaT) : bool :=
  let managedAnnotationKey := "cluster.redpanda.com" +:+ managedPath in
  match Annotations (RpMeta redpandaCluster) !! managedAnnotationKey with
  | Some managed => negb (bool_decide (managed = NotManaged))
  | None => true
  end.

Definition vectorizedManagedKey : string := "redpanda.vectorized.io" +:+ managedPath.

(** Modelled from the spec: [isRedpandaClusterManaged] and [isConsoleManaged]
    are declared in a file of the package that is not part of the sources at
    hand.  The spec's "still under legacy management" is read off the
    annotation that [disableRedpandaReconciliation] and
    [disableConsoleReconciliation] write, the way [isRedpandaManaged] reads
    the parent's: managed unless the annotation is present and [NotManaged]. *)
Definition isRedpandaClusterManaged (cluster : Object) : bool :=
  match GetAnnotations cluster !! vectorizedManagedKey with
  | Some managed => negb (bool_decide (managed = NotManaged))
  | None => true
  end.

Definition isConsoleManaged (console : Object) : bool :=
  match GetAnnotations console !! vectorizedManagedKey with
  | Some managed => negb (bool_decide (managed = NotManaged))
  | None => true
  end.

(** [disableRedpandaReconciliation] and [disableConsoleReconciliation],
    lines 906-920. *)
Definition disableRedpandaReconciliation (redpandaCluster : Object) : Object :=
  SetAnnotations (<[vectorizedManagedKey := NotManaged]> (GetAnnotations redpandaCluster))
    redpandaCluster.

Definition disableConsoleReconciliation (console : Object) : Object :=
  SetAnnotations (<[vectorizedManagedKey := NotManaged]> (GetAnnotations console)) console.

(** ** The migration engine, [tryMigration] (lines 185-493) *)

(** The annotation map every migration event carries: always a map with the
    revision entry, also when the revision is empty. *)
Definition revisionOf (rp : RedpandaT) : option string :=
  Some (LastAttemptedRevision (Status rp)).

(** The tail every updating step shares: [r.Update], the collected error,
    the event.  The event is recorded whether or not the update went
    through. *)
Definition updateAndReport (rp : RedpandaT) (k : Kind) (copy : Object)
    (updateLabel : string) (msg : string) (errorResult : list error) : M (list error) :=
  err ← Update k copy;
  let errorResult :=
    match err with
    | Some e => Join (Errorf (updateLabel +:+ " (" +:+ Name (ObjMeta copy) +:+ ")") e) errorResult
    | None => errorResult
    end in
  AnnotatedEventf k (ObjMeta copy) (revisionOf rp) "Normal" EventSeverityInfo msg;;
  mret errorResult.

(** The shape of the updating steps: [r.Get]; on error collect it under
    [getLabel]; else, when [stale] holds of the fetched object, deep-copy,
    [mutate] the copy and hand it to [updateAndReport]. *)
Definition adopt (rp : RedpandaT) (k : Kind) (key : Key) (getLabel : string)
    (stale : Object → bool) (mutate : Object → Object)
    (updateLabel msg : string) (errorResult : list error) : M (list error) :=
  r ← Get k key;
  match r with
  | Err err => mret (Join (Errorf getLabel err) errorResult)
  | Ok obj =>
      if stale obj
      then updateAndReport rp k (mutate obj) updateLabel msg errorResult
      else mret errorResult
  end.

Definition orDefault (s def : string) : string :=
  if bool_decide (s = "") then def else s.

(** Lines 189-216. *)
Definition migrateCluster (rp : RedpandaT) : list error → M (list error) :=
  let namespace := orDefault (RefNamespace (ClusterRef (SpecMigration (Spec rp)))) (Namespace (RpMeta rp)) in
  let name := orDefault (RefName (ClusterRef (SpecMigration (Spec rp)))) (Name (RpMeta rp)) in
  adopt rp Cluster (namespace, name)
    ("get cluster reference (" +:+ namespace +:+ "/" +:+ name +:+ ")")
    isRedpandaClusterManaged disableRedpandaReconciliation
    "disabling Cluster reconciliation" "update Cluster custom resource".

(** Lines 218-250. *)
Definition consoleStale (console : Object) : bool :=
  isConsoleManaged console
  || ContainsFinalizer (ObjMeta console) ConsoleSAFinalizer
  || ContainsFinalizer (ObjMeta console) ConsoleACLFinalizer.

Definition consoleMutate (console : Object) : Object :=
  let annotatedConsole := disableConsoleReconciliation console in
  let annotatedConsole :=
    SetMeta (RemoveFinalizer (ObjMeta annotatedConsole) ConsoleSAFinalizer) annotatedConsole in
  SetMeta (RemoveFinalizer (ObjMeta annotatedConsole) ConsoleACLFinalizer) annotatedConsole.

Definition migrateConsole (rp : RedpandaT) : list error → M (list error) :=
  let namespace := orDefault (RefNamespace (ConsoleRef (SpecMigration (Spec rp)))) (Namespace (RpMeta rp)) in
  let name := orDefault (RefName (ConsoleRef (SpecMigration (Spec rp)))) (Name (RpMeta rp)) in
  adopt rp Console (namespace, name)
    ("get cluster reference (" +:+ namespace +:+ "/" +:+ name +:+ ")")
    consoleStale consoleMutate
    "disabling Cluster reconciliation" "update Console custom resource".

(** Lines 252-281: list the pods, then the loop over [pl.Items]. *)
Definition podSettled (pod : Object) : bool :=
  match GetLabels pod !! "app.kubernetes.io/component" with
  | Some l => bool_decide (l = "redpanda-statefulset")
              && negb (ContainsFinalizer (ObjMeta pod) FinalizerKey)
  | None => false
  end.

Definition podMutate (pod : Object) : Object :=
  let newPod := SetLabels (<["app.kubernetes.io/component" := "redpanda-statefulset"]> (GetLabels pod)) pod in
  SetMeta (RemoveFinalizer (ObjMeta newPod) FinalizerKey) newPod.

Fixpoint migratePodItems (rp : RedpandaT) (items : list Object)
    (errorResult : list error) : M (list error) :=
  match items with
  | [] => mret errorResult
  | pod :: rest =>
      if podSettled pod then migratePodItems rp rest errorResult
      else
        errorResult ← updateAndReport rp Pod (podMutate pod)
                        "updating component Pod label" "update Redpanda Pod" errorResult;
        migratePodItems rp rest errorResult
  end.

Definition podSelector (rp : RedpandaT) : gmap string string :=
  <["app.kubernetes.io/name" := "redpanda"]>
    (<["app.kubernetes.io/instance" := Name (RpMeta rp)]> ∅).

Definition migratePods (rp : RedpandaT) (errorResult : list error) : M (list error) :=
  r ← ListPods (Namespace (RpMeta rp)) (podSelector rp);
  match r with
  | Err err => mret (Join (Errorf "listing pods" err) errorResult)
  | Ok items => migratePodItems rp items errorResult
  end.

(** The selector a Service of the given component must carry. *)
Definition componentSelector (rp : RedpandaT) (component : string) : gmap string string :=
  <["app.kubernetes.io/name" := component]>
    (<["app.kubernetes.io/instance" := Name (RpMeta rp)]> ∅).

Definition serviceStale (rp : RedpandaT) (component : string) (svc : Object) : bool :=
  negb (hasLabelsAndAnnotations svc rp)
  || negb (bool_decide (Selector svc = componentSelector rp component)).

Definition serviceMutate (rp : RedpandaT) (component : string) (svc : Object) : Object :=
  SetSelector (componentSelector rp component) (setHelmLabelsAndAnnotations svc rp).

Definition unmarked (rp : RedpandaT) (o : Object) : bool :=
  negb (hasLabelsAndAnnotations o rp).

Definition mark (rp : RedpandaT) (o : Object) : Object :=
  setHelmLabelsAndAnnotations o rp.

(** Lines 283-286. *)
Definition resourcesNameOf (rp : RedpandaT) : string :=
  if bool_decide (FullNameOverride (ClusterSpec (Spec rp)) ≠ "")
  then FullNameOverride (ClusterSpec (Spec rp))
  else Name (RpMeta rp).

(** Lines 402-405. *)
Definition consoleResourcesNameOf (rp : RedpandaT) : string :=
  let overwriteSAName := ptr_Deref (ConsoleFullNameOverride (ConsoleSpec (ClusterSpec (Spec rp)))) "" in
  if bool_decide (overwriteSAName ≠ "") then overwriteSAName else Name (RpMeta rp).

(** Lines 288-314. *)
Definition migrateInternalService (rp : RedpandaT) : list error → M (list error) :=
  let resourcesName := resourcesNameOf rp in
  adopt rp Service (Namespace (RpMeta rp), resourcesName)
    ("get internal service (" +:+ resourcesName +:+ ")")
    (serviceStale rp "redpanda") (serviceMutate rp "redpanda")
    "updating internal service" "update internal Service".

(** Lines 316-335. *)
Definition migrateExternalService (rp : RedpandaT) : list error → M (list error) :=
  let externalSVCName := resourcesNameOf rp +:+ "-external" in
  adopt rp Service (Namespace (RpMeta rp), externalSVCName)
    ("get external service (" +:+ externalSVCName +:+ ")")
    (unmarked rp) (mark rp)
    "updating external service" "update external Service".

(** Lines 337-356. *)
Definition migrateServiceAccount (rp : RedpandaT) : list error → M (list error) :=
  let resourcesName := resourcesNameOf rp in
  adopt rp ServiceAccount (Namespace (RpMeta rp), resourcesName)
    ("get service account (" +:+ resourcesName +:+ ")")
    (unmarked rp) (mark rp)
    "updating service account" "update ServiceAccount".

(** Lines 358-377. *)
Definition migratePodDisruptionBudget (rp : RedpandaT) : list error → M (list error) :=
  let resourcesName := resourcesNameOf rp in
  adopt rp PodDisruptionBudget (Namespace (RpMeta rp), resourcesName)
    ("get pod disruption budget (" +:+ resourcesName +:+ ")")
    (unmarked rp) (mark rp)
    "updating pod disruption budget" "update PodDistributionBudget".

(** The tail of the two deleting steps: [r.Delete], the collected error,
    the event. *)
Definition deleteAndReport (rp : RedpandaT) (k : Kind) (obj : Object)
    (policy : option Propagation) (deleteLabel msg : string)
    (errorResult : list error) : M (list error) :=
  err ← Delete k obj policy;
  let errorResult :=
    match err with
    | Some e => Join (Errorf (deleteLabel +:+ " (" +:+ Name (ObjMeta obj) +:+ ")") e) errorResult
    | None => errorResult
    end in
  AnnotatedEventf k (ObjMeta obj) (revisionOf rp) "Normal" EventSeverityInfo msg;;
  mret errorResult.

(** Lines 379-398.  The local [sts] outlives the step (the console block
    reads it again), so the step hands it back: the fetched object, or the
    zero value the [var] declaration left when the fetch failed. *)
Definition migrateStatefulSet (rp : RedpandaT) (errorResult : list error)
    : M (Object * list error) :=
  let resourcesName := resourcesNameOf rp in
  r ← Get StatefulSet (Namespace (RpMeta rp), resourcesName);
  match r with
  | Err err =>
      mret (emptyObject, Join (Errorf ("get statefulset (" +:+ resourcesName +:+ ")") err) errorResult)
  | Ok sts =>
      if negb (hasLabelsAndAnnotations sts rp)
      then
        errorResult ← deleteAndReport rp StatefulSet sts (Some Orphan)
                        "deleting statefulset"
                        "delete StatefulSet with orphant propagation mode" errorResult;
        mret (sts, errorResult)
      else mret (sts, errorResult)
  end.

(** Lines 406-424. *)
Definition migrateConsoleServiceAccount (rp : RedpandaT) : list error → M (list error) :=
  let consoleResourcesName := consoleResourcesNameOf rp in
  adopt rp ServiceAccount (Namespace (RpMeta rp), consoleResourcesName)
    ("get console service account (" +:+ consoleResourcesName +:+ ")")
    (unmarked rp) (mark rp)
    "updating console service account" "update console ServiceAccount".

(** Lines 426-451. *)
Definition migrateConsoleService (rp : RedpandaT) : list error → M (list error) :=
  let consoleResourcesName := consoleResourcesNameOf rp in
  adopt rp Service (Namespace (RpMeta rp), consoleResourcesName)
    ("get console service (" +:+ consoleResourcesName +:+ ")")
    (serviceStale rp "console") (serviceMutate rp "console")
    "updating console service" "update console Service".

(** Lines 453-469.  The guard of the delete is evaluated on [sts], the
    StatefulSet variable of lines 379-398, not on the fetched [deploy];
    the delete itself is called without options. *)
Definition migrateConsoleDeployment (rp : RedpandaT) (sts : Object)
    (errorResult : list error) : M (list error) :=
  let consoleResourcesName := consoleResourcesNameOf rp in
  r ← Get Deployment (Namespace (RpMeta rp), consoleResourcesName);
  match r with
  | Err err =>
      mret (Join (Errorf ("get console deployment (" +:+ consoleResourcesName +:+ ")") err) errorResult)
  | Ok deploy =>
      if negb (hasLabelsAndAnnotations sts rp)
      then deleteAndReport rp Deployment deploy None
             "deleting console deployment" "delete console Deployment" errorResult
      else mret errorResult
  end.

(** Lines 471-490. *)
Definition migrateConsoleIngress (rp : RedpandaT) : list error → M (list error) :=
  let consoleResourcesName := consoleResourcesNameOf rp in
  adopt rp Ingress (Namespace (RpMeta rp), consoleResourcesName)
    ("get console ingress (" +:+ consoleResourcesName +:+ ")")
    (unmarked rp) (mark rp)
    "updating console ingress" "update console Ingress".

Definition consoleEnabled (rp : RedpandaT) : bool :=
  ptr_Deref (ConsoleEnabled (ConsoleSpec (ClusterSpec (Spec rp)))) true.

Definition tryMigration (rp : RedpandaT) : M (list error) :=
  let errorResult : list error := [] in
  errorResult ← migrateCluster rp errorResult;
  errorResult ← migrateConsole rp errorResult;
  errorResult ← migratePods rp errorResult;
  errorResult ← migrateInternalService rp errorResult;
  errorResult ← migrateExternalService rp errorResult;
  errorResult ← migrateServiceAccount rp errorResult;
  errorResult ← migratePodDisruptionBudget rp errorResult;
  '(sts, errorResult) ← migrateStatefulSet rp errorResult;
  if consoleEnabled rp
  then
    errorResult ← migrateConsoleServiceAccount rp errorResult;
    errorResult ← migrateConsoleService rp errorResult;
    errorResult ← migrateConsoleDeployment rp sts errorResult;
    migrateConsoleIngress rp errorResult
  else mret errorResult.

(** [tryMigration] cut in three at the StatefulSet step, for the proofs:
    the steps before it (lines 189-377) and the console block after it
    (lines 400-491).  [tryMigration_split] below shows the cut is exact. *)
Definition migratePrefix (rp : RedpandaT) : M (list error) :=
  errorResult ← migrateCluster rp [];
  errorResult ← migrateConsole rp errorResult;
  errorResult ← migratePods rp errorResult;
  errorResult ← migrateInternalService rp errorResult;
  errorResult ← migrateExternalService rp errorResult;
  errorResult ← migrateServiceAccount rp errorResult;
  migratePodDisruptionBudget rp errorResult.

Definition migrateConsoleBlock (rp : RedpandaT) (sts : Object) (errorResult : list error)
    : M (list error) :=
  if consoleEnabled rp
  then
    errorResult ← migrateConsoleServiceAccount rp errorResult;
    errorResult ← migrateConsoleService rp errorResult;
    errorResult ← migrateConsoleDeployment rp sts errorResult;
    migrateConsoleIngress rp errorResult
  else mret errorResult.

(** ** The readiness latch *)

(** [(r *RedpandaReconciler) event], lines 849-859. *)
Definition event (rp : RedpandaT) (revision : string) (severity : Severity)
    (msg : string) : M unit :=
  let metaData := if bool_decide (revision ≠ "") then Some revision else None in
  let eventType := if bool_decide (severity = EventSeverityError) then "Warning" else "Normal" in
  AnnotatedEventf Redpanda (RpMeta rp) metaData eventType severity msg.

(** The [switch kind] of lines 596-601 and 608-613. *)
Definition setReadyFlag (kind : string) (b : bool) (rp : RedpandaT) : RedpandaT :=
  if bool_decide (kind = resourceTypeHelmRepository)
  then withStatus (setHelmRepositoryReady (Some b) (Status rp)) rp
  else if bool_decide (kind = resourceTypeHelmRelease)
  then withStatus (setHelmReleaseReady (Some b) (Status rp)) rp
  else rp.

(** [checkIfResourceIsReady], lines 589-619.  [rp] is mutated through its
    pointer, so it is returned next to the verdict. *)
Definition checkIfResourceIsReady (msgNotReady msgReady kind : string)
    (isGenerationCurrent isStatusConditionReady
     isStatusReadyNILorTRUE isStatusReadyNILorFALSE : bool)
    (rp : RedpandaT) : M (bool * RedpandaT) :=
  if isGenerationCurrent || negb isStatusConditionReady
  then
    (if isStatusReadyNILorTRUE
     then event rp (LastAttemptedRevision (Status rp)) EventSeverityInfo msgNotReady
     else mret tt);;
    mret (false, setReadyFlag kind false rp)
  else if isStatusConditionReady && isStatusReadyNILorFALSE
  then
    let rp := setReadyFlag kind true rp in
    event rp (LastAttemptedRevision (Status rp)) EventSeverityInfo msgReady;;
    mret (true, rp)
  else mret (true, rp).

(** [apimeta.IsStatusConditionTrue]: the first condition of the given type
    decides. *)
Definition IsStatusConditionTrue (conditions : list Condition) (conditionType : string) : bool :=
  match find (λ c, bool_decide (CondType c = conditionType)) conditions with
  | Some c => bool_decide (CondStatus c = "True")
  | None => false
  end.

Definition ReadyCondition : string := "Ready".

(** What [reconcile] reads off a dependent object before it calls the
    latch: its name, its generation and observed generation, its
    conditions. *)
Record Observed := mkObserved {
  ObsNamespace : string;
  ObsName : string;
  ObsGeneration : Z;
  ObsObservedGeneration : Z;
  ObsConditions : list Condition;
}.

Definition observeRelease (hr : HelmReleaseT) : Observed :=
  mkObserved (Namespace (HrMeta hr)) (Name (HrMeta hr)) (Generation (HrMeta hr))
    (HrObservedGeneration hr) (HrConditions hr).

(** Lines 550-557 of [reconcile], for the HelmRepository.  Note the sense
    of [isGenerationCurrent]: it is true when the observed generation lags
    behind. *)
Definition checkHelmRepository (repo : Observed) (rp : RedpandaT) : M (bool * RedpandaT) :=
  let isGenerationCurrent := negb (bool_decide (ObsGeneration repo = ObsObservedGeneration repo)) in
  let isStatusConditionReady := IsStatusConditionTrue (ObsConditions repo) ReadyCondition in
  let msgNotReady := resourceNotReadyStr resourceTypeHelmRepository (ObsNamespace repo) (ObsName repo) in
  let msgReady := resourceReadyStr resourceTypeHelmRepository (ObsNamespace repo) (ObsName repo) in
  let isStatusReadyNILorTRUE := ptr_Equal (HelmRepositoryReady (Status rp)) (Some true) in
  let isStatusReadyNILorFALSE := ptr_Equal (HelmRepositoryReady (Status rp)) (Some false) in
  checkIfResourceIsReady msgNotReady msgReady resourceTypeHelmRepository
    isGenerationCurrent isStatusConditionReady isStatusReadyNILorTRUE isStatusReadyNILorFALSE rp.

(** Lines 573-580 of [reconcile], for the HelmRelease. *)
Definition checkHelmRelease (hr : Observed) (rp : RedpandaT) : M (bool * RedpandaT) :=
  let isGenerationCurrent := negb (bool_decide (ObsGeneration hr = ObsObservedGeneration hr)) in
  let isStatusConditionReady := IsStatusConditionTrue (ObsConditions hr) ReadyCondition in
  let msgNotReady := resourceNotReadyStr resourceTypeHelmRelease (ObsNamespace hr) (ObsName hr) in
  let msgReady := resourceReadyStr resourceTypeHelmRelease (ObsNamespace hr) (ObsName hr) in
  let isStatusReadyNILorTRUE := ptr_Equal (HelmReleaseReady (Status rp)) (Some true) in
  let isStatusReadyNILorFALSE := ptr_Equal (HelmReleaseReady (Status rp)) (Some false) in
  checkIfResourceIsReady msgNotReady msgReady resourceTypeHelmRelease
    isGenerationCurrent isStatusConditionReady isStatusReadyNILorTRUE isStatusReadyNILorFALSE rp.

(** A reconcile tick as the latch sees it: a dependent whose generation is
    fresh or not and whose Ready condition is true or not. *)
Definition tickObserved (ns name : string) (tick : bool * bool) : Observed :=
  mkObserved ns name 1 (if tick.1 then 1 else 0)
    [mkCondition ReadyCondition (if tick.2 then "True" else "False")].

(** Successive reconciles of one parent against the observed states
    [ticks] of a dependent, [check] being [checkHelmRelease] or
    [checkHelmRepository]; the result lists, per tick, the events that tick
    recorded (oldest tick first) and hands back the parent. *)
Fixpoint runTicks (check : Observed → RedpandaT → M (bool * RedpandaT))
    (ticks : list Observed) (rp : RedpandaT) : M (list (list Event) * RedpandaT) :=
  match ticks with
  | [] => mret ([], rp)
  | observed :: rest =>
      w ← getWorld;
      '(_, rp') ← check observed rp;
      '(more, rp'') ← runTicks check rest rp';
      mret (emitted (check observed rp) w :: more, rp'')
  end.

(** ** The HelmRelease: client calls *)

Definition emptyHelmRelease : HelmReleaseT :=
  mkHR emptyMeta None (mkHRSpec (mkChartSpec "" "" None "" "" "") None 0 None None) 0 []
    false.

Definition withHrSpec (s : HelmReleaseSpec) (hr : HelmReleaseT) : HelmReleaseT :=
  mkHR (HrMeta hr) (HrOwner hr) s (HrObservedGeneration hr) (HrConditions hr)
    (HrTerminating hr).

Definition markTerminating (hr : HelmReleaseT) : HelmReleaseT :=
  mkHR (HrMeta hr) (HrOwner hr) (HrSpec hr) (HrObservedGeneration hr) (HrConditions hr) true.

Definition GetRelease (key : Key) : M (result HelmReleaseT) :=
  f ← recordCall (mkCall VGet HelmRelease key);
  w ← getWorld;
  match f with
  | Some msg => mret (Err (ErrTransient msg))
  | None =>
      match releases w !! key with
      | Some hr => mret (Ok hr)
      | None => mret (Err (ErrNotFound HelmRelease key))
      end
  end.

Definition CreateRelease (hr : HelmReleaseT) : M (option error) :=
  f ← recordCall (mkCall VCreate HelmRelease (keyOf (HrMeta hr)));
  w ← getWorld;
  match f with
  | Some msg => mret (Some (ErrTransient msg))
  | None =>
      match releases w !! keyOf (HrMeta hr) with
      | Some _ => mret (Some (ErrAlreadyExists HelmRelease (keyOf (HrMeta hr))))
      | None => setReleases (<[keyOf (HrMeta hr) := hr]> (releases w));; mret None
      end
  end.

Definition UpdateRelease (hr : HelmReleaseT) : M (option error) :=
  f ← recordCall (mkCall VUpdate HelmRelease (keyOf (HrMeta hr)));
  w ← getWorld;
  match f with
  | Some msg => mret (Some (ErrTransient msg))
  | None =>
      match releases w !! keyOf (HrMeta hr) with
      | Some _ => setReleases (<[keyOf (HrMeta hr) := hr]> (releases w));; mret None
      | None => mret (Some (ErrNotFound HelmRelease (keyOf (HrMeta hr))))
      end
  end.

(** What an accepted delete of the stored release [stored] leaves in the
    store.  With foreground propagation the API server only marks the
    object and keeps it visible until its dependents are gone; with any
    other policy the release leaves the store at once. *)
Definition afterDelete (policy : option Propagation) (stored : HelmReleaseT)
    (rs : gmap Key HelmReleaseT) : gmap Key HelmReleaseT :=
  match policy with
  | Some Foreground => <[keyOf (HrMeta stored) := markTerminating stored]> rs
  | _ => delete (keyOf (HrMeta stored)) rs
  end.

(** [client.Delete] on a release. *)
Definition DeleteRelease (hr : HelmReleaseT) (policy : option Propagation) : M (option error) :=
  f ← recordCall (mkCall (VDelete policy) HelmRelease (keyOf (HrMeta hr)));
  w ← getWorld;
  match f with
  | Some msg => mret (Some (ErrTransient msg))
  | None =>
      match releases w !! keyOf (HrMeta hr) with
      | Some _ => setReleases (afterDelete policy hr (releases w));; mret None
      | None => mret (Some (ErrNotFound HelmRelease (keyOf (HrMeta hr))))
      end
  end.

(** The garbage collector's part of a foreground deletion, outside the
    controller: a release marked as terminating leaves the store. *)
Definition collectRelease (key : Key) (w : World) : World :=
  match releases w !! key with
  | Some hr =>
      if HrTerminating hr
      then mkWorld (objects w) (delete key (releases w)) (parents w) (calls w) (events w)
             (logs w) (faults w)
      else w
  | None => w
  end.

(** [r.Client.Update(ctx, rp)] on the parent. *)
Definition UpdateParent (rp : RedpandaT) : M (option error) :=
  f ← recordCall (mkCall VUpdate Redpanda (keyOf (RpMeta rp)));
  w ← getWorld;
  match f with
  | Some msg => mret (Some (ErrTransient msg))
  | None =>
      match parents w !! keyOf (RpMeta rp) with
      | Some _ => setParents (<[keyOf (RpMeta rp) := rp]> (parents w));; mret None
      | None => mret (Some (ErrNotFound Redpanda (keyOf (RpMeta rp))))
      end
  end.

Definition KindName (k : Kind) : string :=
  match k with
  | Cluster => "Cluster" | Console => "Console" | Pod => "Pod" | Service => "Service"
  | ServiceAccount => "ServiceAccount" | PodDisruptionBudget => "PodDisruptionBudget"
  | StatefulSet => "StatefulSet" | Deployment => "Deployment" | Ingress => "Ingress"
  | HelmRelease => "HelmRelease" | HelmRepository => "HelmRepository"
  | Redpanda => "Redpanda"
  end.

(** [err.Error()]. *)
Fixpoint errorString (e : error) : string :=
  match e with
  | ErrNotFound k key => KindName k +:+ " '" +:+ key.1 +:+ "/" +:+ key.2 +:+ "' not found"
  | ErrAlreadyExists k key => KindName k +:+ " '" +:+ key.1 +:+ "/" +:+ key.2 +:+ "' already exists"
  | ErrTransient msg => msg
  | Errorf label cause => label +:+ ": " +:+ errorString cause
  | ErrNew msg => msg
  end.

(** ** The deletion protocol *)

Definition waitForDeletion : error := ErrNew "wait for helm release deletion".

(** [deleteHelmRelease], lines 726-752. *)
Definition deleteHelmRelease (rp : RedpandaT) : M (RedpandaT * option error) :=
  if bool_decide (StatusHelmRelease (Status rp) = "") then mret (rp, None)
  else
    let hrName := GetHelmRelease (Status rp) in
    r ← GetRelease (Namespace (RpMeta rp), hrName);
    match r with
    | Err err =>
        if IsNotFound err
        then
          let rp := withStatus (setHelmRelease "" (Status rp)) rp in
          let rp := withStatus (setHelmRepository "" (Status rp)) rp in
          mret (rp, None)
        else
          mret (rp, Some (Errorf ("failed to get HelmRelease '" +:+ StatusHelmRelease (Status rp) +:+ "'") err))
    | Ok hr =>
        err ← DeleteRelease hr (Some Foreground);
        match err with
        | Some err =>
            mret (rp, Some (Errorf ("deleting helm release connected with Redpanda ("
                                    +:+ Name (RpMeta rp) +:+ ")") err))
        | None => mret (rp, Some waitForDeletion)
        end
    end.

(** [reconcileDelete], lines 688-699.  The [ctrl.Result] it returns is the
    zero value on every path and is left out. *)
Definition reconcileDelete (rp : RedpandaT) : M (RedpandaT * option error) :=
  '(rp, err) ← deleteHelmRelease rp;
  match err with
  | Some err => mret (rp, Some err)
  | None =>
      if ContainsFinalizer (RpMeta rp) FinalizerKey
      then
        let rp := withRpMeta (RemoveFinalizer (RpMeta rp) FinalizerKey) rp in
        err ← UpdateParent rp;
        match err with
        | Some err => mret (rp, Some err)
        | None => mret (rp, None)
        end
      else mret (rp, None)
  end.

(** ** The HelmRelease: template and reconciliation *)

Section Release.
(** The parsed chart values ([map[string]interface{}], compared with
    [reflect.DeepEqual]) and the functions of other packages the release
    code calls: [rp.ValuesJSON()], [HelmRelease.GetValues()] as a function
    of [Spec.Values], and the two halves of the fingerprint. *)
Context {JSONValues : Type} `{!EqDecision JSONValues}.
Variable ValuesJSON : RedpandaT → result string.
Variable decodeValues : option string → JSONValues.
Variable sha256Sum : string → string.
Variable base64URLEncode : string → string.

Definition GetValues (hr : HelmReleaseT) : JSONValues :=
  decodeValues (HrValues (HrSpec hr)).

Definition defaultUpgrade : Upgrade :=
  mkUpgrade false false false (Some (mkRemediation 1 None None (Some "rollback"))).

Definition setForce (b : bool) (u : Upgrade) : Upgrade :=
  mkUpgrade b (UpgCleanupOnFail u) (UpgPreserveValues u) (UpgRemediation u).
Definition setCleanupOnFail (b : bool) (u : Upgrade) : Upgrade :=
  mkUpgrade (UpgForce u) b (UpgPreserveValues u) (UpgRemediation u).
Definition setPreserveValues (b : bool) (u : Upgrade) : Upgrade :=
  mkUpgrade (UpgForce u) (UpgCleanupOnFail u) b (UpgRemediation u).
Definition setRemediation (r : option UpgradeRemediation) (u : Upgrade) : Upgrade :=
  mkUpgrade (UpgForce u) (UpgCleanupOnFail u) (UpgPreserveValues u) r.

(** [createHelmReleaseFromTemplate], lines 754-823. *)
Definition createHelmReleaseFromTemplate (rp : RedpandaT) : M (result HelmReleaseT) :=
  match ValuesJSON rp with
  | Err err => mret (Err (Errorf "could not parse clusterSpec to json" err))
  | Ok values =>
      let sha := base64URLEncode (sha256Sum values) in
      logInfo ("SHA of values file to use: " +:+ sha);;
      let timeout :=
        match ChartTimeout (SpecChartRef (Spec rp)) with
        | None => Some (15 * Minute)
        | Some t => Some t
        end in
      let upgrade := defaultUpgrade in
      let upgrade :=
        match ChartUpgrade (SpecChartRef (Spec rp)) with
        | Some helmUpgrade =>
            let upgrade :=
              if bool_decide (HuForce helmUpgrade ≠ None)
              then setForce (ptr_Deref (HuForce helmUpgrade) false) upgrade else upgrade in
            let upgrade :=
              if bool_decide (HuCleanupOnFail helmUpgrade ≠ None)
              then setCleanupOnFail (ptr_Deref (HuCleanupOnFail helmUpgrade) false) upgrade
              else upgrade in
            let upgrade :=
              if bool_decide (HuPreserveValues helmUpgrade ≠ None)
              then setPreserveValues (ptr_Deref (HuPreserveValues helmUpgrade) false) upgrade
              else upgrade in
            if bool_decide (HuRemediation helmUpgrade ≠ None)
            then setRemediation (HuRemediation helmUpgrade) upgrade else upgrade
        | None => upgrade
        end in
      mret (Ok (mkHR
                  (mkMeta (GetHelmReleaseName rp) (Namespace (RpMeta rp)) ∅ ∅ [] 0)
                  (Some (keyOf (RpMeta rp)))
                  (mkHRSpec
                     (mkChartSpec "redpanda" (ChartVersion (SpecChartRef (Spec rp)))
                        (Some (1 * Minute)) "HelmRepository"
                        (GetHelmRepositoryName rp) (Namespace (RpMeta rp)))
                     (Some values) (30 * Second) timeout (Some upgrade))
                  0 [] false))
  end.

(** [helmChartRequiresUpdate], lines 882-893. *)
Definition helmChartRequiresUpdate (template chart : HelmChartTemplateSpec) : bool :=
  if negb (bool_decide (Chart template = Chart chart)) then true
  else if negb (bool_decide (Version template = ""))
          && negb (bool_decide (Version template = Version chart)) then true
  else false.

(** [helmReleaseRequiresUpdate], lines 861-877. *)
Definition helmReleaseRequiresUpdate (hr hrTemplate : HelmReleaseT) : bool :=
  if negb (bool_decide (GetValues hr = GetValues hrTemplate)) then true
  else if helmChartRequiresUpdate (HrChart (HrSpec hr)) (HrChart (HrSpec hrTemplate)) then true
  else if negb (bool_decide (HrInterval (HrSpec hr) = HrInterval (HrSpec hrTemplate))) then true
  else false.

(** [createHelmRelease], lines 701-724.  The release handed back is nil
    ([None]) when the template could not be built. *)
Definition createHelmRelease (rp : RedpandaT)
    : M (RedpandaT * option HelmReleaseT * option error) :=
  t ← createHelmReleaseFromTemplate rp;
  match t with
  | Err err =>
      event rp (LastAttemptedRevision (Status rp)) EventSeverityError
        ("could not create helm release template: " +:+ errorString err);;
      mret (rp, None, Some (Errorf "could not create HelmRelease template" err))
  | Ok hRelease =>
      err ← CreateRelease hRelease;
      let created (rp : RedpandaT) :=
        event rp (LastAttemptedRevision (Status rp)) EventSeverityInfo
          ("HelmRelease '" +:+ Namespace (RpMeta rp) +:+ "/" +:+ GetHelmReleaseName rp
           +:+ "' created ");;
        mret (withStatus (setHelmRelease (GetHelmReleaseName rp) (Status rp)) rp,
              Some hRelease, None) in
      match err with
      | Some err =>
          if negb (IsAlreadyExists err)
          then
            event rp (LastAttemptedRevision (Status rp)) EventSeverityError (errorString err);;
            mret (rp, Some hRelease,
                  Some (Errorf ("failed to create HelmRelease '" +:+ Namespace (RpMeta rp)
                                +:+ "/" +:+ StatusHelmRelease (Status rp) +:+ "'") err))
          else created (withStatus (setHelmRelease (GetHelmReleaseName rp) (Status rp)) rp)
      | None => created rp
      end
  end.

(** [reconcileHelmRelease], lines 621-665. *)
Definition reconcileHelmRelease (rp : RedpandaT)
    : M (RedpandaT * option HelmReleaseT * option error) :=
  let hr := emptyHelmRelease in
  if bool_decide (StatusHelmRelease (Status rp) = "") then createHelmRelease rp
  else
    let key := (Namespace (RpMeta rp), GetHelmRelease (Status rp)) in
    r ← GetRelease key;
    match r with
    | Err err =>
        if IsNotFound err
        then createHelmRelease (withStatus (setHelmRelease "" (Status rp)) rp)
        else mret (rp, Some hr,
                   Some (Errorf ("failed to get HelmRelease '" +:+ Namespace (RpMeta rp) +:+ "/"
                                 +:+ StatusHelmRelease (Status rp) +:+ "'") err))
    | Ok hr =>
        t ← createHelmReleaseFromTemplate rp;
        match t with
        | Err errTemplated =>
            event rp (LastAttemptedRevision (Status rp)) EventSeverityError
              (errorString errTemplated);;
            mret (rp, Some hr, Some errTemplated)
        | Ok hrTemplate =>
            if helmReleaseRequiresUpdate hr hrTemplate
            then
              let hr := withHrSpec (HrSpec hrTemplate) hr in
              err ← UpdateRelease hr;
              match err with
              | Some err =>
                  event rp (LastAttemptedRevision (Status rp)) EventSeverityError
                    (errorString err);;
                  mret (rp, Some hr, Some err)
              | None =>
                  event rp (LastAttemptedRevision (Status rp)) EventSeverityInfo
                    ("HelmRelease '" +:+ Namespace (RpMeta rp) +:+ "/"
                     +:+ GetHelmReleaseName rp +:+ "' updated");;
                  mret (withStatus (setHelmRelease (GetHelmReleaseName rp) (Status rp)) rp,
                        Some hr, None)
              end
            else mret (rp, Some hr, None)
        end
    end.
End Release.

(** * Vocabulary of the statements *)

(** [changes R m]: whatever the start and the result, running [m] moves the
    world along [R]. *)
Definition changes (R : relation World) {A} (m : M A) : Prop :=
  ∀ w, R w (m w).2.

(** A client call is harmless to StatefulSets when, if it targets one, it is
    a read or, where deleting is allowed ([d = true]), a delete with orphan
    propagation. *)
Definition stsCallOk (d : bool) (c : Call) : Prop :=
  CallKind c = StatefulSet →
  CallVerb c = VGet ∨ (d = true ∧ CallVerb c = VDelete (Some Orphan)).

(** [stsFrame d w w']: from [w] to [w'] the fault table is the same, calls
    and events were only added, every added call is harmless to
    StatefulSets, and each StatefulSet is as it was or, where deleting is
    allowed, gone. *)
Record stsFrame (d : bool) (w w' : World) : Prop := mkStsFrame {
  frame_faults : faults w' = faults w;
  frame_calls : ∃ new, calls w' = new ++ calls w ∧ Forall (stsCallOk d) new;
  frame_events : ∃ new, events w' = new ++ events w;
  frame_objects : ∀ key,
    objects w' !! (StatefulSet, key) = objects w !! (StatefulSet, key)
    ∨ (d = true ∧ objects w' !! (StatefulSet, key) = None);
}.

(** The keys under which [tryMigration] looks up the legacy Cluster and
    Console (lines 190-197 and 219-226). *)
Definition clusterKeyOf (rp : RedpandaT) : Key :=
  (orDefault (RefNamespace (ClusterRef (SpecMigration (Spec rp)))) (Namespace (RpMeta rp)),
   orDefault (RefName (ClusterRef (SpecMigration (Spec rp)))) (Name (RpMeta rp))).

Definition consoleKeyOf (rp : RedpandaT) : Key :=
  (orDefault (RefNamespace (ConsoleRef (SpecMigration (Spec rp)))) (Namespace (RpMeta rp)),
   orDefault (RefName (ConsoleRef (SpecMigration (Spec rp)))) (Name (RpMeta rp))).

(** The object of kind [k] at [key], if there is one, passes the check of
    its step. *)
Definition settledAt (w : World) (k : Kind) (key : Key) (stale : Object → bool) : Prop :=
  ∀ o, objects w !! (k, key) = Some o → stale o = false.

(** A resource set on which every check of [tryMigration] is satisfied: the
    API server refuses nothing, every object a step looks up passes the
    check of that step if it is there, every listed pod is labelled and
    without the finalizer, and the StatefulSet is there and marked.  Nothing
    is asked of the console Deployment itself: the guard of its step reads
    the StatefulSet. *)
Record AlreadyMigrated (rp : RedpandaT) (w : World) : Prop := mkAlreadyMigrated {
  am_faults : ∀ c, faults w c = None;
  am_cluster : settledAt w Cluster (clusterKeyOf rp) isRedpandaClusterManaged;
  am_console : settledAt w Console (consoleKeyOf rp) consoleStale;
  am_pods :
    Forall (λ pod, podSettled pod = true)
      (selectPods (Namespace (RpMeta rp)) (podSelector rp) (objects w));
  am_internal :
    settledAt w Service (Namespace (RpMeta rp), resourcesNameOf rp) (serviceStale rp "redpanda");
  am_external :
    settledAt w Service (Namespace (RpMeta rp), resourcesNameOf rp +:+ "-external") (unmarked rp);
  am_sa : settledAt w ServiceAccount (Namespace (RpMeta rp), resourcesNameOf rp) (unmarked rp);
  am_pdb :
    settledAt w PodDisruptionBudget (Namespace (RpMeta rp), resourcesNameOf rp) (unmarked rp);
  am_sts : ∃ sts,
    objects w !! (StatefulSet, (Namespace (RpMeta rp), resourcesNameOf rp)) = Some sts
    ∧ hasLabelsAndAnnotations sts rp = true;
  am_console_sa :
    settledAt w ServiceAccount (Namespace (RpMeta rp), consoleResourcesNameOf rp) (unmarked rp);
  am_console_svc :
    settledAt w Service (Namespace (RpMeta rp), consoleResourcesNameOf rp)
      (serviceStale rp "console");
  am_console_ingress :
    settledAt w Ingress (Namespace (RpMeta rp), consoleResourcesNameOf rp) (unmarked rp);
}.

(** The reads of a run that finds nothing to do, newest first. *)
Definition prefixReads (rp : RedpandaT) : list Call :=
  [ mkCall VGet PodDisruptionBudget (Namespace (RpMeta rp), resourcesNameOf rp);
    mkCall VGet ServiceAccount (Namespace (RpMeta rp), resourcesNameOf rp);
    mkCall VGet Service (Namespace (RpMeta rp), resourcesNameOf rp +:+ "-external");
    mkCall VGet Service (Namespace (RpMeta rp), resourcesNameOf rp);
    mkCall VList Pod (Namespace (RpMeta rp), "");
    mkCall VGet Console (consoleKeyOf rp);
    mkCall VGet Cluster (clusterKeyOf rp) ].

Definition consoleReads (rp : RedpandaT) : list Call :=
  if consoleEnabled rp
  then [ mkCall VGet Ingress (Namespace (RpMeta rp), consoleResourcesNameOf rp);
         mkCall VGet Deployment (Namespace (RpMeta rp), consoleResourcesNameOf rp);
         mkCall VGet Service (Namespace (RpMeta rp), consoleResourcesNameOf rp);
         mkCall VGet ServiceAccount (Namespace (RpMeta rp), consoleResourcesNameOf rp) ]
  else [].

Definition migrationReads (rp : RedpandaT) : list Call :=
  consoleReads rp
  ++ mkCall VGet StatefulSet (Namespace (RpMeta rp), resourcesNameOf rp) :: prefixReads rp.

(** The latch the code implements, as a table: from the stored flag and a
    tick (generation fresh, condition ready) to the new flag and the
    messages of the events recorded. *)
Definition latchStep (kind ns name : string) (prev : option bool) (tick : bool * bool)
    : option bool * list string :=
  if tick.1 && tick.2
  then match prev with
       | Some false => (Some true, [resourceReadyStr kind ns name])
       | _ => (prev, [])
       end
  else (Some false,
        match prev with
        | Some true => [resourceNotReadyStr kind ns name]
        | _ => []
        end).

Fixpoint latchTrace (kind ns name : string) (prev : option bool) (ticks : list (bool * bool))
    : list (list string) * option bool :=
  match ticks with
  | [] => ([], prev)
  | tick :: rest =>
      let step := latchStep kind ns name prev tick in
      let more := latchTrace kind ns name step.1 rest in
      (step.2 :: more.1, more.2)
  end.

(** The key under which the recorded HelmRelease is looked up, and the
    parent with both recorded names cleared. *)
Definition releaseKeyOf (rp : RedpandaT) : Key :=
  (Namespace (RpMeta rp), StatusHelmRelease (Status rp)).

Definition clearedNames (rp : RedpandaT) : RedpandaT :=
  withStatus (setHelmRepository "" (setHelmRelease "" (Status rp))) rp.

Definition isDelete (c : Call) : bool :=
  match CallVerb c with VDelete _ => true | _ => false end.

(** Two worlds that differ at most in what was logged. *)
Definition sameButLogs (w1 w2 : World) : Prop :=
  objects w1 = objects w2 ∧ releases w1 = releases w2 ∧ parents w1 = parents w2
  ∧ calls w1 = calls w2 ∧ events w1 = events w2 ∧ faults w1 = faults w2.

(** Two computations that, from worlds differing at most in the log, give
    the same result and again worlds differing at most in the log. *)
Definition related {A} (m1 m2 : M A) : Prop :=
  ∀ w1 w2, sameButLogs w1 w2 →
    (m1 w1).1 = (m2 w2).1 ∧ sameButLogs (m1 w1).2 (m2 w2).2.


(** * Sample objects *)

Definition sampleParent : RedpandaT :=
  mkRedpanda (mkMeta "redpanda" "default" ∅ ∅ [FinalizerKey] 1) None
    (mkSpec (mkChartRef "5.3.2" None None)
       (mkClusterSpec "" (mkConsole None (Some "redpanda-console")) "{}")
       (mkMigration true (mkRef "" "") (mkRef "" "")))
    (mkStatus 1 [] "5.3.2" "redpanda" None "redpanda-repository" None).

(** An object as the legacy operator left it, and a broker pod. *)
Definition legacy (name : string) : Object :=
  mkObject (mkMeta name "default" ∅ ∅ [] 1) ∅.

Definition legacyPod (name : string) : Object :=
  mkObject (mkMeta name "default" (podSelector sampleParent) ∅ [FinalizerKey] 1) ∅.

Definition storeOf (items : list (Kind * Object)) : gmap (Kind * Key) Object :=
  list_to_map ((λ item, ((item.1, keyOf (ObjMeta item.2)), item.2)) <$> items).

Definition worldOf (items : list (Kind * Object)) : World :=
  mkWorld (storeOf items) ∅ ∅ [] [] [] (λ _, None).

Definition legacyCore : list (Kind * Object) :=
  [ (Cluster, legacy "redpanda");
    (Pod, legacyPod "redpanda-0");
    (Service, legacy "redpanda");
    (Service, legacy "redpanda-external");
    (ServiceAccount, legacy "redpanda");
    (PodDisruptionBudget, legacy "redpanda");
    (StatefulSet, legacy "redpanda");
    (ServiceAccount, legacy "redpanda-console");
    (Service, legacy "redpanda-console");
    (Deployment, legacy "redpanda-console");
    (Ingress, legacy "redpanda-console") ].

Definition migratedCore : list (Kind * Object) :=
  [ (Pod, podMutate (legacyPod "redpanda-0"));
    (Service, serviceMutate sampleParent "redpanda" (legacy "redpanda"));
    (Service, mark sampleParent (legacy "redpanda-external"));
    (ServiceAccount, mark sampleParent (legacy "redpanda"));
    (PodDisruptionBudget, mark sampleParent (legacy "redpanda"));
    (ServiceAccount, mark sampleParent (legacy "redpanda-console"));
    (Service, serviceMutate sampleParent "console" (legacy "redpanda-console"));
    (Ingress, mark sampleParent (legacy "redpanda-console")) ].

Definition migratedClusterCR : Kind * Object :=
  (Cluster, disableRedpandaReconciliation (legacy "redpanda")).
Definition migratedConsoleCR : Kind * Object :=
  (Console, consoleMutate (legacy "redpanda")).

(** Everything migrated. *)
Definition migratedWorld : World :=
  worldOf (migratedClusterCR :: migratedConsoleCR
           :: (StatefulSet, mark sampleParent (legacy "redpanda"))
           :: (Deployment, mark sampleParent (legacy "redpanda-console")) :: migratedCore).

(** Everything migrated but the console Deployment, which still lacks the
    markers; the StatefulSet carries them. *)
Definition staleDeploymentWorld : World :=
  worldOf (migratedClusterCR :: migratedConsoleCR
           :: (StatefulSet, mark sampleParent (legacy "redpanda"))
           :: (Deployment, legacy "redpanda-console") :: migratedCore).

(** The console Deployment carries the markers; the StatefulSet does not. *)
Definition staleStatefulSetWorld : World :=
  worldOf (migratedClusterCR :: migratedConsoleCR
           :: (StatefulSet, legacy "redpanda")
           :: (Deployment, mark sampleParent (legacy "redpanda-console")) :: migratedCore).

(** Nothing migrated yet. *)
Definition legacyWorld : World := worldOf ((Console, legacy "redpanda") :: legacyCore).

(** Nothing migrated yet, and the legacy Console resource cannot be
    fetched (there is none). *)
Definition legacyWorldNoConsole : World := worldOf legacyCore.

(** Everything migrated; the legacy Console, respectively the legacy
    Cluster, is gone. *)
Definition migratedNoConsole : World :=
  worldOf (migratedClusterCR
           :: (StatefulSet, mark sampleParent (legacy "redpanda"))
           :: (Deployment, mark sampleParent (legacy "redpanda-console")) :: migratedCore).
Definition migratedNoCluster : World :=
  worldOf (migratedConsoleCR
           :: (StatefulSet, mark sampleParent (legacy "redpanda"))
           :: (Deployment, mark sampleParent (legacy "redpanda-console")) :: migratedCore).


(** Stand-ins for the functions of other packages, for the examples: the
    values are the opaque part of the cluster spec, parsing keeps the raw
    text, and the digest is the identity. *)
Definition sampleValuesJSON (rp : RedpandaT) : result string :=
  Ok (OtherValues (ClusterSpec (Spec rp))).
Definition sampleDecode (raw : option string) : option string := raw.
Definition sampleDigest (bytes : string) : string := bytes.

Definition sampleTemplate (rp : RedpandaT) : HelmReleaseT :=
  match (createHelmReleaseFromTemplate sampleValuesJSON sampleDigest sampleDigest rp
           (mkWorld ∅ ∅ ∅ [] [] [] (λ _, None))).1 with
  | Ok tpl => tpl
  | Err _ => emptyHelmRelease
  end.

Definition withChartVersion (v : string) (rp : RedpandaT) : RedpandaT :=
  mkRedpanda (RpMeta rp) (RpDeletionTimestamp rp)
    (mkSpec (mkChartRef v (ChartTimeout (SpecChartRef (Spec rp)))
               (ChartUpgrade (SpecChartRef (Spec rp))))
       (ClusterSpec (Spec rp)) (SpecMigration (Spec rp)))
    (Status rp).

Definition withChartUpgrade (u : option HelmUpgrade) (rp : RedpandaT) : RedpandaT :=
  mkRedpanda (RpMeta rp) (RpDeletionTimestamp rp)
    (mkSpec (mkChartRef (ChartVersion (SpecChartRef (Spec rp)))
               (ChartTimeout (SpecChartRef (Spec rp))) u)
       (ClusterSpec (Spec rp)) (SpecMigration (Spec rp)))
    (Status rp).

Definition withOtherValues (v : string) (rp : RedpandaT) : RedpandaT :=
  mkRedpanda (RpMeta rp) (RpDeletionTimestamp rp)
    (mkSpec (SpecChartRef (Spec rp))
       (mkClusterSpec (FullNameOverride (ClusterSpec (Spec rp)))
          (ConsoleSpec (ClusterSpec (Spec rp))) v)
       (SpecMigration (Spec rp)))
    (Status rp).

(** A world holding the parent and one HelmRelease. *)
Definition releaseWorld (hr : HelmReleaseT) : World :=
  mkWorld ∅ {[keyOf (HrMeta hr) := hr]} {[keyOf (RpMeta sampleParent) := sampleParent]}
    [] [] [] (λ _, None).

(** The release as created while the chart version was left open. *)
Definition unpinnedRelease : HelmReleaseT := sampleTemplate (withChartVersion "" sampleParent).

(** The parent before any release was recorded, its repository recorded. *)
Definition freshParent : RedpandaT :=
  withStatus (setHelmRelease "" (Status sampleParent)) sampleParent.


(** A parent that overrides one upgrade field only. *)
Definition forcingParent : RedpandaT :=
  withChartUpgrade (Some (mkHelmUpgrade None (Some true) None None)) sampleParent.

(** The world after the first reconcile of a deletion, once the garbage
    collector has finished the foreground deletion. *)
Definition afterFirstDelete : World :=
  collectRelease ("default", "redpanda")
    (reconcileDelete sampleParent (releaseWorld unpinnedRelease)).2.

(** The first reconcile of a deletion, and the one that follows at once,
    while the release is still terminating. *)
Definition firstDelete : RedpandaT * option error * World :=
  reconcileDelete sampleParent (releaseWorld unpinnedRelease).

Definition secondDelete : RedpandaT * option error * World :=
  reconcileDelete firstDelete.1.1 firstDelete.2.

(** The sample parent with other chart values. *)
Definition changedParent : RedpandaT := withOtherValues "{replicas: 5}" sampleParent.

(** [w], except that the API server refuses the call [c]. *)
Definition refusing (c : Call) (msg : string) (w : World) : World :=
  mkWorld (objects w) (releases w) (parents w) (calls w) (events w) (logs w)
    (λ c', if bool_decide (c' = c) then Some msg else faults w c').

Definition consoleFetchRefused : World :=
  refusing (mkCall VGet Console ("default", "redpanda")) "context deadline exceeded"
    migratedWorld.

Definition clusterFetchRefused : World :=
  refusing (mkCall VGet Cluster ("default", "redpanda")) "context deadline exceeded"
    migratedWorld.


(** * Further parts of the controller *)

(** ** Visiting order of a map, the optional controllers, the verdict of the latch *)

(** The body of a Go [for k, v := range m] run over the entries in a given
    visiting order.  [rangeMap] is [visit] in the order of [map_to_list]. *)
Definition visit {A} (body : A → string → string → A) (init : A)
    (entries : list (string * string)) : A :=
  foldl (λ acc kv, body acc kv.1 kv.2) init entries.

(** [hasLabelsAndAnnotations], lines 495-515, with the order in which each
    of the two range loops visits its map made a parameter. *)
Definition hasLabelsAndAnnotationsIn (labels annotations : list (string * string))
    (rp : RedpandaT) : bool :=
  let manageByLabel :=
    visit (λ acc k v,
             if bool_decide (k = "app.kubernetes.io/managed-by") && bool_decide (v = helm)
             then true else acc)
          false labels in
  let flags :=
    visit (λ (acc : bool * bool) k v,
             if bool_decide (k = "meta.helm.sh/release-name")
             then (bool_decide (v = Name (RpMeta rp)), acc.2)
             else if bool_decide (k = "meta.helm.sh/release-namespace")
             then (acc.1, bool_decide (v = Namespace (RpMeta rp)))
             else acc)
          (false, false) annotations in
  manageByLabel && flags.1 && flags.2.

(** [cmd/main.go], lines 58-70 and 513-523. *)
Definition AllControllers : string := "all".
Definition NodeController : string := "nodeWatcher".
Definition DecommissionController : string := "decommission".

Fixpoint runThisControllerLoop (rc : string) (controllers : list string) : bool :=
  match controllers with
  | [] => false
  | c :: rest =>
      if bool_decide (c = AllControllers) || bool_decide (c = rc) then true
      else runThisControllerLoop rc rest
  end.

Definition runThisController (rc : string) (controllers : list string) : bool :=
  if bool_decide (length controllers = 0%nat) then false
  else runThisControllerLoop rc controllers.

(** The default of the [--additional-controllers] flag, line 174. *)
Definition defaultAdditionalControllers : list string := [""].

(** What the latch reads off a dependent: its verdict is "ready" when the
    observed generation has caught up and the Ready condition is true. *)
Definition observedReady (o : Observed) : bool :=
  bool_decide (ObsGeneration o = ObsObservedGeneration o)
  && IsStatusConditionTrue (ObsConditions o) ReadyCondition.

(** ** Vocabulary of the statements about the migration *)

(** The object a client call is aimed at and the object an event is
    attached to. *)
Definition callTarget (c : Call) : Kind * Key := (CallKind c, CallKey c).
Definition eventTarget (e : Event) : Kind * Key := (EvKind e, EvObject e).

(** The mutating calls among [l], in the same order. *)
Definition mutations (l : list Call) : list Call := filter (λ c, isMutation c = true) l.

(** The calls [tryMigration] can issue: reads of the kinds it looks up, the
    pod listing, updates of the kinds it adopts in place, the delete of a
    StatefulSet with orphan propagation and the delete of a Deployment
    without a propagation option. *)
Definition migrationCall (c : Call) : Prop :=
  match CallVerb c with
  | VGet =>
      CallKind c ∈ [Cluster; Console; Service; ServiceAccount; PodDisruptionBudget;
                    StatefulSet; Deployment; Ingress]
  | VList => CallKind c = Pod
  | VUpdate =>
      CallKind c ∈ [Cluster; Console; Pod; Service; ServiceAccount; PodDisruptionBudget;
                    Ingress]
  | VDelete policy =>
      (CallKind c = StatefulSet ∧ policy = Some Orphan)
      ∨ (CallKind c = Deployment ∧ policy = None)
  | _ => False
  end.

(** Every object is stored under the namespace and name its own metadata
    give, as the API server has it. *)
Definition wellKeyed (w : World) : Prop :=
  ∀ k key o, objects w !! (k, key) = Some o → keyOf (ObjMeta o) = key.

(** [migFrame rp P w w']: what a stretch of [tryMigration] for the parent
    [rp] may have done between [w] and [w'].  Releases, parents, the log
    and the fault table are as they were; calls satisfying [P] and events
    were added, one event per mutating call and attached to the object that
    call was aimed at, each a Normal event of severity info carrying the
    parent's revision; no object appeared that was not there, an object
    differs only where a mutating call was aimed, and objects are still
    stored under their own names. *)
Record migFrame (rp : RedpandaT) (P : Call → Prop) (w w' : World) : Prop := mkMigFrame {
  mf_faults : faults w' = faults w;
  mf_releases : releases w' = releases w;
  mf_parents : parents w' = parents w;
  mf_logs : logs w' = logs w;
  mf_created : ∀ kk, objects w !! kk = None → objects w' !! kk = None;
  mf_keyed : wellKeyed w → wellKeyed w';
  mf_trace : ∃ newCalls newEvents,
    calls w' = newCalls ++ calls w
    ∧ events w' = newEvents ++ events w
    ∧ Forall P newCalls
    ∧ eventTarget <$> newEvents = callTarget <$> mutations newCalls
    ∧ Forall (λ e, EvType e = "Normal" ∧ EvReason e = EventSeverityInfo
                   ∧ EvRevision e = revisionOf rp) newEvents
    ∧ ∀ kk, objects w' !! kk = objects w !! kk ∨ kk ∈ callTarget <$> mutations newCalls;
}.

(** The calls of one updating step on kind [k], of the pod step, and of
    the steps before and after the StatefulSet step. *)
Definition adoptCall (k : Kind) (c : Call) : Prop :=
  CallKind c = k ∧ (CallVerb c = VGet ∨ CallVerb c = VUpdate).

Definition podCall (c : Call) : Prop :=
  CallKind c = Pod ∧ (CallVerb c = VList ∨ CallVerb c = VUpdate).

Definition prefixCall (c : Call) : Prop :=
  podCall c ∨ adoptCall Cluster c ∨ adoptCall Console c ∨ adoptCall Service c
  ∨ adoptCall ServiceAccount c ∨ adoptCall PodDisruptionBudget c.

Definition statefulSetCall (c : Call) : Prop :=
  CallKind c = StatefulSet ∧ (CallVerb c = VGet ∨ CallVerb c = VDelete (Some Orphan)).

Definition deploymentCall (c : Call) : Prop :=
  CallKind c = Deployment ∧ (CallVerb c = VGet ∨ CallVerb c = VDelete None).

(** What a read of [key] hands to a step in the world [w]: nothing when the
    read is refused or the object is not there. *)
Definition fetched (w : World) (k : Kind) (key : Key) : option Object :=
  match faults w (mkCall VGet k key) with
  | Some _ => None
  | None => objects w !! (k, key)
  end.

(** The deletes of a Deployment among [l]. *)
Definition deploymentDeletes (l : list Call) : list Call :=
  filter (λ c, CallKind c = Deployment ∧ isDelete c = true) l.

(** The calls aimed at one object. *)
Definition aimedAt (kk : Kind * Key) (c : Call) : Prop := callTarget c = kk.

(** What an updating step leaves of the object it looked up. *)
Definition adopted (stale : Object → bool) (mutate : Object → Object) (o : Object) : Object :=
  if stale o then mutate o else o.

(** Between [w1] and [w2] the fault table is the same, the object [kk] is
    the same, objects are still stored under their own names and calls were
    only added. *)
Definition passes (kk : Kind * Key) (w1 w2 : World) : Prop :=
  faults w2 = faults w1
  ∧ (wellKeyed w1 → wellKeyed w2)
  ∧ objects w2 !! kk = objects w1 !! kk
  ∧ ∃ new, calls w2 = new ++ calls w1.

(** The API server lets every call through. *)
Definition faultless (w : World) : Prop := ∀ c, faults w c = None.

(** ** Vocabulary of the statements about the HelmRelease *)

(** The key of the HelmRelease the parent derives, and the message of the
    event recorded when it has been created. *)
Definition derivedReleaseKey (rp : RedpandaT) : Key :=
  (Namespace (RpMeta rp), GetHelmReleaseName rp).

Definition createdMessage (rp : RedpandaT) : string :=
  "HelmRelease '" +:+ Namespace (RpMeta rp) +:+ "/" +:+ GetHelmReleaseName rp +:+ "' created ".

(** An event of type Warning with severity error, and one of type Normal
    with severity info. *)
Definition isWarning (e : Event) : Prop :=
  EvType e = "Warning" ∧ EvReason e = EventSeverityError.
Definition isNormal (e : Event) : Prop :=
  EvType e = "Normal" ∧ EvReason e = EventSeverityInfo.

(** The calls of a pass over the HelmRelease: it reads, creates and
    updates, and never deletes. *)
Definition releaseCall (c : Call) : Prop :=
  CallKind c = HelmRelease ∧ CallVerb c ∈ [VGet; VCreate; VUpdate].

(** What a pass over the HelmRelease may have done between [w] and [w']
    when it hands back [err]: objects, parents and the fault table are as
    they were, only reads, creations and updates of HelmReleases were
    issued, at most one event was recorded, a Warning when the pass failed
    and a Normal one when it did not, and a failed pass left the stored
    releases alone.  [silent] says what is known of a pass that failed
    without an event. *)
Definition releaseOutcome (silent : list Call → error → Prop) (w : World)
    (err : option error) (w' : World) : Prop :=
  objects w' = objects w ∧ parents w' = parents w ∧ faults w' = faults w
  ∧ ∃ newCalls newEvents,
      calls w' = newCalls ++ calls w
      ∧ events w' = newEvents ++ events w
      ∧ Forall releaseCall newCalls
      ∧ (length newEvents ≤ 1)%nat
      ∧ match err with
        | Some e =>
            Forall isWarning newEvents ∧ releases w' = releases w
            ∧ (newEvents = [] → silent newCalls e)
        | None => Forall isNormal newEvents
        end.

(** A failed read of the recorded release: the one pass that fails without
    an event. *)
Definition failedRead (rp : RedpandaT) (l : list Call) (e : error) : Prop :=
  l = [mkCall VGet HelmRelease (releaseKeyOf rp)]
  ∧ ∃ cause, IsNotFound cause = false
      ∧ e = Errorf ("failed to get HelmRelease '" +:+ Namespace (RpMeta rp) +:+ "/"
                    +:+ StatusHelmRelease (Status rp) +:+ "'") cause.

(** Every stored HelmRelease sits under its own namespace and name. *)
Definition keyedReleases (w : World) : Prop :=
  ∀ key hr, releases w !! key = Some hr → keyOf (HrMeta hr) = key.

Definition updatedMessage (rp : RedpandaT) : string :=
  "HelmRelease '" +:+ Namespace (RpMeta rp) +:+ "/" +:+ GetHelmReleaseName rp +:+ "' updated".

(** ** The reconcile loop *)

(** [ctrl.Result]: the two fields the controller sets. *)
Record Result := mkResult {
  Requeue : bool;
  RequeueAfter : Duration;
}.

Definition noRequeue : Result := mkResult false 0.

(** [sourcev1.HelmRepository]: what the template fills in and what the
    readiness check reads. *)
Record HelmRepositoryT := mkRepo {
  RepoMeta : ObjectMeta;
  RepoOwner : option Key;
  RepoInterval : Duration;
  RepoURL : string;
  RepoObservedGeneration : Z;
  RepoConditions : list Condition;
}.

Definition emptyHelmRepository : HelmRepositoryT := mkRepo emptyMeta None 0 "" 0 [].

(** The HelmRepositories of the API server.  They are kept apart from
    [World] and handed from call to call. *)
Abbreviation Repositories := (gmap Key HelmRepositoryT).

Definition observeRepository (repo : HelmRepositoryT) : Observed :=
  mkObserved (Namespace (RepoMeta repo)) (Name (RepoMeta repo)) (Generation (RepoMeta repo))
    (RepoObservedGeneration repo) (RepoConditions repo).

(** [client.Get] and [client.Create] on a HelmRepository. *)
Definition GetRepository (repos : Repositories) (key : Key) : M (result HelmRepositoryT) :=
  f ← recordCall (mkCall VGet HelmRepository key);
  match f with
  | Some msg => mret (Err (ErrTransient msg))
  | None =>
      match repos !! key with
      | Some repo => mret (Ok repo)
      | None => mret (Err (ErrNotFound HelmRepository key))
      end
  end.

Definition CreateRepository (repos : Repositories) (repo : HelmRepositoryT)
    : M (option error * Repositories) :=
  f ← recordCall (mkCall VCreate HelmRepository (keyOf (RepoMeta repo)));
  match f with
  | Some msg => mret (Some (ErrTransient msg), repos)
  | None =>
      match repos !! keyOf (RepoMeta repo) with
      | Some _ => mret (Some (ErrAlreadyExists HelmRepository (keyOf (RepoMeta repo))), repos)
      | None => mret (None, <[keyOf (RepoMeta repo) := repo]> repos)
      end
  end.

(** [r.Client.Get] on the parent. *)
Definition GetParent (key : Key) : M (result RedpandaT) :=
  f ← recordCall (mkCall VGet Redpanda key);
  w ← getWorld;
  match f with
  | Some msg => mret (Err (ErrTransient msg))
  | None =>
      match parents w !! key with
      | Some rp => mret (Ok rp)
      | None => mret (Err (ErrNotFound Redpanda key))
      end
  end.

(** [client.IgnoreNotFound]. *)
Definition IgnoreNotFound (err : error) : option error :=
  if IsNotFound err then None else Some err.

(** [controllerutil.AddFinalizer]. *)
Definition AddFinalizer (m : ObjectMeta) (finalizer : string) : ObjectMeta :=
  if ContainsFinalizer m finalizer then m
  else withFinalizers (Finalizers m ++ [finalizer]) m.

(** [r.Patch(ctx, rp, patch)] of lines 148-155, [patch] being
    [client.MergeFrom] of the copy taken just before [AddFinalizer]: the
    merge patch holds the list of finalizers and nothing else.  The API
    server puts that list on the stored parent and answers with the parent
    as it now stands, which the client writes over [rp]. *)
Definition PatchFinalizers (rp : RedpandaT) : M (RedpandaT * option error) :=
  f ← recordCall (mkCall VPatch Redpanda (keyOf (RpMeta rp)));
  w ← getWorld;
  match f with
  | Some msg => mret (rp, Some (ErrTransient msg))
  | None =>
      match parents w !! keyOf (RpMeta rp) with
      | Some stored =>
          let patched := withRpMeta (withFinalizers (Finalizers (RpMeta rp)) (RpMeta stored))
                           stored in
          setParents (<[keyOf (RpMeta rp) := patched]> (parents w));;
          mret (patched, None)
      | None => mret (rp, Some (ErrNotFound Redpanda (keyOf (RpMeta rp))))
      end
  end.

#[global] Instance Condition_eq_dec : EqDecision Condition.
Proof. solve_decision. Defined.

(** A field under a JSON merge patch computed from [original] to
    [modified]: the patch names the field when the two differ, and the
    stored value stays otherwise. *)
Definition merged {A} `{EqDecision A} (original modified stored : A) : A :=
  if decide (original = modified) then stored else modified.

Definition mergeStatus (original modified stored : RedpandaStatus) : RedpandaStatus :=
  mkStatus
    (merged (ObservedGeneration original) (ObservedGeneration modified)
       (ObservedGeneration stored))
    (merged (Conditions original) (Conditions modified) (Conditions stored))
    (merged (LastAttemptedRevision original) (LastAttemptedRevision modified)
       (LastAttemptedRevision stored))
    (merged (StatusHelmRelease original) (StatusHelmRelease modified)
       (StatusHelmRelease stored))
    (merged (HelmReleaseReady original) (HelmReleaseReady modified) (HelmReleaseReady stored))
    (merged (StatusHelmRepository original) (StatusHelmRepository modified)
       (StatusHelmRepository stored))
    (merged (HelmRepositoryReady original) (HelmRepositoryReady modified)
       (HelmRepositoryReady stored)).

(** [r.Client.Status().Patch(ctx, rp, client.MergeFrom(latest))]: the
    status endpoint keeps what the patch says about the status and drops
    the rest; the answer, the stored parent as it now stands, is written
    over [rp]. *)
Definition StatusPatch (rp latest : RedpandaT) : M (RedpandaT * option error) :=
  f ← recordCall (mkCall VStatusPatch Redpanda (keyOf (RpMeta rp)));
  w ← getWorld;
  match f with
  | Some msg => mret (rp, Some (ErrTransient msg))
  | None =>
      match parents w !! keyOf (RpMeta rp) with
      | Some stored =>
          let patched := withStatus (mergeStatus (Status latest) (Status rp) (Status stored))
                           stored in
          setParents (<[keyOf (RpMeta rp) := patched]> (parents w));;
          mret (patched, None)
      | None => mret (rp, Some (ErrNotFound Redpanda (keyOf (RpMeta rp))))
      end
  end.

(** [patchRedpandaStatus], lines 839-846.  [rp] is written through its
    pointer by the patch, so it is returned next to the error. *)
Definition patchRedpandaStatus (rp : RedpandaT) : M (RedpandaT * option error) :=
  let key := keyOf (RpMeta rp) in
  r ← GetParent key;
  match r with
  | Err err => mret (rp, Some err)
  | Ok latest => StatusPatch rp latest
  end.

Definition setObservedGeneration (g : Z) (st : RedpandaStatus) : RedpandaStatus :=
  mkStatus g (Conditions st) (LastAttemptedRevision st) (StatusHelmRelease st)
    (HelmReleaseReady st) (StatusHelmRepository st) (HelmRepositoryReady st).

Section Orchestration.
(** The functions and constants of other packages the loop uses:
    [rp.ValuesJSON()] and its companions as for the release, the three
    condition setters of [v1alpha1] ([RedpandaProgressing],
    [RedpandaNotReady] with its reason and message, [RedpandaReady]), the
    URL [v1alpha1.RedpandaChartRepository], and the reconciler's field
    [RequeueHelmDeps]. *)
Context {JSONValues : Type} `{!EqDecision JSONValues}.
Variable ValuesJSON : RedpandaT → result string.
Variable decodeValues : option string → JSONValues.
Variable sha256Sum : string → string.
Variable base64URLEncode : string → string.
Variable RedpandaProgressing : RedpandaT → RedpandaT.
Variable RedpandaNotReady : RedpandaT → string → string → RedpandaT.
Variable RedpandaReady : RedpandaT → RedpandaT.
Variable RedpandaChartRepository : string.
Variable RequeueHelmDeps : Duration.

(** [createHelmRepositoryFromTemplate], lines 825-837. *)
Definition createHelmRepositoryFromTemplate (rp : RedpandaT) : HelmRepositoryT :=
  mkRepo
    (mkMeta (GetHelmRepositoryName rp) (Namespace (RpMeta rp)) ∅ ∅ [] 0)
    (Some (keyOf (RpMeta rp)))
    (30 * Second)
    RedpandaChartRepository
    0 [].

(** [reconcileHelmRepository], lines 667-686.  The repositories are handed
    back next to the results. *)
Definition reconcileHelmRepository (repos : Repositories) (rp : RedpandaT)
    : M (RedpandaT * HelmRepositoryT * option error * Repositories) :=
  let repo := emptyHelmRepository in
  r ← GetRepository repos (Namespace (RpMeta rp), GetHelmRepositoryName rp);
  match r with
  | Err err =>
      if IsNotFound err
      then
        let repo := createHelmRepositoryFromTemplate rp in
        '(errCreate, repos) ← CreateRepository repos repo;
        match errCreate with
        | Some errCreate =>
            event rp (LastAttemptedRevision (Status rp)) EventSeverityError
              ("error creating HelmRepository: " +:+ errorString errCreate);;
            mret (rp, repo, Some (Errorf "error creating HelmRepository" errCreate), repos)
        | None =>
            event rp (LastAttemptedRevision (Status rp)) EventSeverityInfo
              ("HelmRepository '" +:+ Namespace (RpMeta rp) +:+ "/"
               +:+ GetHelmRepositoryName rp +:+ "' created ");;
            mret (withStatus (setHelmRepository (GetHelmRepositoryName rp) (Status rp)) rp,
                  repo, None, repos)
        end
      else
        event rp (LastAttemptedRevision (Status rp)) EventSeverityError
          ("error getting HelmRepository: " +:+ errorString err);;
        mret (rp, repo, Some (Errorf "error getting HelmRepository" err), repos)
  | Ok repo =>
      mret (withStatus (setHelmRepository (GetHelmRepositoryName rp) (Status rp)) rp,
            repo, None, repos)
  end.

(** [reconcile], lines 530-587.  The release [reconcileHelmRelease] hands
    back is nil only next to an error, so the nil case after the error
    check is never reached; it is given the outcome of the empty name. *)
Definition reconcile (repos : Repositories) (rp : RedpandaT)
    : M (RedpandaT * Result * option error * Repositories) :=
  '(rp, updateStatusErr) ←
    (if bool_decide (ObservedGeneration (Status rp) ≠ Generation (RpMeta rp))
     then
       let rp := withStatus (setObservedGeneration (Generation (RpMeta rp)) (Status rp)) rp in
       let rp := RedpandaProgressing rp in
       patchRedpandaStatus rp
     else mret (rp, None));
  match updateStatusErr with
  | Some updateStatusErr => mret (rp, mkResult true 0, Some updateStatusErr, repos)
  | None =>
      '(rp, repo, err, repos) ← reconcileHelmRepository repos rp;
      match err with
      | Some err => mret (rp, noRequeue, Some err, repos)
      | None =>
          let msgNotReady :=
            resourceNotReadyStr resourceTypeHelmRepository (Namespace (RepoMeta repo))
              (Name (RepoMeta repo)) in
          '(isResourceReady, rp) ← checkHelmRepository (observeRepository repo) rp;
          if negb isResourceReady
          then mret (RedpandaNotReady rp "ArtifactFailed" msgNotReady,
                     mkResult false RequeueHelmDeps, None, repos)
          else
            '(rp, hr, err) ←
              reconcileHelmRelease ValuesJSON decodeValues sha256Sum base64URLEncode rp;
            match err with
            | Some err => mret (rp, noRequeue, Some err, repos)
            | None =>
                match hr with
                | None => mret (rp, noRequeue, None, repos)
                | Some hr =>
                    if bool_decide (Name (HrMeta hr) = "")
                    then mret (rp, noRequeue, None, repos)
                    else
                      let msgNotReady :=
                        resourceNotReadyStr resourceTypeHelmRelease (Namespace (HrMeta hr))
                          (Name (HrMeta hr)) in
                      '(isResourceReady, rp) ← checkHelmRelease (observeRelease hr) rp;
                      if negb isResourceReady
                      then mret (RedpandaNotReady rp "ArtifactFailed" msgNotReady,
                                 mkResult false RequeueHelmDeps, None, repos)
                      else mret (RedpandaReady rp, noRequeue, None, repos)
                end
            end
      end
  end.

(** [Reconcile], lines 120-183.  A nil [Spec.Migration] and one that is
    not enabled skip the migration alike, and [MigrationEnabled] stands for
    both; what [tryMigration] hands back only reaches the log. *)
Definition Reconcile (repos : Repositories) (req : Key)
    : M (Result * option error * Repositories) :=
  r ← GetParent req;
  match r with
  | Err err => mret (noRequeue, IgnoreNotFound err, repos)
  | Ok rp =>
      if bool_decide (RpDeletionTimestamp rp ≠ None)
      then
        '(_, err) ← reconcileDelete rp;
        mret (noRequeue, err, repos)
      else if negb (isRedpandaManaged rp)
      then
        if ContainsFinalizer (RpMeta rp) FinalizerKey
        then
          let rp := withRpMeta (RemoveFinalizer (RpMeta rp) FinalizerKey) rp in
          err ← UpdateParent rp;
          match err with
          | Some err => mret (noRequeue, Some err, repos)
          | None => mret (noRequeue, None, repos)
          end
        else mret (noRequeue, None, repos)
      else
        '(rp, err) ←
          (if negb (ContainsFinalizer (RpMeta rp) FinalizerKey)
           then PatchFinalizers (withRpMeta (AddFinalizer (RpMeta rp) FinalizerKey) rp)
           else mret (rp, None));
        match err with
        | Some err => mret (noRequeue, Some err, repos)
        | None =>
            (if MigrationEnabled (SpecMigration (Spec rp))
             then tryMigration rp;; mret tt
             else mret tt);;
            '(rp, result, err, repos) ← reconcile repos rp;
            '(_, updateStatusErr) ← patchRedpandaStatus rp;
            match updateStatusErr with
            | Some updateStatusErr => mret (mkResult true 0, Some updateStatusErr, repos)
            | None => mret (result, err, repos)
            end
        end
  end.
End Orchestration.

(** ** Vocabulary of the statements about the loop *)

(** The parent beside its status, and beside its status and finalizers. *)
Definition beyondStatus (rp : RedpandaT) : ObjectMeta * option Z * RedpandaSpec :=
  (RpMeta rp, RpDeletionTimestamp rp, Spec rp).

Definition beyondFinalizers (rp : RedpandaT) : ObjectMeta * option Z * RedpandaSpec :=
  (withFinalizers [] (RpMeta rp), RpDeletionTimestamp rp, Spec rp).

(** The calls of [reconcile]: it reads the parent and patches its status,
    reads and creates the HelmRepository, reads, creates and updates the
    HelmRelease. *)
Definition loopCall (c : Call) : Prop :=
  (CallKind c = Redpanda ∧ CallVerb c ∈ [VGet; VStatusPatch])
  ∨ (CallKind c = HelmRepository ∧ CallVerb c ∈ [VGet; VCreate])
  ∨ releaseCall c.

(** The calls of [Reconcile] on a parent that is not being deleted. *)
Definition liveCall (c : Call) : Prop :=
  (CallKind c = Redpanda ∧ CallVerb c ∈ [VGet; VUpdate; VPatch; VStatusPatch])
  ∨ (CallKind c = HelmRepository ∧ CallVerb c ∈ [VGet; VCreate])
  ∨ releaseCall c
  ∨ migrationCall c.

(** What a stage of the loop may have done between [w] and [w']: the
    fault table and the objects of the migration are as they were, every
    stored parent is as it was beside its status, no parent came or went,
    and the calls issued are in [P]. *)
Record loopFrame (P : Call → Prop) (w w' : World) : Prop := mkLoopFrame {
  lf_faults : faults w' = faults w;
  lf_objects : objects w' = objects w;
  lf_parents : ∀ key, beyondStatus <$> parents w' !! key = beyondStatus <$> parents w !! key;
  lf_calls : ∃ newCalls, calls w' = newCalls ++ calls w ∧ Forall P newCalls;
  lf_events : ∃ newEvents, events w' = newEvents ++ events w;
}.

Section OrchestrationStages.
Context {JSONValues : Type} `{!EqDecision JSONValues}.
Variable ValuesJSON : RedpandaT → result string.
Variable decodeValues : option string → JSONValues.
Variable sha256Sum : string → string.
Variable base64URLEncode : string → string.
Variable RedpandaProgressing : RedpandaT → RedpandaT.
Variable RedpandaNotReady : RedpandaT → string → string → RedpandaT.
Variable RedpandaReady : RedpandaT → RedpandaT.
Variable RedpandaChartRepository : string.
Variable RequeueHelmDeps : Duration.

(** The stages of [reconcile]: lines 535-542, lines 563-586 and lines
    545-586. *)
Definition observeGeneration (rp : RedpandaT) : M (RedpandaT * option error) :=
  if bool_decide (ObservedGeneration (Status rp) ≠ Generation (RpMeta rp))
  then
    let rp := withStatus (setObservedGeneration (Generation (RpMeta rp)) (Status rp)) rp in
    let rp := RedpandaProgressing rp in
    patchRedpandaStatus rp
  else mret (rp, None).

Definition releaseStage (repos : Repositories) (rp : RedpandaT)
    : M (RedpandaT * Result * option error * Repositories) :=
  '(rp, hr, err) ← reconcileHelmRelease ValuesJSON decodeValues sha256Sum base64URLEncode rp;
  match err with
  | Some err => mret (rp, noRequeue, Some err, repos)
  | None =>
      match hr with
      | None => mret (rp, noRequeue, None, repos)
      | Some hr =>
          if bool_decide (Name (HrMeta hr) = "")
          then mret (rp, noRequeue, None, repos)
          else
            let msgNotReady :=
              resourceNotReadyStr resourceTypeHelmRelease (Namespace (HrMeta hr))
                (Name (HrMeta hr)) in
            '(isResourceReady, rp) ← checkHelmRelease (observeRelease hr) rp;
            if negb isResourceReady
            then mret (RedpandaNotReady rp "ArtifactFailed" msgNotReady,
                       mkResult false RequeueHelmDeps, None, repos)
            else mret (RedpandaReady rp, noRequeue, None, repos)
      end
  end.

Definition dependentsStage (repos : Repositories) (rp : RedpandaT)
    : M (RedpandaT * Result * option error * Repositories) :=
  '(rp, repo, err, repos) ← reconcileHelmRepository RedpandaChartRepository repos rp;
  match err with
  | Some err => mret (rp, noRequeue, Some err, repos)
  | None =>
      let msgNotReady :=
        resourceNotReadyStr resourceTypeHelmRepository (Namespace (RepoMeta repo))
          (Name (RepoMeta repo)) in
      '(isResourceReady, rp) ← checkHelmRepository (observeRepository repo) rp;
      if negb isResourceReady
      then mret (RedpandaNotReady rp "ArtifactFailed" msgNotReady,
                 mkResult false RequeueHelmDeps, None, repos)
      else releaseStage repos rp
  end.
End OrchestrationStages.

(** The calls of [Reconcile] on a parent that is being deleted. *)
Definition deletionCall (c : Call) : Prop :=
  (CallKind c = Redpanda ∧ CallVerb c ∈ [VGet; VUpdate])
  ∨ (CallKind c = HelmRelease ∧ CallVerb c ∈ [VGet; VDelete (Some Foreground)]).

(** Between [w] and [w'] no parent came or went, every stored parent
    shows the same [view], and the calls issued are in [P]. *)
Definition parentsKept {X} (view : RedpandaT → X) (P : Call → Prop) (w w' : World) : Prop :=
  (∀ key, view <$> parents w' !! key = view <$> parents w !! key)
  ∧ ∃ newCalls, calls w' = newCalls ++ calls w ∧ Forall P newCalls.

Section ReconcileStages.
Context {JSONValues : Type} `{!EqDecision JSONValues}.
Variable ValuesJSON : RedpandaT → result string.
Variable decodeValues : option string → JSONValues.
Variable sha256Sum : string → string.
Variable base64URLEncode : string → string.
Variable RedpandaProgressing : RedpandaT → RedpandaT.
Variable RedpandaNotReady : RedpandaT → string → string → RedpandaT.
Variable RedpandaReady : RedpandaT → RedpandaT.
Variable RedpandaChartRepository : string.
Variable RequeueHelmDeps : Duration.

(** The last stage of [Reconcile], lines 157-182: the migration, the loop
    and the status patch. *)
Definition managedStage (repos : Repositories) (rp : RedpandaT)
    : M (Result * option error * Repositories) :=
  (if MigrationEnabled (SpecMigration (Spec rp))
   then tryMigration rp;; mret tt
   else mret tt);;
  '(rp, result, err, repos) ←
    reconcile ValuesJSON decodeValues sha256Sum base64URLEncode RedpandaProgressing
      RedpandaNotReady RedpandaReady RedpandaChartRepository RequeueHelmDeps repos rp;
  '(_, updateStatusErr) ← patchRedpandaStatus rp;
  match updateStatusErr with
  | Some updateStatusErr => mret (mkResult true 0, Some updateStatusErr, repos)
  | None => mret (result, err, repos)
  end.
End ReconcileStages.

(** ** Further sample objects *)

Definition sampleMarked : Object :=
  SetLabels (<["team" := "data"]> (GetLabels (mark sampleParent (legacy "redpanda"))))
    (mark sampleParent (legacy "redpanda")).

(** A parent whose console carries no name override: its console Service
    has the name of the broker Service. *)
Definition aliasedParent : RedpandaT :=
  mkRedpanda (mkMeta "redpanda" "default" ∅ ∅ [FinalizerKey] 1) None
    (mkSpec (mkChartRef "5.3.2" None None)
       (mkClusterSpec "" (mkConsole None None) "{}")
       (mkMigration true (mkRef "" "") (mkRef "" "")))
    (mkStatus 1 [] "5.3.2" "redpanda" None "redpanda-repository" None).

(** Nothing migrated yet but the StatefulSet, which the chart has already
    replaced. *)
Definition replacedStatefulSetWorld : World :=
  worldOf [ (Console, legacy "redpanda");
            (Cluster, legacy "redpanda");
            (Pod, legacyPod "redpanda-0");
            (Service, legacy "redpanda");
            (Service, legacy "redpanda-external");
            (ServiceAccount, legacy "redpanda");
            (PodDisruptionBudget, legacy "redpanda");
            (StatefulSet, mark sampleParent (legacy "redpanda"));
            (ServiceAccount, legacy "redpanda-console");
            (Service, legacy "redpanda-console");
            (Deployment, legacy "redpanda-console");
            (Ingress, legacy "redpanda-console") ].

(** Stand-ins for the condition setters of [v1alpha1], the chart
    repository and the reconciler's requeue delay, for the examples: the
    setters replace the conditions by one Ready condition. *)
Definition setConditions (c : list Condition) (st : RedpandaStatus) : RedpandaStatus :=
  mkStatus (ObservedGeneration st) c (LastAttemptedRevision st) (StatusHelmRelease st)
    (HelmReleaseReady st) (StatusHelmRepository st) (HelmRepositoryReady st).

Definition sampleProgressing (rp : RedpandaT) : RedpandaT :=
  withStatus (setConditions [mkCondition ReadyCondition "Unknown"] (Status rp)) rp.

Definition sampleNotReady (rp : RedpandaT) (reason message : string) : RedpandaT :=
  withStatus (setConditions [mkCondition ReadyCondition "False"] (Status rp)) rp.

Definition sampleReady (rp : RedpandaT) : RedpandaT :=
  withStatus (setConditions [mkCondition ReadyCondition "True"] (Status rp)) rp.

Definition sampleChartRepository : string := "https://charts.example.test".

Definition sampleRequeue : Duration := 10 * Second.

(** [reconcile] and [Reconcile] with the stand-ins. *)
Definition sampleReconcile : Repositories → RedpandaT
    → M (RedpandaT * Result * option error * Repositories) :=
  reconcile sampleValuesJSON sampleDecode sampleDigest sampleDigest sampleProgressing
    sampleNotReady sampleReady sampleChartRepository sampleRequeue.

Definition sampleReconcileRequest : Repositories → Key
    → M (Result * option error * Repositories) :=
  Reconcile sampleValuesJSON sampleDecode sampleDigest sampleDigest sampleProgressing
    sampleNotReady sampleReady sampleChartRepository sampleRequeue.

(** A repository and a release that have caught up and are ready. *)
Definition readyRepository : HelmRepositoryT :=
  mkRepo (mkMeta "redpanda-repository" "default" ∅ ∅ [] 1) (Some ("default", "redpanda"))
    (30 * Second) sampleChartRepository 1 [mkCondition ReadyCondition "True"].

Definition readyRelease : HelmReleaseT :=
  mkHR (mkMeta "redpanda" "default" ∅ ∅ [] 1) (Some ("default", "redpanda"))
    (HrSpec (sampleTemplate sampleParent)) 1 [mkCondition ReadyCondition "True"] false.

(** A world holding one parent and nothing else. *)
Definition parentWorld (rp : RedpandaT) : World :=
  mkWorld ∅ ∅ {[keyOf (RpMeta rp) := rp]} [] [] [] (λ _, None).

(** The sample parent marked as not managed, being deleted, and before its
    finalizer was registered. *)
Definition unmanagedParent : RedpandaT :=
  withRpMeta (withAnnotations {["cluster.redpanda.com/managed" := "false"]}
                (RpMeta sampleParent)) sampleParent.

Definition deletingParent : RedpandaT :=
  mkRedpanda (RpMeta sampleParent) (Some 1) (Spec sampleParent) (Status sampleParent).

Definition newParent : RedpandaT :=
  withRpMeta (withFinalizers [] (RpMeta sampleParent)) sampleParent.


(** * Lemmas and theorems *)

(** ** Ranging over a map *)

Lemma foldl_project {A B X} (p : A → B) (f : A → X → A) (g : B → X → B) (l : list X) :
  (∀ acc x, p (f acc x) = g (p acc) x) →
  ∀ acc, p (foldl f acc l) = foldl g (p acc) l.
Proof.
  intros Hstep. induction l as [|x l IH]; intros acc; simpl; [done|].
  by rewrite IH, Hstep.
Qed.

Lemma foldl_one_key {A} (body : A → string → string → A) (key : string)
    (l : list (string * string)) :
  (∀ acc k v, k ≠ key → body acc k v = acc) →
  NoDup l.*1 →
  ∀ acc, foldl (λ acc kv, body acc kv.1 kv.2) acc l
         = match (list_to_map l : gmap string string) !! key with
           | Some v => body acc key v
           | None => acc
           end.
Proof.
  intros Hother. induction l as [|[k v] l IH]; intros Hnd acc; simpl; [done|].
  apply NoDup_cons in Hnd as [Hk Hnd]. rewrite (IH Hnd).
  destruct (decide (k = key)) as [->|Hne].
  - rewrite lookup_insert_eq.
    by rewrite (not_elem_of_list_to_map_1 _ _ Hk).
  - rewrite lookup_insert_ne by done. rewrite (Hother _ _ _ Hne). done.
Qed.

Lemma rangeMap_one_key {A} (body : A → string → string → A) (key : string)
    (init : A) (m : gmap string string) :
  (∀ acc k v, k ≠ key → body acc k v = acc) →
  rangeMap body init m
  = match m !! key with Some v => body init key v | None => init end.
Proof.
  intros Hother. unfold rangeMap.
  rewrite (foldl_one_key body key _ Hother (NoDup_fst_map_to_list m)).
  by rewrite list_to_map_to_list.
Qed.

Lemma rangeMap_project {A B} (p : A → B) (body : A → string → string → A)
    (g : B → string → string → B) (init : A) (m : gmap string string) :
  (∀ acc k v, p (body acc k v) = g (p acc) k v) →
  p (rangeMap body init m) = rangeMap g (p init) m.
Proof. intros Hstep. unfold rangeMap. apply foldl_project. intros acc [k v]. apply Hstep. Qed.

Lemma hasLabelsAndAnnotations_spec (object : Object) (rp : RedpandaT) :
  hasLabelsAndAnnotations object rp
  = bool_decide (GetLabels object !! "app.kubernetes.io/managed-by" = Some helm)
    && bool_decide (GetAnnotations object !! "meta.helm.sh/release-name" = Some (Name (RpMeta rp)))
    && bool_decide (GetAnnotations object !! "meta.helm.sh/release-namespace"
                    = Some (Namespace (RpMeta rp))).
Proof.
  unfold hasLabelsAndAnnotations. f_equal; [f_equal|].
  - rewrite (rangeMap_one_key _ "app.kubernetes.io/managed-by").
    + destruct (GetLabels object !! _) as [v|]; [|done].
      rewrite bool_decide_true by done. simpl.
      destruct (decide (v = helm)) as [->|Hv].
      * by rewrite !bool_decide_true.
      * rewrite !bool_decide_false; [done|congruence|done].
    + intros acc k v Hk. by rewrite (bool_decide_false _ Hk).
  - rewrite (rangeMap_project fst _
               (λ acc k v, if bool_decide (k = "meta.helm.sh/release-name")
                           then bool_decide (v = Name (RpMeta rp)) else acc)).
    + rewrite (rangeMap_one_key _ "meta.helm.sh/release-name").
      * destruct (GetAnnotations object !! _) as [v|]; simpl; [|done].
        destruct (decide (v = Name (RpMeta rp))) as [->|Hv].
        -- by rewrite !bool_decide_true.
        -- rewrite !bool_decide_false; [done|congruence|done].
      * intros acc k v Hk. by rewrite (bool_decide_false _ Hk).
    + intros acc k v. repeat case_bool_decide; done.
  - rewrite (rangeMap_project snd _
               (λ acc k v, if bool_decide (k = "meta.helm.sh/release-namespace")
                           then bool_decide (v = Namespace (RpMeta rp)) else acc)).
    + rewrite (rangeMap_one_key _ "meta.helm.sh/release-namespace").
      * destruct (GetAnnotations object !! _) as [v|]; simpl; [|done].
        destruct (decide (v = Namespace (RpMeta rp))) as [->|Hv].
        -- by rewrite !bool_decide_true.
        -- rewrite !bool_decide_false; [done|congruence|done].
      * intros acc k v Hk. by rewrite (bool_decide_false _ Hk).
    + intros acc k v. repeat case_bool_decide; simplify_eq; done.
Qed.

Lemma setHelm_labels (object : Object) (rp : RedpandaT) :
  GetLabels (setHelmLabelsAndAnnotations object rp)
  = <["app.kubernetes.io/managed-by" := helm]> ∅.
Proof. reflexivity. Qed.

Lemma setHelm_annotations (object : Object) (rp : RedpandaT) :
  GetAnnotations (setHelmLabelsAndAnnotations object rp)
  = <["meta.helm.sh/release-namespace" := Namespace (RpMeta rp)]>
      (<["meta.helm.sh/release-name" := Name (RpMeta rp)]> ∅).
Proof. reflexivity. Qed.

Lemma hasLabelsAndAnnotations_set (object : Object) (rp : RedpandaT) :
  hasLabelsAndAnnotations (setHelmLabelsAndAnnotations object rp) rp = true.
Proof.
  rewrite hasLabelsAndAnnotations_spec, setHelm_labels, setHelm_annotations.
  rewrite lookup_insert_eq, lookup_insert_eq.
  rewrite lookup_insert_ne by done. rewrite lookup_insert_eq.
  by rewrite !bool_decide_true.
Qed.



(** ** Running the monad *)

Lemma run_bind {A B} (m : M A) (f : A → M B) (w : World) :
  (m ≫= f) w = f (m w).1 (m w).2.
Proof. unfold mbind, M_bind. by destruct (m w). Qed.

Lemma run_ret {A} (a : A) (w : World) : (mret a : M A) w = (a, w).
Proof. done. Qed.

Lemma changes_ret (R : relation World) `{!Reflexive R} {A} (a : A) :
  changes R (mret a : M A).
Proof. intros w. simpl. reflexivity. Qed.

Lemma changes_bind (R : relation World) `{!Transitive R} {A B} (m : M A) (f : A → M B) :
  changes R m → (∀ a, changes R (f a)) → changes R (m ≫= f).
Proof.
  intros Hm Hf w. rewrite run_bind. etrans; [apply Hm|apply Hf].
Qed.

(** ** What the migration may do to StatefulSets *)

#[local] Instance stsFrame_refl d : Reflexive (stsFrame d).
Proof.
  intros w. split; [done|by exists []|by exists []|by left].
Qed.

#[local] Instance stsFrame_trans d : Transitive (stsFrame d).
Proof.
  intros w1 w2 w3 [Hf1 [n1 [Hc1 Ho1]] [e1 He1] Hs1] [Hf2 [n2 [Hc2 Ho2]] [e2 He2] Hs2].
  split.
  - congruence.
  - exists (n2 ++ n1). rewrite Hc2, Hc1, app_assoc. split; [done|]. by apply Forall_app.
  - exists (e2 ++ e1). by rewrite He2, He1, app_assoc.
  - intros key. destruct (Hs2 key) as [-> | ?]; [apply Hs1|by right].
Qed.

Lemma stsFrame_weaken (w w' : World) : stsFrame false w w' → stsFrame true w w'.
Proof.
  intros [Hf [n [Hc Ho]] He Hs]. split; [done| |done|].
  - exists n. split; [done|]. eapply Forall_impl; [exact Ho|].
    intros c Hok Hk. destruct (Hok Hk) as [? | [? _]]; [by left|done].
  - intros key. destruct (Hs key) as [? | [? _]]; [by left|done].
Qed.

Lemma recordCall_frame d (c : Call) : stsCallOk d c → changes (stsFrame d) (recordCall c).
Proof.
  intros Hc w. split; simpl; [done| |by exists []|by left].
  exists [c]. split; [done|]. by apply Forall_singleton.
Qed.

Lemma getWorld_frame d : changes (stsFrame d) getWorld.
Proof. intros w. reflexivity. Qed.

Lemma AnnotatedEventf_frame d k m rev ty reason msg :
  changes (stsFrame d) (AnnotatedEventf k m rev ty reason msg).
Proof.
  intros w. split; simpl; [done|by exists []| |by left].
  by eexists [_].
Qed.

Lemma Get_frame d k key : changes (stsFrame d) (Get k key).
Proof.
  apply changes_bind; [apply _| |intros f].
  { apply recordCall_frame. intros _. by left. }
  apply changes_bind; [apply _|apply getWorld_frame|intros w].
  destruct f; [apply changes_ret, _|].
  destruct (objects w !! _); apply changes_ret, _.
Qed.

Lemma ListPods_frame d ns labels : changes (stsFrame d) (ListPods ns labels).
Proof.
  apply changes_bind; [apply _| |intros f].
  { apply recordCall_frame. intros ?. done. }
  apply changes_bind; [apply _|apply getWorld_frame|intros w].
  destruct f; apply changes_ret, _.
Qed.

Lemma Update_frame d k o : k ≠ StatefulSet → changes (stsFrame d) (Update k o).
Proof.
  intros Hk w. unfold Update. rewrite !run_bind. simpl.
  destruct (faults w _); simpl.
  { apply recordCall_frame. by intros ?. }
  destruct (objects w !! _); simpl.
  2:{ apply recordCall_frame. by intros ?. }
  split; simpl; [done| |by exists []|].
  - eexists [_]. split; [done|]. apply Forall_singleton. by intros ?.
  - intros key. left. rewrite lookup_insert_ne; [done|congruence].
Qed.

Lemma Delete_frame d k o policy :
  k ≠ StatefulSet ∨ (d = true ∧ policy = Some Orphan) →
  changes (stsFrame d) (Delete k o policy).
Proof.
  intros Hk w. unfold Delete. rewrite !run_bind. simpl.
  assert (stsCallOk d (mkCall (VDelete policy) k (keyOf (ObjMeta o)))) as Hok.
  { intros Hkind. simpl in *. destruct Hk as [? | [-> ->]]; [done|by right]. }
  destruct (faults w _); simpl.
  { by apply recordCall_frame. }
  destruct (objects w !! _); simpl.
  2:{ by apply recordCall_frame. }
  split; simpl; [done| |by exists []|].
  - eexists [_]. split; [done|]. by apply Forall_singleton.
  - intros key. destruct (decide ((k, keyOf (ObjMeta o)) = (StatefulSet, key))) as [Heq|Hne].
    + right. destruct Hk as [? | [-> _]]; [congruence|].
      split; [done|]. rewrite Heq. apply lookup_delete_eq.
    + left. by rewrite lookup_delete_ne.
Qed.

Lemma updateAndReport_frame d rp k copy updateLabel msg errs :
  k ≠ StatefulSet → changes (stsFrame d) (updateAndReport rp k copy updateLabel msg errs).
Proof.
  intros Hk. apply changes_bind; [apply _|by apply Update_frame|intros err].
  apply changes_bind; [apply _|apply AnnotatedEventf_frame|intros _].
  apply changes_ret, _.
Qed.

Lemma deleteAndReport_frame d rp k obj policy deleteLabel msg errs :
  k ≠ StatefulSet ∨ (d = true ∧ policy = Some Orphan) →
  changes (stsFrame d) (deleteAndReport rp k obj policy deleteLabel msg errs).
Proof.
  intros Hk. apply changes_bind; [apply _|by apply Delete_frame|intros err].
  apply changes_bind; [apply _|apply AnnotatedEventf_frame|intros _].
  apply changes_ret, _.
Qed.

Lemma adopt_frame d rp k key getLabel stale mutate updateLabel msg errs :
  k ≠ StatefulSet →
  changes (stsFrame d) (adopt rp k key getLabel stale mutate updateLabel msg errs).
Proof.
  intros Hk. apply changes_bind; [apply _|apply Get_frame|intros [obj|err]].
  - destruct (stale obj); [by apply updateAndReport_frame|apply changes_ret, _].
  - apply changes_ret, _.
Qed.

Lemma migratePodItems_frame d rp items errs :
  changes (stsFrame d) (migratePodItems rp items errs).
Proof.
  revert errs. induction items as [|pod rest IH]; intros errs; simpl.
  - apply changes_ret, _.
  - destruct (podSettled pod); [apply IH|].
    apply changes_bind; [apply _|by apply updateAndReport_frame|intros errs'; apply IH].
Qed.

Lemma migratePods_frame d rp errs : changes (stsFrame d) (migratePods rp errs).
Proof.
  apply changes_bind; [apply _|apply ListPods_frame|intros [items|err]].
  - apply migratePodItems_frame.
  - apply changes_ret, _.
Qed.

Lemma migrateStatefulSet_frame rp errs :
  changes (stsFrame true) (migrateStatefulSet rp errs).
Proof.
  apply changes_bind; [apply _|apply Get_frame|intros [sts|err]].
  - destruct (negb _); [|apply changes_ret, _].
    apply changes_bind; [apply _| |intros ?; apply changes_ret, _].
    apply deleteAndReport_frame. by right.
  - apply changes_ret, _.
Qed.

Lemma migrateConsoleDeployment_frame d rp sts errs :
  changes (stsFrame d) (migrateConsoleDeployment rp sts errs).
Proof.
  apply changes_bind; [apply _|apply Get_frame|intros [deploy|err]].
  - destruct (negb _); [|apply changes_ret, _].
    apply deleteAndReport_frame. by left.
  - apply changes_ret, _.
Qed.

Lemma migrateConsoleBlock_frame d rp sts errs :
  changes (stsFrame d) (migrateConsoleBlock rp sts errs).
Proof.
  unfold migrateConsoleBlock.
  destruct (consoleEnabled rp); [|apply changes_ret, _].
  do 2 (apply changes_bind; [apply _|by apply adopt_frame|intros ?]).
  apply changes_bind; [apply _|apply migrateConsoleDeployment_frame|intros ?].
  by apply adopt_frame.
Qed.

Lemma migratePrefix_frame d rp : changes (stsFrame d) (migratePrefix rp).
Proof.
  unfold migratePrefix.
  do 6 (apply changes_bind;
        [apply _|first [by apply adopt_frame|apply migratePods_frame]|intros ?]).
  by apply adopt_frame.
Qed.

Lemma tryMigration_split (rp : RedpandaT) (w : World) :
  tryMigration rp w
  = (let pre := migratePrefix rp w in
     let mid := migrateStatefulSet rp pre.1 pre.2 in
     migrateConsoleBlock rp mid.1.1 mid.1.2 mid.2).
Proof.
  unfold tryMigration, migratePrefix, migrateConsoleBlock.
  rewrite !run_bind. cbv zeta.
  by destruct (migrateStatefulSet _ _ _) as [[sts errs] w'].
Qed.

Lemma tryMigration_frame rp : changes (stsFrame true) (tryMigration rp).
Proof.
  intros w. rewrite tryMigration_split. simpl.
  etrans; [apply (migratePrefix_frame true rp)|].
  etrans; [apply migrateStatefulSet_frame|].
  apply migrateConsoleBlock_frame.
Qed.

(** ** Exact runs of the client calls *)

Lemma Get_found k key o w :
  faults w (mkCall VGet k key) = None →
  objects w !! (k, key) = Some o →
  Get k key w = (Ok o, called (mkCall VGet k key) w).
Proof.
  intros Hf Ho. unfold Get. rewrite !run_bind. simpl. by rewrite Hf, Ho.
Qed.

Lemma Get_missing k key w :
  faults w (mkCall VGet k key) = None →
  objects w !! (k, key) = None →
  Get k key w = (Err (ErrNotFound k key), called (mkCall VGet k key) w).
Proof.
  intros Hf Ho. unfold Get. rewrite !run_bind. simpl. by rewrite Hf, Ho.
Qed.

Lemma Get_world k key w : (Get k key w).2 = called (mkCall VGet k key) w.
Proof.
  unfold Get. rewrite !run_bind. simpl.
  destruct (faults w _); [done|]. by destruct (objects w !! _).
Qed.

Lemma Delete_found k o policy w :
  faults w (mkCall (VDelete policy) k (keyOf (ObjMeta o))) = None →
  is_Some (objects w !! (k, keyOf (ObjMeta o))) →
  Delete k o policy w
  = (None, (setObjects (delete (k, keyOf (ObjMeta o)) (objects w))
              (called (mkCall (VDelete policy) k (keyOf (ObjMeta o))) w)).2).
Proof.
  intros Hf [o' Ho]. unfold Delete. rewrite !run_bind. simpl. by rewrite Hf, Ho.
Qed.

Lemma take_new {X} (new old : list X) :
  take (length (new ++ old) - length old) (new ++ old) = new.
Proof.
  rewrite length_app. replace (length new + length old - length old)%nat
    with (length new) by lia. apply take_app_length.
Qed.

Lemma issued_new {A} (m : M A) (w : World) (new : list Call) :
  calls (m w).2 = new ++ calls w → issued m w = new.
Proof. intros H. unfold issued. rewrite H. apply take_new. Qed.

Lemma emitted_new {A} (m : M A) (w : World) (new : list Event) :
  events (m w).2 = new ++ events w → emitted m w = new.
Proof. intros H. unfold emitted. rewrite H. apply take_new. Qed.

(** Claim C9.  Whatever the store holds and whichever calls the API server
    refuses, the only calls [tryMigration] issues on a StatefulSet are reads
    and deletes with orphan propagation (so no update ever targets one),
    and every StatefulSet still in the store afterwards is the object that
    was there before, unchanged.  If the StatefulSet of the parent is there
    without the markers and its read and delete are let through, the
    delete with orphan propagation is among the calls issued and the
    StatefulSet is gone from the store. *)
Theorem statefulset_orphaned_never_updated (rp : RedpandaT) (w : World) :
  let key := (Namespace (RpMeta rp), resourcesNameOf rp) in
  let w' := (tryMigration rp w).2 in
  Forall (λ c, CallKind c = StatefulSet →
               CallVerb c = VGet ∨ CallVerb c = VDelete (Some Orphan))
         (issued (tryMigration rp) w)
  ∧ (∀ key' sts', objects w' !! (StatefulSet, key') = Some sts' →
                  objects w !! (StatefulSet, key') = Some sts')
  ∧ (∀ sts,
       objects w !! (StatefulSet, key) = Some sts →
       keyOf (ObjMeta sts) = key →
       hasLabelsAndAnnotations sts rp = false →
       faults w (mkCall VGet StatefulSet key) = None →
       faults w (mkCall (VDelete (Some Orphan)) StatefulSet key) = None →
       mkCall (VDelete (Some Orphan)) StatefulSet key ∈ issued (tryMigration rp) w
       ∧ objects w' !! (StatefulSet, key) = None).
Proof.
  intros key w'. split_and!.
  - destruct (tryMigration_frame rp w) as [_ [new [Hc Hok]] _ _].
    rewrite (issued_new _ _ _ Hc). eapply Forall_impl; [exact Hok|].
    intros c Hc' Hk. destruct (Hc' Hk) as [? | [_ ?]]; [by left|by right].
  - intros key' sts' Hs'. destruct (tryMigration_frame rp w) as [_ _ _ Ho].
    destruct (Ho key') as [Heq | [_ Hnone]]; [by rewrite <- Heq|].
    fold w' in Hnone. congruence.
  - intros sts Hsts Hkey Hunmarked HfG HfD. subst w'.
    assert (∃ n3 n1,
              calls (tryMigration rp w).2
              = n3 ++ [mkCall (VDelete (Some Orphan)) StatefulSet key;
                       mkCall VGet StatefulSet key] ++ n1 ++ calls w
              ∧ objects (tryMigration rp w).2 !! (StatefulSet, key) = None)
      as (n3 & n1 & Hc & Ho).
    { rewrite tryMigration_split. cbn zeta.
      pose proof (migratePrefix_frame false rp w) as [Hf1 [n1 [Hc1 _]] _ Ho1].
      set (pre := migratePrefix rp w) in *.
      assert (objects pre.2 !! (StatefulSet, key) = Some sts) as Hsts1.
      { destruct (Ho1 key) as [-> | [? _]]; done. }
      assert (migrateStatefulSet rp pre.1 pre.2
              = ((sts, pre.1),
                 (AnnotatedEventf StatefulSet (ObjMeta sts) (revisionOf rp) "Normal"
                    EventSeverityInfo "delete StatefulSet with orphant propagation mode"
                    (setObjects (delete (StatefulSet, key) (objects pre.2))
                       (called (mkCall (VDelete (Some Orphan)) StatefulSet key)
                          (called (mkCall VGet StatefulSet key) pre.2))).2).2)) as Hmid.
      { unfold migrateStatefulSet. rewrite run_bind.
        rewrite (Get_found _ _ sts); [|by rewrite Hf1|done]. cbn [fst snd].
        rewrite Hunmarked. cbn [negb].
        unfold deleteAndReport. rewrite !run_bind.
        rewrite Delete_found; [|by rewrite Hkey; simpl; rewrite Hf1|by rewrite Hkey].
        rewrite Hkey. done. }
      rewrite Hmid. cbn [fst snd].
      match goal with |- context [migrateConsoleBlock rp sts pre.1 ?w2] =>
        pose proof (migrateConsoleBlock_frame true rp sts pre.1 w2) as [_ [n3 [Hc3 _]] _ Ho3]
      end.
      exists n3, n1. split.
      - rewrite Hc3. simpl. by rewrite Hc1.
      - destruct (Ho3 key) as [-> | [_ ?]]; [|done]. simpl. apply lookup_delete_eq. }
    split; [|done].
    rewrite !app_assoc in Hc. rewrite (issued_new _ _ _ Hc).
    rewrite <- !app_assoc. apply elem_of_app. right. apply elem_of_cons. by left.
Qed.

(** ** A run that finds nothing to do *)

Lemma bind_world {A B} (m : M A) (f : A → M B) (w w1 w2 : World) :
  (m w).2 = w1 → (∀ a, (f a w1).2 = w2) → ((m ≫= f) w).2 = w2.
Proof. intros H1 H2. rewrite run_bind, H1. apply H2. Qed.

Lemma adopt_settled rp k key getLabel stale mutate updateLabel msg errs w :
  faults w (mkCall VGet k key) = None →
  settledAt w k key stale →
  (adopt rp k key getLabel stale mutate updateLabel msg errs w).2
  = called (mkCall VGet k key) w.
Proof.
  intros Hf Hs. unfold adopt. rewrite run_bind.
  destruct (objects w !! (k, key)) as [o|] eqn:Ho.
  - rewrite (Get_found _ _ o) by done. cbn [fst snd]. by rewrite (Hs o Ho).
  - by rewrite Get_missing.
Qed.

Lemma migratePodItems_settled rp items errs w :
  Forall (λ pod, podSettled pod = true) items →
  migratePodItems rp items errs w = (errs, w).
Proof.
  induction 1 as [|pod rest Hpod _ IH]; simpl; [done|]. by rewrite Hpod.
Qed.

Lemma migratePods_settled rp errs w :
  faults w (mkCall VList Pod (Namespace (RpMeta rp), "")) = None →
  Forall (λ pod, podSettled pod = true)
    (selectPods (Namespace (RpMeta rp)) (podSelector rp) (objects w)) →
  (migratePods rp errs w).2 = called (mkCall VList Pod (Namespace (RpMeta rp), "")) w.
Proof.
  intros Hf Hpods. unfold migratePods, ListPods. rewrite !run_bind.
  cbn [recordCall getWorld fst snd]. rewrite Hf. cbn [mret M_ret fst snd objects called].
  by rewrite migratePodItems_settled.
Qed.

Lemma migrateStatefulSet_settled rp errs w sts :
  faults w (mkCall VGet StatefulSet (Namespace (RpMeta rp), resourcesNameOf rp)) = None →
  objects w !! (StatefulSet, (Namespace (RpMeta rp), resourcesNameOf rp)) = Some sts →
  hasLabelsAndAnnotations sts rp = true →
  migrateStatefulSet rp errs w
  = ((sts, errs), called (mkCall VGet StatefulSet (Namespace (RpMeta rp), resourcesNameOf rp)) w).
Proof.
  intros Hf Ho Hm. unfold migrateStatefulSet. rewrite run_bind.
  rewrite (Get_found _ _ sts) by done. cbn [fst snd]. by rewrite Hm.
Qed.

Lemma migrateConsoleDeployment_settled rp sts errs w :
  hasLabelsAndAnnotations sts rp = true →
  (migrateConsoleDeployment rp sts errs w).2
  = called (mkCall VGet Deployment (Namespace (RpMeta rp), consoleResourcesNameOf rp)) w.
Proof.
  intros Hm. unfold migrateConsoleDeployment. rewrite run_bind.
  rewrite <- Get_world. destruct (Get _ _ w) as [[deploy|err] w1]; cbn [fst snd]; [|done].
  by rewrite Hm.
Qed.

Lemma migratePrefix_settled rp w :
  AlreadyMigrated rp w → (migratePrefix rp w).2 = foldr called w (prefixReads rp).
Proof.
  intros [Hf Hcl Hco Hpods Hint Hext Hsa Hpdb _ _ _ _].
  unfold migratePrefix, migrateCluster, migrateConsole, migrateInternalService,
    migrateExternalService, migrateServiceAccount, migratePodDisruptionBudget.
  cbn zeta.
  eapply bind_world; [apply adopt_settled; [apply Hf|exact Hcl]|intros ?].
  eapply bind_world; [apply adopt_settled; [apply Hf|exact Hco]|intros ?].
  eapply bind_world; [apply migratePods_settled; [apply Hf|exact Hpods]|intros ?].
  eapply bind_world; [apply adopt_settled; [apply Hf|exact Hint]|intros ?].
  eapply bind_world; [apply adopt_settled; [apply Hf|exact Hext]|intros ?].
  eapply bind_world; [apply adopt_settled; [apply Hf|exact Hsa]|intros ?].
  apply adopt_settled; [apply Hf|exact Hpdb].
Qed.

Lemma migrateConsoleBlock_settled rp sts errs w :
  AlreadyMigrated rp w → hasLabelsAndAnnotations sts rp = true →
  (migrateConsoleBlock rp sts errs w).2 = foldr called w (consoleReads rp).
Proof.
  intros [Hf _ _ _ _ _ _ _ _ Hsa Hsvc Hing] Hm.
  unfold migrateConsoleBlock, consoleReads, migrateConsoleServiceAccount,
    migrateConsoleService, migrateConsoleIngress.
  cbn zeta.
  destruct (consoleEnabled rp); [|done].
  eapply bind_world; [apply adopt_settled; [apply Hf|exact Hsa]|intros ?].
  eapply bind_world; [apply adopt_settled; [apply Hf|exact Hsvc]|intros ?].
  eapply bind_world; [by apply migrateConsoleDeployment_settled|intros ?].
  apply adopt_settled; [apply Hf|exact Hing].
Qed.

Lemma reads_objects l w : objects (foldr called w l) = objects w.
Proof. induction l; simpl; done. Qed.
Lemma reads_faults l w : faults (foldr called w l) = faults w.
Proof. induction l; simpl; done. Qed.
Lemma reads_events l w : events (foldr called w l) = events w.
Proof. induction l; simpl; done. Qed.
Lemma reads_calls l w : calls (foldr called w l) = l ++ calls w.
Proof. induction l; simpl; [done|]. by f_equal. Qed.

Lemma AlreadyMigrated_reads rp l w :
  AlreadyMigrated rp w → AlreadyMigrated rp (foldr called w l).
Proof.
  intros [Hf H1 H2 H3 H4 H5 H6 H7 H8 H9 H10 H11].
  split; unfold settledAt in *; rewrite ?reads_objects, ?reads_faults; done.
Qed.

Lemma tryMigration_settled rp w :
  AlreadyMigrated rp w →
  (tryMigration rp w).2 = foldr called w (migrationReads rp).
Proof.
  intros Ham. rewrite tryMigration_split. cbn zeta.
  pose proof (migratePrefix_settled rp w Ham) as Hpre.
  destruct (migratePrefix rp w) as [errs w1]. cbn [snd] in Hpre. subst w1. cbn [fst snd].
  pose proof (AlreadyMigrated_reads rp (prefixReads rp) w Ham) as Ham1.
  destruct (am_sts _ _ Ham1) as (sts & Hsts & Hm).
  rewrite (migrateStatefulSet_settled rp errs _ sts (am_faults _ _ Ham1 _) Hsts Hm).
  cbn [fst snd].
  rewrite migrateConsoleBlock_settled; [|by apply (AlreadyMigrated_reads rp [_])|done].
  unfold migrationReads. by rewrite foldr_app.
Qed.



(** ** The readiness latch against its table *)

(** The latch as the code has it, for the HelmRelease flag. *)
Lemma checkHelmRelease_table (rp : RedpandaT) (w : World) (ns name : string)
    (genFresh condReady : bool) :
  checkHelmRelease (tickObserved ns name (genFresh, condReady)) rp w
  = if genFresh && condReady
    then match HelmReleaseReady (Status rp) with
         | Some false =>
             let rp' := withStatus (setHelmReleaseReady (Some true) (Status rp)) rp in
             ((true, rp'),
              (event rp' (LastAttemptedRevision (Status rp')) EventSeverityInfo
                 (resourceReadyStr resourceTypeHelmRelease ns name) w).2)
         | _ => ((true, rp), w)
         end
    else ((false, withStatus (setHelmReleaseReady (Some false) (Status rp)) rp),
          match HelmReleaseReady (Status rp) with
          | Some true =>
              (event rp (LastAttemptedRevision (Status rp)) EventSeverityInfo
                 (resourceNotReadyStr resourceTypeHelmRelease ns name) w).2
          | _ => w
          end).
Proof.
  destruct rp as [m d s [og c l hr [[]|] hrp hrpr]], genFresh, condReady; reflexivity.
Qed.

Lemma runTicks_cons check observed rest rp w :
  runTicks check (observed :: rest) rp w
  = (let r := check observed rp w in
     let r' := runTicks check rest r.1.2 r.2 in
     ((emitted (check observed rp) w :: r'.1.1, r'.1.2), r'.2)).
Proof.
  cbn [runTicks]. unfold mbind, M_bind, getWorld. cbn zeta.
  destruct (check observed rp w) as [[b rp1] w1]. cbn [fst snd].
  by destruct (runTicks check rest rp1 w1) as [[more rp2] w2].
Qed.

Lemma checkHelmRelease_step (rp : RedpandaT) (w : World) (ns name : string) (tick : bool * bool) :
  let r := checkHelmRelease (tickObserved ns name tick) rp w in
  let step := latchStep resourceTypeHelmRelease ns name (HelmReleaseReady (Status rp)) tick in
  HelmReleaseReady (Status r.1.2) = step.1
  ∧ map EvMessage (emitted (checkHelmRelease (tickObserved ns name tick) rp) w) = step.2.
Proof.
  destruct tick as [genFresh condReady]. cbn zeta.
  assert (∃ new,
            events (checkHelmRelease (tickObserved ns name (genFresh, condReady)) rp w).2
            = new ++ events w
            ∧ map EvMessage new
              = (latchStep resourceTypeHelmRelease ns name (HelmReleaseReady (Status rp))
                   (genFresh, condReady)).2) as (new & Hnew & Hmsg).
  { rewrite checkHelmRelease_table.
    destruct rp as [m d s [og c l hr [[]|] hrp hrpr]], genFresh, condReady;
      first [by exists []|by eexists [_]]. }
  rewrite (emitted_new _ _ _ Hnew). split; [|done].
  rewrite checkHelmRelease_table.
  by destruct rp as [m d s [og c l hr [[]|] hrp hrpr]], genFresh, condReady.
Qed.

Lemma runTicks_release_latch (ns name : string) (ticks : list (bool * bool)) :
  ∀ rp w,
    let run := (runTicks checkHelmRelease (tickObserved ns name <$> ticks) rp w).1 in
    let trace := latchTrace resourceTypeHelmRelease ns name (HelmReleaseReady (Status rp)) ticks in
    (map EvMessage <$> run.1) = trace.1 ∧ HelmReleaseReady (Status run.2) = trace.2.
Proof.
  induction ticks as [|tick rest IH]; intros rp w; [done|].
  cbn [fmap list_fmap]. rewrite runTicks_cons. cbn zeta. cbn [fst snd latchTrace].
  destruct (checkHelmRelease_step rp w ns name tick) as [Hflag Hmsg].
  destruct (IH (checkHelmRelease (tickObserved ns name tick) rp w).1.2
               (checkHelmRelease (tickObserved ns name tick) rp w).2) as [IH1 IH2].
  cbn zeta in IH1, IH2. rewrite Hflag in IH1, IH2.
  split; [|done]. cbn [fmap list_fmap] in *. by rewrite Hmsg, IH1.
Qed.

(** The latch as the code has it, for the HelmRepository flag. *)
Lemma checkHelmRepository_table (rp : RedpandaT) (w : World) (ns name : string)
    (genFresh condReady : bool) :
  checkHelmRepository (tickObserved ns name (genFresh, condReady)) rp w
  = if genFresh && condReady
    then match HelmRepositoryReady (Status rp) with
         | Some false =>
             let rp' := withStatus (setHelmRepositoryReady (Some true) (Status rp)) rp in
             ((true, rp'),
              (event rp' (LastAttemptedRevision (Status rp')) EventSeverityInfo
                 (resourceReadyStr resourceTypeHelmRepository ns name) w).2)
         | _ => ((true, rp), w)
         end
    else ((false, withStatus (setHelmRepositoryReady (Some false) (Status rp)) rp),
          match HelmRepositoryReady (Status rp) with
          | Some true =>
              (event rp (LastAttemptedRevision (Status rp)) EventSeverityInfo
                 (resourceNotReadyStr resourceTypeHelmRepository ns name) w).2
          | _ => w
          end).
Proof.
  destruct rp as [m d s [og c l hr hrr hrp [[]|]]], genFresh, condReady; reflexivity.
Qed.

Lemma checkHelmRepository_step (rp : RedpandaT) (w : World) (ns name : string) (tick : bool * bool) :
  let r := checkHelmRepository (tickObserved ns name tick) rp w in
  let step := latchStep resourceTypeHelmRepository ns name (HelmRepositoryReady (Status rp)) tick in
  HelmRepositoryReady (Status r.1.2) = step.1
  ∧ map EvMessage (emitted (checkHelmRepository (tickObserved ns name tick) rp) w) = step.2.
Proof.
  destruct tick as [genFresh condReady]. cbn zeta.
  assert (∃ new,
            events (checkHelmRepository (tickObserved ns name (genFresh, condReady)) rp w).2
            = new ++ events w
            ∧ map EvMessage new
              = (latchStep resourceTypeHelmRepository ns name (HelmRepositoryReady (Status rp))
                   (genFresh, condReady)).2) as (new & Hnew & Hmsg).
  { rewrite checkHelmRepository_table.
    destruct rp as [m d s [og c l hr hrr hrp [[]|]]], genFresh, condReady;
      first [by exists []|by eexists [_]]. }
  rewrite (emitted_new _ _ _ Hnew). split; [|done].
  rewrite checkHelmRepository_table.
  by destruct rp as [m d s [og c l hr hrr hrp [[]|]]], genFresh, condReady.
Qed.

Lemma runTicks_repository_latch (ns name : string) (ticks : list (bool * bool)) :
  ∀ rp w,
    let run := (runTicks checkHelmRepository (tickObserved ns name <$> ticks) rp w).1 in
    let trace := latchTrace resourceTypeHelmRepository ns name (HelmRepositoryReady (Status rp)) ticks in
    (map EvMessage <$> run.1) = trace.1 ∧ HelmRepositoryReady (Status run.2) = trace.2.
Proof.
  induction ticks as [|tick rest IH]; intros rp w; [done|].
  cbn [fmap list_fmap]. rewrite runTicks_cons. cbn zeta. cbn [fst snd latchTrace].
  destruct (checkHelmRepository_step rp w ns name tick) as [Hflag Hmsg].
  destruct (IH (checkHelmRepository (tickObserved ns name tick) rp w).1.2
               (checkHelmRepository (tickObserved ns name tick) rp w).2) as [IH1 IH2].
  cbn zeta in IH1, IH2. rewrite Hflag in IH1, IH2.
  split; [|done]. cbn [fmap list_fmap] in *. by rewrite Hmsg, IH1.
Qed.

Lemma length_concat_messages (fired : list (list Event)) :
  length (concat (map EvMessage <$> fired)) = length (concat fired).
Proof.
  induction fired as [|x l IH]; [done|].
  cbn [fmap list_fmap concat]. rewrite !length_app, length_map. by f_equal.
Qed.

(** Claim C1 (what the code does on the tick sequence of the claim).
    Starting from a flag that was never set and feeding the ticks
    (generation fresh, condition ready) = [F,F,T,T,F] to the latch, for the
    HelmRelease flag and for the HelmRepository flag alike: no event at
    ticks 1 and 2, one "ready" event at tick 3, none at tick 4, one "not
    ready" event at tick 5; two events in all, and the flag ends at false.
    The "not ready" event the claim expects at tick 1 is not recorded:
    [ptr.Equal] of a nil flag and a pointer to true is false. *)
Theorem readiness_latch_five_ticks (rp : RedpandaT) (w : World) (ns name : string) :
  let ticks := [(false, false); (false, false); (true, true); (true, true); (false, false)] in
  let release :=
    (runTicks checkHelmRelease (tickObserved ns name <$> ticks)
       (withStatus (setHelmReleaseReady None (Status rp)) rp) w).1 in
  let repository :=
    (runTicks checkHelmRepository (tickObserved ns name <$> ticks)
       (withStatus (setHelmRepositoryReady None (Status rp)) rp) w).1 in
  ((map EvMessage <$> release.1)
   = [ []; [];
       [resourceReadyStr resourceTypeHelmRelease ns name]; [];
       [resourceNotReadyStr resourceTypeHelmRelease ns name] ]
   ∧ length (concat release.1) = 2%nat
   ∧ HelmReleaseReady (Status release.2) = Some false)
  ∧ ((map EvMessage <$> repository.1)
     = [ []; [];
         [resourceReadyStr resourceTypeHelmRepository ns name]; [];
         [resourceNotReadyStr resourceTypeHelmRepository ns name] ]
     ∧ length (concat repository.1) = 2%nat
     ∧ HelmRepositoryReady (Status repository.2) = Some false).
Proof.
  intros ticks release repository. split.
  - destruct (runTicks_release_latch ns name ticks
                (withStatus (setHelmReleaseReady None (Status rp)) rp) w) as [Htrace Hflag].
    fold release in Htrace, Hflag. split_and!; [done| |done].
    rewrite <- length_concat_messages. by rewrite Htrace.
  - destruct (runTicks_repository_latch ns name ticks
                (withStatus (setHelmRepositoryReady None (Status rp)) rp) w) as [Htrace Hflag].
    fold repository in Htrace, Hflag. split_and!; [done| |done].
    rewrite <- length_concat_messages. by rewrite Htrace.
Qed.

(** ** Exact runs of the calls on releases and on the parent *)

Lemma GetRelease_run key w :
  GetRelease key w
  = (match faults w (mkCall VGet HelmRelease key) with
     | Some msg => Err (ErrTransient msg)
     | None => match releases w !! key with
               | Some hr => Ok hr
               | None => Err (ErrNotFound HelmRelease key)
               end
     end, called (mkCall VGet HelmRelease key) w).
Proof.
  unfold GetRelease. rewrite !run_bind. simpl.
  destruct (faults w _); [done|]. by destruct (releases w !! key).
Qed.

Lemma DeleteRelease_run hr policy w :
  DeleteRelease hr policy w
  = let c := mkCall (VDelete policy) HelmRelease (keyOf (HrMeta hr)) in
    match faults w c with
    | Some msg => (Some (ErrTransient msg), called c w)
    | None => match releases w !! keyOf (HrMeta hr) with
              | Some _ => (None, (setReleases (afterDelete policy hr (releases w))
                                    (called c w)).2)
              | None => (Some (ErrNotFound HelmRelease (keyOf (HrMeta hr))), called c w)
              end
    end.
Proof.
  unfold DeleteRelease. rewrite !run_bind. simpl.
  destruct (faults w _); [done|]. by destruct (releases w !! _).
Qed.

Lemma UpdateParent_run rp w :
  UpdateParent rp w
  = let c := mkCall VUpdate Redpanda (keyOf (RpMeta rp)) in
    match faults w c with
    | Some msg => (Some (ErrTransient msg), called c w)
    | None => match parents w !! keyOf (RpMeta rp) with
              | Some _ => (None, (setParents (<[keyOf (RpMeta rp) := rp]> (parents w))
                                    (called c w)).2)
              | None => (Some (ErrNotFound Redpanda (keyOf (RpMeta rp))), called c w)
              end
    end.
Proof.
  unfold UpdateParent. rewrite !run_bind. simpl.
  destruct (faults w _); [done|]. by destruct (parents w !! _).
Qed.

(** What [deleteHelmRelease] does, path by path. *)
Lemma deleteHelmRelease_run rp w :
  deleteHelmRelease rp w
  = if bool_decide (StatusHelmRelease (Status rp) = "") then ((rp, None), w)
    else
      let g := mkCall VGet HelmRelease (releaseKeyOf rp) in
      match faults w g with
      | Some msg =>
          ((rp, Some (Errorf ("failed to get HelmRelease '" +:+ StatusHelmRelease (Status rp) +:+ "'")
                        (ErrTransient msg))), called g w)
      | None =>
          match releases w !! releaseKeyOf rp with
          | None => ((clearedNames rp, None), called g w)
          | Some hr =>
              let r := DeleteRelease hr (Some Foreground) (called g w) in
              ((rp, match r.1 with
                    | Some err =>
                        Some (Errorf ("deleting helm release connected with Redpanda ("
                                      +:+ Name (RpMeta rp) +:+ ")") err)
                    | None => Some waitForDeletion
                    end), r.2)
          end
      end.
Proof.
  unfold deleteHelmRelease. case_bool_decide; [done|].
  rewrite run_bind, GetRelease_run. cbn [fst snd]. unfold releaseKeyOf, GetHelmRelease.
  destruct (faults w _); [done|].
  destruct (releases w !! _) as [hr|]; [|done].
  rewrite run_bind. by destruct (DeleteRelease hr (Some Foreground) _) as [[err|] w1].
Qed.

(** Claim C7, amended.  With no release name recorded, [deleteHelmRelease]
    succeeds at once, issues no client call and hands the parent back as it
    was (the recorded repository name stays).  With a name recorded and the
    HelmRelease not found, it succeeds after the one read, with both
    recorded names cleared. *)
Theorem deleteHelmRelease_nothing_recorded_or_gone (rp : RedpandaT) (w : World) :
  (StatusHelmRelease (Status rp) = "" →
     deleteHelmRelease rp w = ((rp, None), w))
  ∧ (StatusHelmRelease (Status rp) ≠ "" →
     faults w (mkCall VGet HelmRelease (releaseKeyOf rp)) = None →
     releases w !! releaseKeyOf rp = None →
     deleteHelmRelease rp w
     = ((clearedNames rp, None), called (mkCall VGet HelmRelease (releaseKeyOf rp)) w)
     ∧ StatusHelmRelease (Status (clearedNames rp)) = ""
     ∧ StatusHelmRepository (Status (clearedNames rp)) = "").
Proof.
  split.
  - intros Hempty. rewrite deleteHelmRelease_run. by rewrite bool_decide_true.
  - intros Hne Hf Habsent. rewrite deleteHelmRelease_run.
    rewrite bool_decide_false by done. cbn zeta. by rewrite Hf, Habsent.
Qed.

(** ** The deletion protocol, invocation by invocation *)

Lemma reconcileDelete_run rp w :
  reconcileDelete rp w
  = let d := deleteHelmRelease rp w in
    match d.1.2 with
    | Some err => ((d.1.1, Some err), d.2)
    | None =>
        if ContainsFinalizer (RpMeta d.1.1) FinalizerKey
        then
          let rp' := withRpMeta (RemoveFinalizer (RpMeta d.1.1) FinalizerKey) d.1.1 in
          let u := UpdateParent rp' d.2 in
          ((rp', u.1), u.2)
        else ((d.1.1, None), d.2)
    end.
Proof.
  unfold reconcileDelete. rewrite run_bind. cbn zeta.
  destruct (deleteHelmRelease rp w) as [[rp1 [err|]] w1]; cbn [fst snd]; [done|].
  destruct (ContainsFinalizer _ _); [|done].
  rewrite run_bind. by destruct (UpdateParent _ w1) as [[err|] w2].
Qed.

Lemma RemoveFinalizer_gone m f : f ∉ Finalizers (RemoveFinalizer m f).
Proof.
  unfold RemoveFinalizer. simpl. intros Hin. apply list_elem_of_filter in Hin. by destruct Hin.
Qed.

(** Claim C2, amended.  (1) While a HelmRelease with the recorded name is
    in the store, a [reconcileDelete] returns an error, hands the parent
    back unchanged (finalizer included), does not update the parent and
    issues at most one delete.  (2) If the read and the delete are let
    through, the error is the distinguished "wait for helm release
    deletion", the calls issued are the read and exactly one foreground
    delete, and the release stays visible, marked as terminating.  (3) A
    later [reconcileDelete] that finds the release absent issues no delete,
    removes the finalizer and persists the parent.  (4) A [reconcileDelete]
    that removes the finalizer found no release with the recorded name (or
    had none recorded). *)
Theorem deletion_waits_for_release (rp : RedpandaT) (w : World) :
  (∀ hr,
     StatusHelmRelease (Status rp) ≠ "" →
     releases w !! releaseKeyOf rp = Some hr →
     let r := reconcileDelete rp w in
     r.1.1 = rp
     ∧ is_Some r.1.2
     ∧ parents r.2 = parents w
     ∧ (mkCall VUpdate Redpanda (keyOf (RpMeta rp)) ∉ issued (reconcileDelete rp) w)
     ∧ (length (filter (λ c, isDelete c = true) (issued (reconcileDelete rp) w)) ≤ 1)%nat)
  ∧ (∀ hr,
       StatusHelmRelease (Status rp) ≠ "" →
       releases w !! releaseKeyOf rp = Some hr →
       keyOf (HrMeta hr) = releaseKeyOf rp →
       faults w (mkCall VGet HelmRelease (releaseKeyOf rp)) = None →
       faults w (mkCall (VDelete (Some Foreground)) HelmRelease (releaseKeyOf rp)) = None →
       let r := reconcileDelete rp w in
       r.1 = (rp, Some waitForDeletion)
       ∧ issued (reconcileDelete rp) w
         = [mkCall (VDelete (Some Foreground)) HelmRelease (releaseKeyOf rp);
            mkCall VGet HelmRelease (releaseKeyOf rp)]
       ∧ releases r.2 !! releaseKeyOf rp = Some (markTerminating hr))
  ∧ (∀ w2 stored,
       StatusHelmRelease (Status rp) ≠ "" →
       releases w2 !! releaseKeyOf rp = None →
       FinalizerKey ∈ Finalizers (RpMeta rp) →
       parents w2 !! keyOf (RpMeta rp) = Some stored →
       faults w2 (mkCall VGet HelmRelease (releaseKeyOf rp)) = None →
       faults w2 (mkCall VUpdate Redpanda (keyOf (RpMeta rp))) = None →
       let r := reconcileDelete rp w2 in
       r.1.2 = None
       ∧ (FinalizerKey ∉ Finalizers (RpMeta r.1.1))
       ∧ parents r.2 !! keyOf (RpMeta rp) = Some r.1.1
       ∧ issued (reconcileDelete rp) w2
         = [mkCall VUpdate Redpanda (keyOf (RpMeta rp));
            mkCall VGet HelmRelease (releaseKeyOf rp)])
  ∧ (FinalizerKey ∈ Finalizers (RpMeta rp) →
     FinalizerKey ∉ Finalizers (RpMeta (reconcileDelete rp w).1.1) →
     StatusHelmRelease (Status rp) = "" ∨ releases w !! releaseKeyOf rp = None).
Proof.
  split_and!.
  - intros hr Hne Hhr r. subst r.
    assert (∃ new,
              (reconcileDelete rp w).1.1 = rp
              ∧ is_Some (reconcileDelete rp w).1.2
              ∧ parents (reconcileDelete rp w).2 = parents w
              ∧ calls (reconcileDelete rp w).2 = new ++ calls w
              ∧ (new = [mkCall VGet HelmRelease (releaseKeyOf rp)]
                 ∨ new = [mkCall (VDelete (Some Foreground)) HelmRelease (keyOf (HrMeta hr));
                          mkCall VGet HelmRelease (releaseKeyOf rp)]))
      as (new & H1 & H2 & H3 & H4 & H5).
    { rewrite reconcileDelete_run, deleteHelmRelease_run.
      rewrite bool_decide_false by done. cbn zeta.
      destruct (faults w (mkCall VGet HelmRelease _)).
      { eexists [_]. split_and!; [done|by eexists|done|done|by left]. }
      rewrite Hhr, DeleteRelease_run. cbn zeta.
      destruct (faults (called _ w) (mkCall (VDelete _) _ _)).
      { eexists [_; _]. split_and!; [done|by eexists|done|done|by right]. }
      simpl. destruct (releases w !! keyOf (HrMeta hr));
        eexists [_; _]; (split_and!; [done|by eexists|done|done|by right]). }
    rewrite (issued_new _ _ _ H4). split_and!; [done|done|done| |].
    + destruct H5 as [-> | ->]; intros Hin;
        repeat (apply elem_of_cons in Hin as [Hin|Hin]; [discriminate Hin|]);
        by apply elem_of_nil in Hin.
    + destruct H5 as [-> | ->]; simpl; lia.
  - intros hr Hne Hhr Hkey HfG HfD r. subst r.
    assert (reconcileDelete rp w
            = ((rp, Some waitForDeletion),
               (setReleases (<[releaseKeyOf rp := markTerminating hr]> (releases w))
                  (called (mkCall (VDelete (Some Foreground)) HelmRelease (releaseKeyOf rp))
                     (called (mkCall VGet HelmRelease (releaseKeyOf rp)) w))).2)) as Hrun.
    { rewrite reconcileDelete_run, deleteHelmRelease_run.
      rewrite bool_decide_false by done. cbn zeta. rewrite HfG, Hhr, DeleteRelease_run.
      cbn zeta. unfold afterDelete. rewrite Hkey. simpl. by rewrite HfD, Hhr. }
    rewrite Hrun. split_and!; [done| |simpl; apply lookup_insert_eq].
    by apply (issued_new _ _ [_; _]); rewrite Hrun.
  - intros w2 stored Hne Habsent Hfin Hstored HfG HfU r. subst r.
    set (rp' := withRpMeta (RemoveFinalizer (RpMeta (clearedNames rp)) FinalizerKey)
                  (clearedNames rp)).
    assert (reconcileDelete rp w2
            = ((rp', None),
               (setParents (<[keyOf (RpMeta rp) := rp']> (parents w2))
                  (called (mkCall VUpdate Redpanda (keyOf (RpMeta rp)))
                     (called (mkCall VGet HelmRelease (releaseKeyOf rp)) w2))).2)) as Hrun.
    { rewrite reconcileDelete_run, deleteHelmRelease_run.
      rewrite bool_decide_false by done. cbn zeta. rewrite HfG, Habsent. cbn [fst snd].
      unfold ContainsFinalizer. rewrite bool_decide_true by done.
      rewrite UpdateParent_run. cbn zeta. cbn [faults called parents].
      change (keyOf (RpMeta (withRpMeta _ _))) with (keyOf (RpMeta rp)).
      by rewrite HfU, Hstored. }
    rewrite Hrun. split_and!; [done|apply RemoveFinalizer_gone|simpl; apply lookup_insert_eq|].
    by apply (issued_new _ _ [_; _]); rewrite Hrun.
  - intros Hfin Hgone.
    destruct (decide (StatusHelmRelease (Status rp) = "")) as [?|Hne]; [by left|right].
    destruct (releases w !! releaseKeyOf rp) as [hr|] eqn:Hhr; [|done].
    exfalso. apply Hgone. revert Hfin.
    rewrite reconcileDelete_run, deleteHelmRelease_run.
    rewrite bool_decide_false by done. cbn zeta.
    destruct (faults w (mkCall VGet HelmRelease _)); [done|].
    rewrite Hhr. cbn [fst snd].
    by destruct (DeleteRelease hr (Some Foreground) _).1.
Qed.

(** ** The HelmRelease: template, update decision, fingerprint *)

Lemma UpdateRelease_run hr w :
  UpdateRelease hr w
  = let c := mkCall VUpdate HelmRelease (keyOf (HrMeta hr)) in
    match faults w c with
    | Some msg => (Some (ErrTransient msg), called c w)
    | None => match releases w !! keyOf (HrMeta hr) with
              | Some _ => (None, (setReleases (<[keyOf (HrMeta hr) := hr]> (releases w))
                                    (called c w)).2)
              | None => (Some (ErrNotFound HelmRelease (keyOf (HrMeta hr))), called c w)
              end
    end.
Proof.
  unfold UpdateRelease. rewrite !run_bind. simpl.
  destruct (faults w _); [done|]. by destruct (releases w !! _).
Qed.

Lemma sameButLogs_refl w : sameButLogs w w.
Proof. by repeat split. Qed.

Lemma related_ret {A} (a : A) : related (mret a) (mret a).
Proof. by intros w1 w2 H. Qed.

Lemma related_bind {A B} (m1 m2 : M A) (f1 f2 : A → M B) :
  related m1 m2 → (∀ a, related (f1 a) (f2 a)) → related (m1 ≫= f1) (m2 ≫= f2).
Proof.
  intros Hm Hf w1 w2 Hw. rewrite !run_bind.
  destruct (Hm w1 w2 Hw) as [Ha Hw']. rewrite Ha. by apply Hf.
Qed.

Lemma related_logInfo l1 l2 : related (logInfo l1) (logInfo l2).
Proof. intros w1 w2 (?&?&?&?&?&?). by repeat split. Qed.

Lemma related_AnnotatedEventf k m rev ty reason msg :
  related (AnnotatedEventf k m rev ty reason msg) (AnnotatedEventf k m rev ty reason msg).
Proof.
  intros w1 w2 (?&?&?&?&He&?). split; [done|].
  unfold sameButLogs; simpl. repeat split; congruence.
Qed.

Lemma related_event rp revision severity msg :
  related (event rp revision severity msg) (event rp revision severity msg).
Proof. apply related_AnnotatedEventf. Qed.

Lemma related_GetRelease key : related (GetRelease key) (GetRelease key).
Proof.
  intros w1 w2 (?&Hr&?&Hc&?&Hf). rewrite !GetRelease_run. cbn [fst snd].
  rewrite Hr, Hf. split; [done|].
  unfold sameButLogs; simpl. repeat split; congruence.
Qed.

Lemma related_CreateRelease hr : related (CreateRelease hr) (CreateRelease hr).
Proof.
  intros w1 w2 (?&Hr&?&Hc&?&Hf). unfold CreateRelease. rewrite !run_bind.
  cbn [recordCall getWorld fst snd faults releases called]. rewrite Hr, Hf.
  destruct (faults w2 _).
  { split; [done|]. unfold sameButLogs; simpl. repeat split; congruence. }
  destruct (releases w2 !! _).
  { split; [done|]. unfold sameButLogs; simpl. repeat split; congruence. }
  rewrite !run_bind. split; [done|]. unfold sameButLogs; simpl. repeat split; congruence.
Qed.

Lemma related_UpdateRelease hr : related (UpdateRelease hr) (UpdateRelease hr).
Proof.
  intros w1 w2 (?&Hr&?&Hc&?&Hf). unfold UpdateRelease. rewrite !run_bind.
  cbn [recordCall getWorld fst snd faults releases called]. rewrite Hr, Hf.
  destruct (faults w2 _).
  { split; [done|]. unfold sameButLogs; simpl. repeat split; congruence. }
  destruct (releases w2 !! _).
  2:{ split; [done|]. unfold sameButLogs; simpl. repeat split; congruence. }
  rewrite !run_bind. split; [done|]. unfold sameButLogs; simpl. repeat split; congruence.
Qed.

Section ReleaseProperties.
Context {JSONValues : Type} `{!EqDecision JSONValues}.
Variable ValuesJSON : RedpandaT → result string.
Variable decodeValues : option string → JSONValues.
Variable sha256Sum : string → string.
Variable base64URLEncode : string → string.

Local Abbreviation template := (createHelmReleaseFromTemplate ValuesJSON sha256Sum base64URLEncode).
Local Abbreviation requiresUpdate := (helmReleaseRequiresUpdate decodeValues).
Local Abbreviation reconcileRelease :=
  (reconcileHelmRelease ValuesJSON decodeValues sha256Sum base64URLEncode).

Lemma template_run rp w values :
  ValuesJSON rp = Ok values →
  ∃ tpl, template rp w
         = (Ok tpl, (logInfo ("SHA of values file to use: "
                              +:+ base64URLEncode (sha256Sum values)) w).2)
         ∧ HrMeta tpl = mkMeta (GetHelmReleaseName rp) (Namespace (RpMeta rp)) ∅ ∅ [] 0
         ∧ HrValues (HrSpec tpl) = Some values
         ∧ Chart (HrChart (HrSpec tpl)) = "redpanda"
         ∧ Version (HrChart (HrSpec tpl)) = ChartVersion (SpecChartRef (Spec rp))
         ∧ ChartInterval (HrChart (HrSpec tpl)) = Some (1 * Minute)
         ∧ HrInterval (HrSpec tpl) = 30 * Second
         ∧ HrTimeout (HrSpec tpl)
           = Some (default (15 * Minute) (ChartTimeout (SpecChartRef (Spec rp))))
         ∧ ∃ upgrade, HrUpgrade (HrSpec tpl) = Some upgrade
             ∧ let given := ChartUpgrade (SpecChartRef (Spec rp)) in
               UpgForce upgrade = default false (given ≫= HuForce)
               ∧ UpgCleanupOnFail upgrade = default false (given ≫= HuCleanupOnFail)
               ∧ UpgPreserveValues upgrade = default false (given ≫= HuPreserveValues)
               ∧ UpgRemediation upgrade
                 = Some (default (mkRemediation 1 None None (Some "rollback"))
                           (given ≫= HuRemediation)).
Proof.
  intros Hv. unfold createHelmReleaseFromTemplate. rewrite Hv.
  unfold mbind, M_bind. cbn [logInfo mret M_ret].
  eexists. split; [reflexivity|]. cbn.
  split_and!; try done.
  - by destruct (ChartTimeout _).
  - eexists. split; [reflexivity|].
    destruct (ChartUpgrade _) as [[r f p c]|]; [|done].
    destruct r, f, p, c; done.
Qed.

Lemma template_result rp w w' : (template rp w).1 = (template rp w').1.
Proof. unfold createHelmReleaseFromTemplate. by destruct (ValuesJSON rp). Qed.

(** Claim C8.  When the values serialize, the template carries the fixed
    interval of 30 seconds, the timeout of the parent spec or else 15
    minutes, and an upgrade policy that is the default ({remediation:
    rollback, retries 1}, the three flags false) when the parent gives none,
    and otherwise takes each of force, cleanupOnFail, preserveValues and
    remediation from the parent where it is set and from the default where
    it is nil. *)
Theorem template_defaults_and_overrides (rp : RedpandaT) (w : World) (values : string) :
  ValuesJSON rp = Ok values →
  ∃ tpl upgrade,
    (template rp w).1 = Ok tpl
    ∧ HrInterval (HrSpec tpl) = 30 * Second
    ∧ HrTimeout (HrSpec tpl)
      = Some (default (15 * Minute) (ChartTimeout (SpecChartRef (Spec rp))))
    ∧ HrUpgrade (HrSpec tpl) = Some upgrade
    ∧ (ChartUpgrade (SpecChartRef (Spec rp)) = None →
         upgrade = mkUpgrade false false false (Some (mkRemediation 1 None None (Some "rollback"))))
    ∧ (∀ given, ChartUpgrade (SpecChartRef (Spec rp)) = Some given →
         UpgForce upgrade = default false (HuForce given)
         ∧ UpgCleanupOnFail upgrade = default false (HuCleanupOnFail given)
         ∧ UpgPreserveValues upgrade = default false (HuPreserveValues given)
         ∧ UpgRemediation upgrade
           = Some (default (mkRemediation 1 None None (Some "rollback")) (HuRemediation given))).
Proof.
  intros Hv.
  destruct (template_run rp w values Hv)
    as (tpl & Hrun & _ & _ & _ & _ & _ & Hint & Hto & upgrade & Hup & Hf & Hc & Hp & Hr).
  exists tpl, upgrade. rewrite Hrun. split_and!; try done.
  - intros Hnone. rewrite Hnone in *. destruct upgrade; simpl in *. by subst.
  - intros given Hgiven. rewrite Hgiven in *. done.
Qed.

Lemma helmChartRequiresUpdate_spec (live desired : HelmChartTemplateSpec) :
  helmChartRequiresUpdate live desired = true
  ↔ Chart live ≠ Chart desired ∨ (Version live ≠ "" ∧ Version live ≠ Version desired).
Proof.
  unfold helmChartRequiresUpdate. repeat case_bool_decide; simpl; intuition congruence.
Qed.

Lemma helmReleaseRequiresUpdate_spec (hr tpl : HelmReleaseT) :
  requiresUpdate hr tpl = true
  ↔ GetValues decodeValues hr ≠ GetValues decodeValues tpl
    ∨ Chart (HrChart (HrSpec hr)) ≠ Chart (HrChart (HrSpec tpl))
    ∨ (Version (HrChart (HrSpec hr)) ≠ ""
       ∧ Version (HrChart (HrSpec hr)) ≠ Version (HrChart (HrSpec tpl)))
    ∨ HrInterval (HrSpec hr) ≠ HrInterval (HrSpec tpl).
Proof.
  unfold helmReleaseRequiresUpdate.
  destruct (helmChartRequiresUpdate _ _) eqn:Hchart.
  - apply helmChartRequiresUpdate_spec in Hchart.
    repeat case_bool_decide; simpl; intuition congruence.
  - assert (¬ (Chart (HrChart (HrSpec hr)) ≠ Chart (HrChart (HrSpec tpl))
               ∨ (Version (HrChart (HrSpec hr)) ≠ ""
                  ∧ Version (HrChart (HrSpec hr)) ≠ Version (HrChart (HrSpec tpl))))) as Hno.
    { rewrite <- helmChartRequiresUpdate_spec. by rewrite Hchart. }
    repeat case_bool_decide; simpl; intuition congruence.
Qed.
(** The fingerprint only reaches the log. *)
Lemma template_related (sha' b64' : string → string) rp :
  related (template rp) (createHelmReleaseFromTemplate ValuesJSON sha' b64' rp).
Proof.
  unfold createHelmReleaseFromTemplate. destruct (ValuesJSON rp); [|apply related_ret].
  apply related_bind; [apply related_logInfo|intros _; apply related_ret].
Qed.

Lemma createHelmRelease_related (sha' b64' : string → string) rp :
  related (createHelmRelease ValuesJSON sha256Sum base64URLEncode rp)
          (createHelmRelease ValuesJSON sha' b64' rp).
Proof.
  unfold createHelmRelease.
  apply related_bind; [apply template_related|intros [tpl|err]].
  - apply related_bind; [apply related_CreateRelease|intros [err|]].
    + destruct (negb _).
      * apply related_bind; [apply related_event|intros _; apply related_ret].
      * apply related_bind; [apply related_event|intros _; apply related_ret].
    + apply related_bind; [apply related_event|intros _; apply related_ret].
  - apply related_bind; [apply related_event|intros _; apply related_ret].
Qed.

Lemma reconcileHelmRelease_related (sha' b64' : string → string) rp :
  related (reconcileRelease rp) (reconcileHelmRelease ValuesJSON decodeValues sha' b64' rp).
Proof.
  unfold reconcileHelmRelease. case_bool_decide; [apply createHelmRelease_related|].
  apply related_bind; [apply related_GetRelease|intros [hr|err]].
  - apply related_bind; [apply template_related|intros [tpl|err]].
    + destruct (helmReleaseRequiresUpdate _ _ _); [|apply related_ret].
      apply related_bind; [apply related_UpdateRelease|intros [err|]];
        (apply related_bind; [apply related_event|intros _; apply related_ret]).
    + apply related_bind; [apply related_event|intros _; apply related_ret].
  - destruct (IsNotFound err); [apply createHelmRelease_related|apply related_ret].
Qed.

(** Claim C6, amended.  (a) The fingerprint functions do not influence
    [reconcileHelmRelease]: with any other two, the results and the store,
    calls and events are the same.  (b) For a recorded release that is
    found, with values that serialize and an API server that lets the read
    and the update through: the release is overwritten with the template's
    spec, one "updated" event is recorded and the name is recorded again
    exactly when the parsed values differ, or the chart names differ, or the
    live chart version is not empty and differs from the template's, or the
    intervals differ; otherwise nothing is written and no event recorded. *)
Theorem release_update_is_structural (rp : RedpandaT) (w : World) :
  (∀ sha' b64' : string → string,
     let r := reconcileRelease rp w in
     let r' := reconcileHelmRelease ValuesJSON decodeValues sha' b64' rp w in
     r'.1 = r.1 ∧ objects r'.2 = objects r.2 ∧ releases r'.2 = releases r.2
     ∧ parents r'.2 = parents r.2 ∧ calls r'.2 = calls r.2 ∧ events r'.2 = events r.2)
  ∧ (∀ hr values,
       StatusHelmRelease (Status rp) ≠ "" →
       releases w !! releaseKeyOf rp = Some hr →
       keyOf (HrMeta hr) = releaseKeyOf rp →
       faults w (mkCall VGet HelmRelease (releaseKeyOf rp)) = None →
       faults w (mkCall VUpdate HelmRelease (releaseKeyOf rp)) = None →
       ValuesJSON rp = Ok values →
       ∃ tpl,
         (template rp w).1 = Ok tpl
         ∧ let r := reconcileRelease rp w in
           let differs :=
             GetValues decodeValues hr ≠ GetValues decodeValues tpl
             ∨ Chart (HrChart (HrSpec hr)) ≠ Chart (HrChart (HrSpec tpl))
             ∨ (Version (HrChart (HrSpec hr)) ≠ ""
                ∧ Version (HrChart (HrSpec hr)) ≠ Version (HrChart (HrSpec tpl)))
             ∨ HrInterval (HrSpec hr) ≠ HrInterval (HrSpec tpl) in
           (differs →
              r.1 = (withStatus (setHelmRelease (GetHelmReleaseName rp) (Status rp)) rp,
                     Some (withHrSpec (HrSpec tpl) hr), None)
              ∧ releases r.2 = <[releaseKeyOf rp := withHrSpec (HrSpec tpl) hr]> (releases w)
              ∧ issued (reconcileRelease rp) w
                = [mkCall VUpdate HelmRelease (releaseKeyOf rp);
                   mkCall VGet HelmRelease (releaseKeyOf rp)]
              ∧ (EvMessage <$> emitted (reconcileRelease rp) w)
                = ["HelmRelease '" +:+ Namespace (RpMeta rp) +:+ "/"
                   +:+ GetHelmReleaseName rp +:+ "' updated"])
           ∧ (¬ differs →
                r.1 = (rp, Some hr, None)
                ∧ releases r.2 = releases w
                ∧ issued (reconcileRelease rp) w = [mkCall VGet HelmRelease (releaseKeyOf rp)]
                ∧ emitted (reconcileRelease rp) w = [])).
Proof.
  split.
  - intros sha' b64' r r'. subst r r'.
    destruct (reconcileHelmRelease_related sha' b64' rp w w (sameButLogs_refl w))
      as (Hres & Ho & Hr & Hp & Hc & He & _). by repeat split.
  - intros hr values Hne Hhr Hkey HfG HfU Hv.
    destruct (template_run rp
                (called (mkCall VGet HelmRelease (releaseKeyOf rp)) w) values Hv)
      as (tpl & Hrun & _).
    destruct (template_run rp w values Hv)
      as (tpl' & Hrun' & _).
    assert (tpl' = tpl) as ->.
    { pose proof (template_result rp w (called (mkCall VGet HelmRelease (releaseKeyOf rp)) w))
        as Hsame.
      rewrite Hrun, Hrun' in Hsame. by injection Hsame. }
    exists tpl. split; [by rewrite Hrun'|]. cbn zeta.
    rewrite <- helmReleaseRequiresUpdate_spec.
    assert (reconcileRelease rp w
            = if requiresUpdate hr tpl
              then
                let hr' := withHrSpec (HrSpec tpl) hr in
                let w1 := (logInfo ("SHA of values file to use: "
                                    +:+ base64URLEncode (sha256Sum values))
                             (called (mkCall VGet HelmRelease (releaseKeyOf rp)) w)).2 in
                let w2 := (setReleases (<[releaseKeyOf rp := hr']> (releases w))
                             (called (mkCall VUpdate HelmRelease (releaseKeyOf rp)) w1)).2 in
                ((withStatus (setHelmRelease (GetHelmReleaseName rp) (Status rp)) rp,
                  Some hr', None),
                 (event rp (LastAttemptedRevision (Status rp)) EventSeverityInfo
                    ("HelmRelease '" +:+ Namespace (RpMeta rp) +:+ "/"
                     +:+ GetHelmReleaseName rp +:+ "' updated") w2).2)
              else
                ((rp, Some hr, None),
                 (logInfo ("SHA of values file to use: "
                           +:+ base64URLEncode (sha256Sum values))
                    (called (mkCall VGet HelmRelease (releaseKeyOf rp)) w)).2)) as Hrec.
    { unfold reconcileHelmRelease. rewrite bool_decide_false by done.
      rewrite run_bind, GetRelease_run. fold (releaseKeyOf rp).
      unfold GetHelmRelease. fold (releaseKeyOf rp). rewrite HfG, Hhr. cbn [fst snd].
      rewrite run_bind, Hrun. cbn [fst snd].
      destruct (requiresUpdate hr tpl); [|done].
      rewrite run_bind, UpdateRelease_run. cbn zeta.
      change (keyOf (HrMeta (withHrSpec _ hr))) with (keyOf (HrMeta hr)).
      rewrite Hkey. cbn [faults releases logInfo called snd]. rewrite HfU, Hhr.
      cbn [fst snd]. by rewrite run_bind. }
    split.
    + intros Hstale. rewrite Hrec, Hstale. cbn zeta. split_and!; [done|done| |].
      * by apply (issued_new _ _ [_; _]); rewrite Hrec, Hstale.
      * erewrite emitted_new; [|by rewrite Hrec, Hstale; instantiate (1 := [_])].
        done.
    + intros Hfresh. apply not_true_is_false in Hfresh.
      rewrite Hrec, Hfresh. split_and!; [done|done| |].
      * by apply (issued_new _ _ [_]); rewrite Hrec, Hfresh.
      * by apply (emitted_new _ _ []); rewrite Hrec, Hfresh.
Qed.
End ReleaseProperties.

(** ** The claims settled on concrete runs, witnesses and counterexamples *)

(** Claim C10.  [setHelmLabelsAndAnnotations] leaves on the object exactly
    the label managed-by = Helm and exactly the two release annotations,
    whatever it carried before, leaves name, namespace, finalizers and
    selector alone, and [hasLabelsAndAnnotations] then holds of it. *)
Theorem setHelmLabelsAndAnnotations_round_trip (object : Object) (rp : RedpandaT) :
  let marked := setHelmLabelsAndAnnotations object rp in
  GetLabels marked = {["app.kubernetes.io/managed-by" := "Helm"]}
  ∧ GetAnnotations marked
    = <["meta.helm.sh/release-namespace" := Namespace (RpMeta rp)]>
        {["meta.helm.sh/release-name" := Name (RpMeta rp)]}
  ∧ Name (ObjMeta marked) = Name (ObjMeta object)
  ∧ Namespace (ObjMeta marked) = Namespace (ObjMeta object)
  ∧ Finalizers (ObjMeta marked) = Finalizers (ObjMeta object)
  ∧ Selector marked = Selector object
  ∧ hasLabelsAndAnnotations marked rp = true.
Proof.
  cbn zeta. split_and!; try reflexivity. apply hasLabelsAndAnnotations_set.
Qed.

(** Claim C3 (what the code does).  With the console enabled: a console
    Deployment without the markers is read and left in place, without an
    event, when the StatefulSet carries the markers; a console Deployment
    that carries the markers is deleted (no propagation option) when the
    StatefulSet does not.  The guard reads the StatefulSet, not the
    Deployment. *)
Theorem console_deployment_guard_reads_statefulset :
  let key := ("default", "redpanda-console") in
  (objects staleDeploymentWorld !! (Deployment, key) = Some (legacy "redpanda-console")
   ∧ hasLabelsAndAnnotations (legacy "redpanda-console") sampleParent = false
   ∧ filter (λ c, CallKind c = Deployment) (issued (tryMigration sampleParent) staleDeploymentWorld)
     = [mkCall VGet Deployment key]
   ∧ emitted (tryMigration sampleParent) staleDeploymentWorld = []
   ∧ objects (tryMigration sampleParent staleDeploymentWorld).2 !! (Deployment, key)
     = Some (legacy "redpanda-console"))
  ∧ (objects staleStatefulSetWorld !! (Deployment, key)
     = Some (mark sampleParent (legacy "redpanda-console"))
     ∧ hasLabelsAndAnnotations (mark sampleParent (legacy "redpanda-console")) sampleParent = true
     ∧ filter (λ c, CallKind c = Deployment)
         (issued (tryMigration sampleParent) staleStatefulSetWorld)
       = [mkCall (VDelete None) Deployment key; mkCall VGet Deployment key]
     ∧ objects (tryMigration sampleParent staleStatefulSetWorld).2 !! (Deployment, key) = None).
Proof. vm_compute. by repeat split. Qed.

(** Claim C5 (what the code does).  With nothing migrated and the legacy
    Console missing, every other step runs and records its event, and the
    error returned has one entry; its label is "get cluster reference", the
    label of the Cluster step.  With the fetch refused by the API server,
    the error returned for the Console step and the one returned for the
    Cluster step are the same error. *)
Theorem console_fetch_failure_is_labelled_cluster :
  (tryMigration sampleParent legacyWorldNoConsole).1
  = [Errorf "get cluster reference (default/redpanda)"
       (ErrNotFound Console ("default", "redpanda"))]
  ∧ (tryMigration sampleParent consoleFetchRefused).1
    = [Errorf "get cluster reference (default/redpanda)"
         (ErrTransient "context deadline exceeded")]
  ∧ (tryMigration sampleParent clusterFetchRefused).1
    = (tryMigration sampleParent consoleFetchRefused).1
  ∧ (EvMessage <$> emitted (tryMigration sampleParent) legacyWorldNoConsole)
    = [ "update console Ingress"; "delete console Deployment"; "update console Service";
        "update console ServiceAccount"; "delete StatefulSet with orphant propagation mode";
        "update PodDistributionBudget"; "update ServiceAccount"; "update external Service";
        "update internal Service"; "update Redpanda Pod"; "update Cluster custom resource" ]
  ∧ (errLabel <$> (tryMigration sampleParent migratedNoConsole).1)
    = ["get cluster reference (default/redpanda)"]
  ∧ (errLabel <$> (tryMigration sampleParent migratedNoCluster).1)
    = ["get cluster reference (default/redpanda)"].
Proof. vm_compute. by repeat split. Qed.

(** Witness of C9: the legacy StatefulSet of the sample parent. *)
Lemma statefulset_orphaned_witness :
  mkCall (VDelete (Some Orphan)) StatefulSet ("default", "redpanda")
    ∈ issued (tryMigration sampleParent) legacyWorld
  ∧ objects (tryMigration sampleParent legacyWorld).2
      !! (StatefulSet, ("default", "redpanda")) = None.
Proof.
  pose proof (statefulset_orphaned_never_updated sampleParent legacyWorld) as H.
  cbn zeta in H. destruct H as (_ & _ & H).
  apply (H (legacy "redpanda")); reflexivity.
Defined.



(** Counterexample to C2 as stated: two reconciles in a row, the release
    still terminating at the second, issue two deletes. *)
Lemma deletion_repeats_delete_while_terminating :
  releases firstDelete.2 !! ("default", "redpanda") = Some (markTerminating unpinnedRelease)
  ∧ filter (λ c, isDelete c = true)
      (issued (reconcileDelete firstDelete.1.1) firstDelete.2
       ++ issued (reconcileDelete sampleParent) (releaseWorld unpinnedRelease))
    = [mkCall (VDelete (Some Foreground)) HelmRelease ("default", "redpanda");
       mkCall (VDelete (Some Foreground)) HelmRelease ("default", "redpanda")]
  ∧ secondDelete.1.2 = Some waitForDeletion
  ∧ Finalizers (RpMeta secondDelete.1.1) = [FinalizerKey].
Proof. vm_compute. by repeat split. Qed.

(** Witness of C2: the sample release, deleted, collected, found absent. *)
Lemma deletion_waits_for_release_witness :
  (reconcileDelete sampleParent (releaseWorld unpinnedRelease)).1
    = (sampleParent, Some waitForDeletion)
  ∧ issued (reconcileDelete sampleParent) (releaseWorld unpinnedRelease)
    = [mkCall (VDelete (Some Foreground)) HelmRelease ("default", "redpanda");
       mkCall VGet HelmRelease ("default", "redpanda")]
  ∧ (reconcileDelete sampleParent afterFirstDelete).1.2 = None
  ∧ (FinalizerKey ∉ Finalizers (RpMeta (reconcileDelete sampleParent afterFirstDelete).1.1))
  ∧ issued (reconcileDelete sampleParent) afterFirstDelete
    = [mkCall VUpdate Redpanda ("default", "redpanda");
       mkCall VGet HelmRelease ("default", "redpanda")].
Proof.
  destruct (deletion_waits_for_release sampleParent (releaseWorld unpinnedRelease))
    as (_ & Hfirst & Hlater & _).
  destruct (Hfirst unpinnedRelease) as (H1 & H2 & _);
    [discriminate|reflexivity|reflexivity|reflexivity|reflexivity|].
  destruct (Hlater afterFirstDelete sampleParent) as (H3 & H4 & _ & H5);
    [discriminate|reflexivity| |reflexivity|reflexivity|reflexivity|].
  { apply (bool_decide_unpack _). vm_compute. reflexivity. }
  by repeat split.
Defined.

(** Counterexample to C7 as stated: no release recorded, and the recorded
    repository name is still there after [deleteHelmRelease]. *)
Lemma deleteHelmRelease_keeps_repository_name :
  StatusHelmRelease (Status freshParent) = ""
  ∧ (deleteHelmRelease freshParent (releaseWorld unpinnedRelease)).1.2 = None
  ∧ StatusHelmRepository
      (Status (deleteHelmRelease freshParent (releaseWorld unpinnedRelease)).1.1)
    = "redpanda-repository"
  ∧ StatusHelmRepository
      (Status (deleteHelmRelease freshParent (releaseWorld unpinnedRelease)).1.1)
    ≠ "".
Proof. vm_compute. by repeat split. Qed.

(** Witness of C7. *)
Lemma deleteHelmRelease_witness :
  deleteHelmRelease freshParent (releaseWorld unpinnedRelease)
    = ((freshParent, None), releaseWorld unpinnedRelease)
  ∧ (deleteHelmRelease sampleParent afterFirstDelete).1 = (clearedNames sampleParent, None).
Proof.
  split.
  - apply (proj1 (deleteHelmRelease_nothing_recorded_or_gone freshParent
                    (releaseWorld unpinnedRelease))). reflexivity.
  - destruct (proj2 (deleteHelmRelease_nothing_recorded_or_gone sampleParent afterFirstDelete))
      as (H & _); [discriminate|reflexivity|reflexivity|]. by rewrite H.
Defined.

(** Witness of C8: a parent that sets force and nothing else. *)
Lemma template_defaults_witness :
  ∃ tpl upgrade,
    (createHelmReleaseFromTemplate sampleValuesJSON sampleDigest sampleDigest forcingParent
       (releaseWorld unpinnedRelease)).1 = Ok tpl
    ∧ HrInterval (HrSpec tpl) = 30 * Second
    ∧ HrTimeout (HrSpec tpl) = Some (15 * Minute)
    ∧ HrUpgrade (HrSpec tpl) = Some upgrade
    ∧ UpgForce upgrade = true
    ∧ UpgCleanupOnFail upgrade = false
    ∧ UpgRemediation upgrade = Some (mkRemediation 1 None None (Some "rollback")).
Proof.
  destruct (template_defaults_and_overrides sampleValuesJSON sampleDigest sampleDigest
              forcingParent (releaseWorld unpinnedRelease) "{}" eq_refl)
    as (tpl & upgrade & H1 & H2 & H3 & H4 & _ & H5).
  destruct (H5 _ eq_refl) as (H6 & H7 & _ & H8).
  exists tpl, upgrade. by repeat split.
Defined.

(** Counterexample to C6 as stated: the live release has an empty chart
    version, the template asks for 5.3.2, and nothing is updated. *)
Lemma release_update_skips_unpinned_live_version :
  Version (HrChart (HrSpec (sampleTemplate sampleParent)))
    ≠ Version (HrChart (HrSpec unpinnedRelease))
  ∧ (reconcileHelmRelease sampleValuesJSON sampleDecode sampleDigest sampleDigest
       sampleParent (releaseWorld unpinnedRelease)).1
    = (sampleParent, Some unpinnedRelease, None)
  ∧ releases (reconcileHelmRelease sampleValuesJSON sampleDecode sampleDigest sampleDigest
                sampleParent (releaseWorld unpinnedRelease)).2 !! ("default", "redpanda")
    = Some unpinnedRelease
  ∧ issued (reconcileHelmRelease sampleValuesJSON sampleDecode sampleDigest sampleDigest
              sampleParent) (releaseWorld unpinnedRelease)
    = [mkCall VGet HelmRelease ("default", "redpanda")]
  ∧ emitted (reconcileHelmRelease sampleValuesJSON sampleDecode sampleDigest sampleDigest
               sampleParent) (releaseWorld unpinnedRelease) = [].
Proof. vm_compute. by repeat split. Qed.

(** Witness of C6: changed values are written. *)
Lemma release_update_witness :
  (reconcileHelmRelease sampleValuesJSON sampleDecode sampleDigest sampleDigest changedParent
     (releaseWorld (sampleTemplate sampleParent))).1.1.2
  = Some (withHrSpec (HrSpec (sampleTemplate changedParent)) (sampleTemplate sampleParent))
  ∧ issued (reconcileHelmRelease sampleValuesJSON sampleDecode sampleDigest sampleDigest
              changedParent)
      (releaseWorld (sampleTemplate sampleParent))
    = [mkCall VUpdate HelmRelease ("default", "redpanda");
       mkCall VGet HelmRelease ("default", "redpanda")].
Proof.
  destruct (proj2 (release_update_is_structural sampleValuesJSON sampleDecode sampleDigest
                     sampleDigest changedParent (releaseWorld (sampleTemplate sampleParent)))
              (sampleTemplate sampleParent) "{replicas: 5}")
    as (tpl & Htpl & Hupd & _); try reflexivity; [discriminate|].
  injection Htpl as <-.
  destruct Hupd as (H1 & _ & H2 & _).
  { left. vm_compute. discriminate. }
  rewrite H1. split; [reflexivity|exact H2].
Defined.


(** * Further properties: markers, mutations, the latch, the optional controllers *)

Lemma visit_project {A B} (p : A → B) (body : A → string → string → A)
    (g : B → string → string → B) (init : A) (l : list (string * string)) :
  (∀ acc k v, p (body acc k v) = g (p acc) k v) →
  p (visit body init l) = visit g (p init) l.
Proof. intros Hstep. unfold visit. apply foldl_project. intros acc [k v]. apply Hstep. Qed.

Lemma visit_one_key {A} (body : A → string → string → A) (key : string) (init : A)
    (l : list (string * string)) :
  (∀ acc k v, k ≠ key → body acc k v = acc) →
  NoDup l.*1 →
  visit body init l
  = match (list_to_map l : gmap string string) !! key with
    | Some v => body init key v
    | None => init
    end.
Proof. intros Hother Hnd. unfold visit. by apply foldl_one_key. Qed.

Lemma hasLabelsAndAnnotationsIn_lookups (labels annotations : list (string * string))
    (rp : RedpandaT) :
  NoDup labels.*1 → NoDup annotations.*1 →
  hasLabelsAndAnnotationsIn labels annotations rp
  = bool_decide ((list_to_map labels : gmap string string) !! "app.kubernetes.io/managed-by"
                 = Some helm)
    && bool_decide ((list_to_map annotations : gmap string string) !! "meta.helm.sh/release-name"
                    = Some (Name (RpMeta rp)))
    && bool_decide ((list_to_map annotations : gmap string string)
                      !! "meta.helm.sh/release-namespace" = Some (Namespace (RpMeta rp))).
Proof.
  intros Hl Ha. unfold hasLabelsAndAnnotationsIn. f_equal; [f_equal|].
  - rewrite (visit_one_key _ "app.kubernetes.io/managed-by") by
      (done || (intros acc k v Hk; by rewrite (bool_decide_false _ Hk))).
    destruct (list_to_map labels !! _) as [v|]; [|done].
    rewrite bool_decide_true by done. simpl.
    destruct (decide (v = helm)) as [->|Hv].
    + by rewrite !bool_decide_true.
    + rewrite !bool_decide_false; [done|congruence|done].
  - rewrite (visit_project fst _
               (λ acc k v, if bool_decide (k = "meta.helm.sh/release-name")
                           then bool_decide (v = Name (RpMeta rp)) else acc)).
    2:{ intros acc k v. repeat case_bool_decide; done. }
    rewrite (visit_one_key _ "meta.helm.sh/release-name") by
      (done || (intros acc k v Hk; by rewrite (bool_decide_false _ Hk))).
    destruct (list_to_map annotations !! _) as [v|]; simpl; [|done].
    destruct (decide (v = Name (RpMeta rp))) as [->|Hv].
    + by rewrite !bool_decide_true.
    + rewrite !bool_decide_false; [done|congruence|done].
  - rewrite (visit_project snd _
               (λ acc k v, if bool_decide (k = "meta.helm.sh/release-namespace")
                           then bool_decide (v = Namespace (RpMeta rp)) else acc)).
    2:{ intros acc k v. repeat case_bool_decide; simplify_eq; done. }
    rewrite (visit_one_key _ "meta.helm.sh/release-namespace") by
      (done || (intros acc k v Hk; by rewrite (bool_decide_false _ Hk))).
    destruct (list_to_map annotations !! _) as [v|]; simpl; [|done].
    destruct (decide (v = Namespace (RpMeta rp))) as [->|Hv].
    + by rewrite !bool_decide_true.
    + rewrite !bool_decide_false; [done|congruence|done].
Qed.

Lemma entries_in_any_order (m : gmap string string) (l : list (string * string)) :
  l ≡ₚ map_to_list m → NoDup l.*1 ∧ list_to_map l = m.
Proof.
  intros Hp. assert (NoDup l.*1) as Hnd.
  { rewrite Hp. apply NoDup_fst_map_to_list. }
  split; [done|].
  rewrite (list_to_map_proper l (map_to_list m)) by done. apply list_to_map_to_list.
Qed.

(** Property X1.  In whatever order the two range loops of
    [hasLabelsAndAnnotations] visit the labels and the annotations of the
    object, the answer is the same: true exactly when the label
    [app.kubernetes.io/managed-by] is [Helm] and the annotations
    [meta.helm.sh/release-name] and [meta.helm.sh/release-namespace] are
    the parent's name and namespace. *)
Theorem hasLabelsAndAnnotations_any_order (object : Object) (rp : RedpandaT)
    (labels annotations : list (string * string)) :
  labels ≡ₚ map_to_list (GetLabels object) →
  annotations ≡ₚ map_to_list (GetAnnotations object) →
  hasLabelsAndAnnotationsIn labels annotations rp = hasLabelsAndAnnotations object rp
  ∧ (hasLabelsAndAnnotations object rp = true
     ↔ GetLabels object !! "app.kubernetes.io/managed-by" = Some "Helm"
       ∧ GetAnnotations object !! "meta.helm.sh/release-name" = Some (Name (RpMeta rp))
       ∧ GetAnnotations object !! "meta.helm.sh/release-namespace"
         = Some (Namespace (RpMeta rp))).
Proof.
  intros Hl Ha.
  destruct (entries_in_any_order _ _ Hl) as [Hndl Hml].
  destruct (entries_in_any_order _ _ Ha) as [Hnda Hma].
  split.
  - rewrite hasLabelsAndAnnotationsIn_lookups by done.
    by rewrite Hml, Hma, hasLabelsAndAnnotations_spec.
  - rewrite hasLabelsAndAnnotations_spec, !andb_true_iff, !bool_decide_eq_true. tauto.
Qed.

(** Witness of X1: the entries visited in the reverse order. *)
Lemma hasLabelsAndAnnotations_any_order_witness :
  hasLabelsAndAnnotationsIn (reverse (map_to_list (GetLabels sampleMarked)))
    (reverse (map_to_list (GetAnnotations sampleMarked))) sampleParent
  = hasLabelsAndAnnotations sampleMarked sampleParent
  ∧ hasLabelsAndAnnotations sampleMarked sampleParent = true.
Proof.
  split; [|vm_compute; reflexivity].
  apply (hasLabelsAndAnnotations_any_order sampleMarked sampleParent); apply reverse_Permutation.
Defined.

(** Property X2.  An object marked by [setHelmLabelsAndAnnotations] for
    the parent [rp] passes [hasLabelsAndAnnotations] for a parent [rp']
    exactly when the two have the same name and the same namespace; marking
    it again for [rp'] leaves what marking it for [rp'] alone would. *)
Theorem markers_name_their_parent (object : Object) (rp rp' : RedpandaT) :
  (hasLabelsAndAnnotations (setHelmLabelsAndAnnotations object rp) rp' = true
   ↔ Name (RpMeta rp) = Name (RpMeta rp') ∧ Namespace (RpMeta rp) = Namespace (RpMeta rp'))
  ∧ setHelmLabelsAndAnnotations (setHelmLabelsAndAnnotations object rp) rp'
    = setHelmLabelsAndAnnotations object rp'.
Proof.
  split; [|reflexivity].
  rewrite hasLabelsAndAnnotations_spec, setHelm_labels, setHelm_annotations.
  rewrite lookup_insert_eq, lookup_insert_eq.
  rewrite lookup_insert_ne by done. rewrite lookup_insert_eq.
  rewrite !andb_true_iff, !bool_decide_eq_true. split.
  - intros [[_ Hn] Hs]. split; congruence.
  - intros [-> ->]. done.
Qed.

(** Property X3.  The pod written by the pod loop of [tryMigration]
    carries the component label [redpanda-statefulset] and no longer the
    operator's finalizer, keeps every other label, every other finalizer
    and its name, is skipped by the loop's check from then on, and matches
    the pod selector exactly when the pod read did. *)
Theorem pod_mutation_settles_pod (pod : Object) (rp : RedpandaT) :
  let newPod := podMutate pod in
  podSettled newPod = true
  ∧ GetLabels newPod !! "app.kubernetes.io/component" = Some "redpanda-statefulset"
  ∧ (∀ k, k ≠ "app.kubernetes.io/component" → GetLabels newPod !! k = GetLabels pod !! k)
  ∧ (∀ f, f ∈ Finalizers (ObjMeta newPod) ↔ f ∈ Finalizers (ObjMeta pod) ∧ f ≠ FinalizerKey)
  ∧ keyOf (ObjMeta newPod) = keyOf (ObjMeta pod)
  ∧ matchesLabels (podSelector rp) newPod = matchesLabels (podSelector rp) pod.
Proof.
  cbn zeta. split_and!.
  - unfold podSettled, podMutate. cbn. rewrite lookup_insert_eq.
    rewrite bool_decide_true by done. cbn. apply negb_true_iff, bool_decide_eq_false.
    intros Hin. apply list_elem_of_filter in Hin. by destruct Hin.
  - unfold podMutate. cbn. apply lookup_insert_eq.
  - intros k Hk. unfold podMutate. cbn. by rewrite lookup_insert_ne.
  - intros f. unfold podMutate. cbn. rewrite list_elem_of_filter. tauto.
  - reflexivity.
  - unfold matchesLabels. apply bool_decide_ext.
    unfold podMutate. cbn. rewrite !map_subseteq_spec. split; intros H k v Hkv.
    + assert (k ≠ "app.kubernetes.io/component") as Hk.
      { intros ->. unfold podSelector in Hkv.
        rewrite !lookup_insert_ne in Hkv by done. by rewrite lookup_empty in Hkv. }
      specialize (H k v Hkv). by rewrite lookup_insert_ne in H.
    + assert (k ≠ "app.kubernetes.io/component") as Hk.
      { intros ->. unfold podSelector in Hkv.
        rewrite !lookup_insert_ne in Hkv by done. by rewrite lookup_empty in Hkv. }
      rewrite lookup_insert_ne by done. by apply H.
Qed.

Lemma componentSelector_inj (rp : RedpandaT) (c1 c2 : string) :
  componentSelector rp c1 = componentSelector rp c2 → c1 = c2.
Proof.
  intros H. unfold componentSelector in H.
  assert (<["app.kubernetes.io/name" := c1]>
            (<["app.kubernetes.io/instance" := Name (RpMeta rp)]> (∅ : gmap string string))
          !! "app.kubernetes.io/name" = Some c2) as Hl.
  { rewrite H. apply lookup_insert_eq. }
  rewrite lookup_insert_eq in Hl. congruence.
Qed.

Lemma serviceStale_exclusive (rp : RedpandaT) (c c' : string) (svc : Object) :
  c ≠ c' → serviceStale rp c svc = false → serviceStale rp c' svc = true.
Proof.
  intros Hne. unfold serviceStale. rewrite orb_false_iff, orb_true_iff, !negb_false_iff.
  intros [_ Hsel%bool_decide_eq_true]. right. apply negb_true_iff, bool_decide_eq_false.
  intros Hsel'. apply Hne. apply (componentSelector_inj rp). congruence.
Qed.

Lemma serviceMutate_settled (rp : RedpandaT) (component : string) (svc : Object) :
  serviceStale rp component (serviceMutate rp component svc) = false.
Proof.
  unfold serviceStale, serviceMutate. apply orb_false_iff. split.
  - apply negb_false_iff.
    rewrite hasLabelsAndAnnotations_spec. cbn.
    rewrite lookup_insert_eq, lookup_insert_eq.
    rewrite lookup_insert_ne by done. rewrite lookup_insert_eq.
    by rewrite !bool_decide_true.
  - apply negb_false_iff. by apply bool_decide_eq_true.
Qed.

(** Property X4.  The Service written by a Service step of [tryMigration]
    passes that step's check, keeps its name and selects exactly the
    instance and the component; a Service that passes the check of the
    broker step fails the check of the console step, and the other way
    round. *)
Theorem service_checks_exclude_each_other (rp : RedpandaT) (svc : Object) (component : string) :
  serviceStale rp component (serviceMutate rp component svc) = false
  ∧ keyOf (ObjMeta (serviceMutate rp component svc)) = keyOf (ObjMeta svc)
  ∧ Selector (serviceMutate rp component svc)
    = <["app.kubernetes.io/name" := component]>
        {["app.kubernetes.io/instance" := Name (RpMeta rp)]}
  ∧ (serviceStale rp "redpanda" svc = false → serviceStale rp "console" svc = true)
  ∧ (serviceStale rp "console" svc = false → serviceStale rp "redpanda" svc = true).
Proof.
  split_and!.
  - apply serviceMutate_settled.
  - reflexivity.
  - reflexivity.
  - by apply serviceStale_exclusive.
  - by apply serviceStale_exclusive.
Qed.

(** Property X5.  The Console written by [tryMigration] carries neither
    console finalizer and every other finalizer it had, the managed
    annotation set to [false] and every other annotation it had, the same
    labels and the same name; writing it a second time would change
    nothing. *)
Theorem console_mutation_strips_both_finalizers (console : Object) :
  let annotated := consoleMutate console in
  ContainsFinalizer (ObjMeta annotated) ConsoleSAFinalizer = false
  ∧ ContainsFinalizer (ObjMeta annotated) ConsoleACLFinalizer = false
  ∧ (∀ f, f ∈ Finalizers (ObjMeta annotated)
          ↔ f ∈ Finalizers (ObjMeta console) ∧ f ≠ ConsoleSAFinalizer ∧ f ≠ ConsoleACLFinalizer)
  ∧ GetAnnotations annotated !! vectorizedManagedKey = Some NotManaged
  ∧ (∀ k, k ≠ vectorizedManagedKey → GetAnnotations annotated !! k = GetAnnotations console !! k)
  ∧ GetLabels annotated = GetLabels console
  ∧ keyOf (ObjMeta annotated) = keyOf (ObjMeta console)
  ∧ consoleMutate annotated = annotated.
Proof.
  cbn zeta.
  assert (∀ f, f ∈ Finalizers (ObjMeta (consoleMutate console))
               ↔ f ∈ Finalizers (ObjMeta console) ∧ f ≠ ConsoleSAFinalizer ∧ f ≠
                   ConsoleACLFinalizer)
    as Hfin.
  { intros f. unfold consoleMutate. cbn. rewrite !list_elem_of_filter. tauto. }
  split_and!.
  - apply bool_decide_eq_false. rewrite Hfin. tauto.
  - apply bool_decide_eq_false. rewrite Hfin. tauto.
  - exact Hfin.
  - unfold consoleMutate. cbn. apply lookup_insert_eq.
  - intros k Hk. unfold consoleMutate. cbn. by rewrite lookup_insert_ne.
  - reflexivity.
  - reflexivity.
  - assert (∀ c, consoleMutate c
                 = mkObject
                     (mkMeta (Name (ObjMeta c)) (Namespace (ObjMeta c)) (Labels (ObjMeta c))
                        (<[vectorizedManagedKey := NotManaged]> (Annotations (ObjMeta c)))
                        (filter (λ f, f ≠ ConsoleACLFinalizer)
                           (filter (λ f, f ≠ ConsoleSAFinalizer) (Finalizers (ObjMeta c))))
                        (Generation (ObjMeta c)))
                     (Selector c)) as Hshape by reflexivity.
    rewrite (Hshape (consoleMutate console)), (Hshape console). cbn [ObjMeta Name Namespace
      Labels Annotations Finalizers Generation Selector].
    rewrite insert_insert_eq. f_equal. f_equal.
    rewrite !list_filter_filter. apply list_filter_iff. intros f. tauto.
Qed.

(** ** The readiness latch, for any dependent *)

Lemma checkHelmRelease_run (observed : Observed) (rp : RedpandaT) (w : World) :
  checkHelmRelease observed rp w
  = let ready := observedReady observed in
    let prev := HelmReleaseReady (Status rp) in
    let flag := match prev, ready with
                | _, false => Some false
                | Some false, true => Some true
                | _, true => prev
                end in
    let rp' := withStatus (setHelmReleaseReady flag (Status rp)) rp in
    ((ready, rp'),
     match prev, ready with
     | Some false, true =>
         (event rp' (LastAttemptedRevision (Status rp')) EventSeverityInfo
            (resourceReadyStr resourceTypeHelmRelease (ObsNamespace observed) (ObsName observed))
            w).2
     | Some true, false =>
         (event rp' (LastAttemptedRevision (Status rp')) EventSeverityInfo
            (resourceNotReadyStr resourceTypeHelmRelease (ObsNamespace observed)
               (ObsName observed)) w).2
     | _, _ => w
     end).
Proof.
  unfold checkHelmRelease, observedReady.
  destruct (bool_decide (ObsGeneration observed = ObsObservedGeneration observed)),
    (IsStatusConditionTrue (ObsConditions observed) ReadyCondition),
    rp as [m d s [og c l hr [[]|] hrp hrpr]]; reflexivity.
Qed.

Lemma checkHelmRepository_run (observed : Observed) (rp : RedpandaT) (w : World) :
  checkHelmRepository observed rp w
  = let ready := observedReady observed in
    let prev := HelmRepositoryReady (Status rp) in
    let flag := match prev, ready with
                | _, false => Some false
                | Some false, true => Some true
                | _, true => prev
                end in
    let rp' := withStatus (setHelmRepositoryReady flag (Status rp)) rp in
    ((ready, rp'),
     match prev, ready with
     | Some false, true =>
         (event rp' (LastAttemptedRevision (Status rp')) EventSeverityInfo
            (resourceReadyStr resourceTypeHelmRepository (ObsNamespace observed)
               (ObsName observed)) w).2
     | Some true, false =>
         (event rp' (LastAttemptedRevision (Status rp')) EventSeverityInfo
            (resourceNotReadyStr resourceTypeHelmRepository (ObsNamespace observed)
               (ObsName observed)) w).2
     | _, _ => w
     end).
Proof.
  unfold checkHelmRepository, observedReady.
  destruct (bool_decide (ObsGeneration observed = ObsObservedGeneration observed)),
    (IsStatusConditionTrue (ObsConditions observed) ReadyCondition),
    rp as [m d s [og c l hr hrr hrp [[]|]]]; reflexivity.
Qed.

(** Property X6.  For any dependent and any parent, each leg of the
    readiness latch answers whether the observed generation has caught up
    and the Ready condition is true.  The parent's flag becomes false when
    the answer is no, true when the answer is yes and the flag was false,
    and stays as it was otherwise (nil stays nil); an event is recorded
    only when a true flag meets a no or a false flag meets a yes; no client
    call is issued and nothing stored changes. *)
Theorem latch_rule (observed : Observed) (rp : RedpandaT) (w : World) :
  let ready := observedReady observed in
  let ns := ObsNamespace observed in
  let name := ObsName observed in
  let next (prev : option bool) :=
    match prev, ready with
    | _, false => Some false
    | Some false, true => Some true
    | _, true => prev
    end in
  let messages (kind : string) (prev : option bool) :=
    match prev, ready with
    | Some false, true => [resourceReadyStr kind ns name]
    | Some true, false => [resourceNotReadyStr kind ns name]
    | _, _ => []
    end in
  let release := checkHelmRelease observed rp w in
  let repository := checkHelmRepository observed rp w in
  (release.1.1 = ready
   ∧ release.1.2
     = withStatus (setHelmReleaseReady (next (HelmReleaseReady (Status rp))) (Status rp)) rp
   ∧ (EvMessage <$> emitted (checkHelmRelease observed rp) w)
     = messages resourceTypeHelmRelease (HelmReleaseReady (Status rp))
   ∧ issued (checkHelmRelease observed rp) w = []
   ∧ objects release.2 = objects w ∧ releases release.2 = releases w
   ∧ parents release.2 = parents w)
  ∧ (repository.1.1 = ready
     ∧ repository.1.2
       = withStatus (setHelmRepositoryReady (next (HelmRepositoryReady (Status rp))) (Status rp))
           rp
     ∧ (EvMessage <$> emitted (checkHelmRepository observed rp) w)
       = messages resourceTypeHelmRepository (HelmRepositoryReady (Status rp))
     ∧ issued (checkHelmRepository observed rp) w = []
     ∧ objects repository.2 = objects w ∧ releases repository.2 = releases w
     ∧ parents repository.2 = parents w).
Proof.
  cbn zeta. split.
  - assert (∃ new, events (checkHelmRelease observed rp w).2 = new ++ events w
                   ∧ (EvMessage <$> new)
                     = match HelmReleaseReady (Status rp), observedReady observed with
                       | Some false, true =>
                           [resourceReadyStr resourceTypeHelmRelease (ObsNamespace observed)
                              (ObsName observed)]
                       | Some true, false =>
                           [resourceNotReadyStr resourceTypeHelmRelease (ObsNamespace observed)
                              (ObsName observed)]
                       | _, _ => []
                       end) as (new & Hnew & Hmsg).
    { rewrite checkHelmRelease_run. cbn zeta.
      destruct (HelmReleaseReady (Status rp)) as [[]|], (observedReady observed);
        first [by exists []|by eexists [_]]. }
    rewrite (emitted_new _ _ _ Hnew).
    rewrite (issued_new _ _ []).
    2:{ rewrite checkHelmRelease_run. cbn zeta.
        by destruct (HelmReleaseReady (Status rp)) as [[]|], (observedReady observed). }
    rewrite checkHelmRelease_run. cbn zeta. split_and!; try done;
      by destruct (HelmReleaseReady (Status rp)) as [[]|], (observedReady observed).
  - assert (∃ new, events (checkHelmRepository observed rp w).2 = new ++ events w
                   ∧ (EvMessage <$> new)
                     = match HelmRepositoryReady (Status rp), observedReady observed with
                       | Some false, true =>
                           [resourceReadyStr resourceTypeHelmRepository (ObsNamespace observed)
                              (ObsName observed)]
                       | Some true, false =>
                           [resourceNotReadyStr resourceTypeHelmRepository
                              (ObsNamespace observed) (ObsName observed)]
                       | _, _ => []
                       end) as (new & Hnew & Hmsg).
    { rewrite checkHelmRepository_run. cbn zeta.
      destruct (HelmRepositoryReady (Status rp)) as [[]|], (observedReady observed);
        first [by exists []|by eexists [_]]. }
    rewrite (emitted_new _ _ _ Hnew).
    rewrite (issued_new _ _ []).
    2:{ rewrite checkHelmRepository_run. cbn zeta.
        by destruct (HelmRepositoryReady (Status rp)) as [[]|], (observedReady observed). }
    rewrite checkHelmRepository_run. cbn zeta. split_and!; try done;
      by destruct (HelmRepositoryReady (Status rp)) as [[]|], (observedReady observed).
Qed.




Section LatchRuns.
Variable check : Observed → RedpandaT → M (bool * RedpandaT).
Variable flagOf : RedpandaT → option bool.
Hypothesis check_flag : ∀ o rp w,
  flagOf (check o rp w).1.2
  = match flagOf rp, observedReady o with
    | _, false => Some false
    | Some false, true => Some true
    | prev, true => prev
    end.
Hypothesis check_events : ∀ o rp w,
  (length (emitted (check o rp) w) ≤ 1)%nat
  ∧ (flagOf rp ≠ Some (negb (observedReady o)) → emitted (check o rp) w = []).


End LatchRuns.



(** ** Which optional controllers run *)

Lemma runThisControllerLoop_spec (rc : string) (controllers : list string) :
  runThisControllerLoop rc controllers = true ↔ AllControllers ∈ controllers ∨ rc ∈ controllers.
Proof.
  induction controllers as [|c rest IH]; simpl.
  - split; [done|]. intros [H|H]; by apply elem_of_nil in H.
  - rewrite !elem_of_cons. destruct (decide (c = AllControllers)) as [->|Hall].
    { rewrite bool_decide_true by done. simpl. split; [|done]. intros _. left. by left. }
    destruct (decide (c = rc)) as [->|Hrc].
    { rewrite (bool_decide_true (rc = rc)) by done. rewrite orb_true_r.
      split; [|done]. intros _. right. by left. }
    rewrite !bool_decide_false by done. simpl. rewrite IH.
    split; [tauto|]. intros [[?|?]|[?|?]]; first [congruence|tauto].
Qed.

(** Property X8.  [runThisController] answers true exactly when the list
    of additional controllers holds [all] or the controller asked for; with
    the default of the flag, the list holding the empty string, neither the
    node watcher nor the decommission controller runs. *)
Theorem runThisController_iff (rc : string) (controllers : list string) :
  (runThisController rc controllers = true ↔ AllControllers ∈ controllers ∨ rc ∈ controllers)
  ∧ runThisController NodeController defaultAdditionalControllers = false
  ∧ runThisController DecommissionController defaultAdditionalControllers = false.
Proof.
  split; [|done]. unfold runThisController. case_bool_decide as Hlen.
  - destruct controllers; [|done]. split; [done|].
    intros [H|H]; by apply elem_of_nil in H.
  - apply runThisControllerLoop_spec.
Qed.

Lemma podMutate_settled (pod : Object) : podSettled (podMutate pod) = true.
Proof.
  unfold podSettled, podMutate. cbn. rewrite lookup_insert_eq.
  rewrite bool_decide_true by done. cbn. apply negb_true_iff, bool_decide_eq_false.
  intros Hin. apply list_elem_of_filter in Hin. by destruct Hin.
Qed.

(** * Further properties of the migration *)

Lemma mutations_app (l1 l2 : list Call) : mutations (l1 ++ l2) = mutations l1 ++ mutations l2.
Proof. apply filter_app. Qed.

#[local] Instance migFrame_refl rp P : Reflexive (migFrame rp P).
Proof.
  intros w. split; try done. exists [], []. split_and!; try done. intros kk. by left.
Qed.

#[local] Instance migFrame_trans rp P : Transitive (migFrame rp P).
Proof.
  intros w1 w2 w3
    [Hf1 Hr1 Hp1 Hl1 Hc1 Hk1 (c1 & e1 & Hcalls1 & Hev1 & HP1 & Hpair1 & Hty1 & Hobj1)]
    [Hf2 Hr2 Hp2 Hl2 Hc2 Hk2 (c2 & e2 & Hcalls2 & Hev2 & HP2 & Hpair2 & Hty2 & Hobj2)].
  split; try congruence.
  - intros kk Hnone. by apply Hc2, Hc1.
  - intros Hk. by apply Hk2, Hk1.
  - exists (c2 ++ c1), (e2 ++ e1). split_and!.
    + by rewrite Hcalls2, Hcalls1, app_assoc.
    + by rewrite Hev2, Hev1, app_assoc.
    + by apply Forall_app.
    + by rewrite mutations_app, !fmap_app, Hpair1, Hpair2.
    + by apply Forall_app.
    + intros kk. rewrite mutations_app, fmap_app, elem_of_app.
      destruct (Hobj2 kk) as [Heq|Hin]; [|by right; left].
      destruct (Hobj1 kk) as [Heq'|Hin]; [left; congruence|by right; right].
Qed.

Lemma migFrame_weaken rp (P Q : Call → Prop) (w w' : World) :
  (∀ c, P c → Q c) → migFrame rp P w w' → migFrame rp Q w w'.
Proof.
  intros HPQ [Hf Hr Hp Hl Hc Hk (c & e & Hcalls & Hev & HP & Hpair & Hty & Hobj)].
  split; try done. exists c, e. split_and!; try done.
  eapply Forall_impl; [exact HP|exact HPQ].
Qed.

Lemma changes_weaken rp (P Q : Call → Prop) {A} (m : M A) :
  (∀ c, P c → Q c) → changes (migFrame rp P) m → changes (migFrame rp Q) m.
Proof. intros HPQ Hm w. eapply migFrame_weaken; [exact HPQ|apply Hm]. Qed.

(** A read: one call, nothing else. *)
Lemma read_migFrame rp (P : Call → Prop) (c : Call) (w : World) :
  isMutation c = false → P c → migFrame rp P w (called c w).
Proof.
  intros Hread HP. split; try done. exists [c], []. split_and!; try done.
  - by apply Forall_singleton.
  - unfold mutations. cbn. rewrite decide_False; [done|]. by rewrite Hread.
  - intros kk. by left.
Qed.

Lemma Get_migFrame rp (P : Call → Prop) k key :
  P (mkCall VGet k key) → changes (migFrame rp P) (Get k key).
Proof. intros HP w. rewrite Get_world. by apply read_migFrame. Qed.

Lemma ListPods_migFrame rp (P : Call → Prop) ns labels :
  P (mkCall VList Pod (ns, "")) → changes (migFrame rp P) (ListPods ns labels).
Proof.
  intros HP w. unfold ListPods. rewrite !run_bind. cbn.
  destruct (faults w _); by apply read_migFrame.
Qed.

(** A mutating call followed by its event. *)
Lemma mutation_migFrame (rp : RedpandaT) (P : Call → Prop) (c : Call) (m : ObjectMeta) (msg :
    string)
    (store : gmap (Kind * Key) Object) (w : World) :
  isMutation c = true → P c →
  callTarget c = (CallKind c, keyOf m) →
  (∀ kk, objects w !! kk = None → store !! kk = None) →
  (∀ kk, kk ≠ callTarget c → store !! kk = objects w !! kk) →
  (wellKeyed w → ∀ o, store !! callTarget c = Some o → keyOf (ObjMeta o) = CallKey c) →
  migFrame rp P w
    (AnnotatedEventf (CallKind c) m (revisionOf rp) "Normal" EventSeverityInfo msg
       (setObjects store (called c w)).2).2.
Proof.
  intros Hmut HP Htarget Hcreated Hother Hown. split; try done.
  { intros Hk k key o Ho. cbn in Ho.
    destruct (decide ((k, key) = callTarget c)) as [Heq|Hne].
    - rewrite Heq in Ho. rewrite (Hown Hk o Ho). unfold callTarget in Heq. congruence.
    - rewrite Hother in Ho by done. by apply (Hk k). }
  exists [c], [mkEvent (CallKind c) (Namespace m, Name m) (revisionOf rp) "Normal"
                 EventSeverityInfo msg].
  split_and!; try done.
  - by apply Forall_singleton.
  - unfold mutations. cbn. rewrite decide_True by done. cbn. by rewrite Htarget.
  - by apply Forall_singleton.
  - intros kk. unfold mutations. cbn. rewrite decide_True by done. cbn.
    destruct (decide (kk = callTarget c)) as [->|Hkk]; [right; by apply list_elem_of_singleton|].
    left. by apply Hother.
Qed.

Lemma updateAndReport_migFrame rp (P : Call → Prop) k copy updateLabel msg errs :
  P (mkCall VUpdate k (keyOf (ObjMeta copy))) →
  changes (migFrame rp P) (updateAndReport rp k copy updateLabel msg errs).
Proof.
  intros HP w. unfold updateAndReport, Update. rewrite !run_bind. cbn.
  destruct (faults w _); cbn.
  { apply (mutation_migFrame rp P (mkCall VUpdate k (keyOf (ObjMeta copy))) (ObjMeta copy) msg
             (objects w) w); try done. intros Hk o' Ho'. by apply (Hk k). }
  destruct (objects w !! (k, keyOf (ObjMeta copy))) eqn:Ho; cbn.
  - apply (mutation_migFrame rp P (mkCall VUpdate k (keyOf (ObjMeta copy))) (ObjMeta copy) msg
             (<[(k, keyOf (ObjMeta copy)) := copy]> (objects w)) w); try done.
    + intros kk Hnone. rewrite lookup_insert_ne; [done|]. intros <-. congruence.
    + intros kk Hkk. by rewrite lookup_insert_ne.
    + intros _ o'. unfold callTarget. cbn. rewrite lookup_insert_eq. by intros [= <-].
  - apply (mutation_migFrame rp P (mkCall VUpdate k (keyOf (ObjMeta copy))) (ObjMeta copy) msg
             (objects w) w); try done. intros Hk o' Ho'. by apply (Hk k).
Qed.

Lemma deleteAndReport_migFrame rp (P : Call → Prop) k obj policy deleteLabel msg errs :
  P (mkCall (VDelete policy) k (keyOf (ObjMeta obj))) →
  changes (migFrame rp P) (deleteAndReport rp k obj policy deleteLabel msg errs).
Proof.
  intros HP w. unfold deleteAndReport, Delete. rewrite !run_bind. cbn.
  destruct (faults w _); cbn.
  { apply (mutation_migFrame rp P (mkCall (VDelete policy) k (keyOf (ObjMeta obj)))
             (ObjMeta obj) msg (objects w) w); try done. intros Hk o' Ho'. by apply (Hk k). }
  destruct (objects w !! (k, keyOf (ObjMeta obj))) eqn:Ho; cbn.
  - apply (mutation_migFrame rp P (mkCall (VDelete policy) k (keyOf (ObjMeta obj)))
             (ObjMeta obj) msg (delete (k, keyOf (ObjMeta obj)) (objects w)) w); try done.
    + intros kk Hnone. destruct (decide (kk = (k, keyOf (ObjMeta obj)))) as [->|Hne].
      * apply lookup_delete_eq.
      * by rewrite lookup_delete_ne.
    + intros kk Hkk. by rewrite lookup_delete_ne.
    + intros _ o'. unfold callTarget. cbn. by rewrite lookup_delete_eq.
  - apply (mutation_migFrame rp P (mkCall (VDelete policy) k (keyOf (ObjMeta obj)))
             (ObjMeta obj) msg (objects w) w); try done. intros Hk o' Ho'. by apply (Hk k).
Qed.

Lemma adopt_migFrame rp k key getLabel stale mutate updateLabel msg errs :
  changes (migFrame rp (adoptCall k))
    (adopt rp k key getLabel stale mutate updateLabel msg errs).
Proof.
  apply changes_bind; [apply _| |intros [obj|err]].
  - apply Get_migFrame. split; [done|by left].
  - destruct (stale obj); [|apply changes_ret, _].
    apply updateAndReport_migFrame. split; [done|by right].
  - apply changes_ret, _.
Qed.

Lemma migratePodItems_migFrame rp items errs :
  changes (migFrame rp podCall) (migratePodItems rp items errs).
Proof.
  revert errs. induction items as [|pod rest IH]; intros errs; simpl.
  - apply changes_ret, _.
  - destruct (podSettled pod); [apply IH|].
    apply changes_bind; [apply _| |intros errs'; apply IH].
    apply updateAndReport_migFrame. split; [done|by right].
Qed.

Lemma migratePods_migFrame rp errs : changes (migFrame rp podCall) (migratePods rp errs).
Proof.
  apply changes_bind; [apply _| |intros [items|err]].
  - apply ListPods_migFrame. split; [done|by left].
  - apply migratePodItems_migFrame.
  - apply changes_ret, _.
Qed.

Lemma migratePrefix_migFrame rp : changes (migFrame rp prefixCall) (migratePrefix rp).
Proof.
  unfold migratePrefix, prefixCall.
  apply changes_bind; [apply _| |intros ?].
  { eapply changes_weaken; [|apply adopt_migFrame]. tauto. }
  apply changes_bind; [apply _| |intros ?].
  { eapply changes_weaken; [|apply adopt_migFrame]. tauto. }
  apply changes_bind; [apply _| |intros ?].
  { eapply changes_weaken; [|apply migratePods_migFrame]. tauto. }
  apply changes_bind; [apply _| |intros ?].
  { eapply changes_weaken; [|apply adopt_migFrame]. tauto. }
  apply changes_bind; [apply _| |intros ?].
  { eapply changes_weaken; [|apply adopt_migFrame]. tauto. }
  apply changes_bind; [apply _| |intros ?].
  { eapply changes_weaken; [|apply adopt_migFrame]. tauto. }
  eapply changes_weaken; [|apply adopt_migFrame]. tauto.
Qed.

Lemma migrateStatefulSet_migFrame rp errs :
  changes (migFrame rp statefulSetCall) (migrateStatefulSet rp errs).
Proof.
  apply changes_bind; [apply _| |intros [sts|err]].
  - apply Get_migFrame. split; [done|by left].
  - destruct (negb _); [|apply changes_ret, _].
    apply changes_bind; [apply _| |intros ?; apply changes_ret, _].
    apply deleteAndReport_migFrame. split; [done|by right].
  - apply changes_ret, _.
Qed.

Lemma migrateConsoleDeployment_migFrame rp sts errs :
  changes (migFrame rp deploymentCall) (migrateConsoleDeployment rp sts errs).
Proof.
  apply changes_bind; [apply _| |intros [deploy|err]].
  - apply Get_migFrame. split; [done|by left].
  - destruct (negb _); [|apply changes_ret, _].
    apply deleteAndReport_migFrame. split; [done|by right].
  - apply changes_ret, _.
Qed.

Lemma prefixCall_migrationCall c : prefixCall c → migrationCall c.
Proof.
  unfold prefixCall, podCall, adoptCall, migrationCall.
  intros [[-> [-> | ->]] | [[-> [-> | ->]] | [[-> [-> | ->]] | [[-> [-> | ->]]
    | [[-> [-> | ->]] | [-> [-> | ->]]]]]]]; first [done|by repeat constructor].
Qed.

Lemma adoptCall_migrationCall k c :
  k ∈ [ServiceAccount; Service; Ingress] → adoptCall k c → migrationCall c.
Proof.
  unfold adoptCall, migrationCall. intros Hk [-> [-> | ->]];
    repeat (apply elem_of_cons in Hk as [-> | Hk]; [by repeat constructor|]);
    by apply elem_of_nil in Hk.
Qed.

Lemma statefulSetCall_migrationCall c : statefulSetCall c → migrationCall c.
Proof.
  unfold statefulSetCall, migrationCall. intros [-> [-> | ->]];
    [by repeat constructor|by left].
Qed.

Lemma deploymentCall_migrationCall c : deploymentCall c → migrationCall c.
Proof.
  unfold deploymentCall, migrationCall. intros [-> [-> | ->]];
    [by repeat constructor|by right].
Qed.

Lemma migrateConsoleBlock_migFrame rp sts errs :
  changes (migFrame rp migrationCall) (migrateConsoleBlock rp sts errs).
Proof.
  unfold migrateConsoleBlock. destruct (consoleEnabled rp); [|apply changes_ret, _].
  apply changes_bind; [apply _| |intros ?].
  { eapply changes_weaken; [|apply adopt_migFrame].
    intros c. apply adoptCall_migrationCall. by repeat constructor. }
  apply changes_bind; [apply _| |intros ?].
  { eapply changes_weaken; [|apply adopt_migFrame].
    intros c. apply adoptCall_migrationCall. by repeat constructor. }
  apply changes_bind; [apply _| |intros ?].
  { eapply changes_weaken; [|apply migrateConsoleDeployment_migFrame].
    apply deploymentCall_migrationCall. }
  eapply changes_weaken; [|apply adopt_migFrame].
  intros c. apply adoptCall_migrationCall. by repeat constructor.
Qed.

Lemma tryMigration_migFrame rp : changes (migFrame rp migrationCall) (tryMigration rp).
Proof.
  intros w. rewrite tryMigration_split. cbn zeta.
  etrans; [|apply migrateConsoleBlock_migFrame].
  etrans; [|eapply migFrame_weaken;
             [apply statefulSetCall_migrationCall|apply migrateStatefulSet_migFrame]].
  eapply migFrame_weaken; [apply prefixCall_migrationCall|apply migratePrefix_migFrame].
Qed.

(** Property X9.  Whatever the API server holds and refuses,
    [tryMigration] issues only reads of the kinds it looks up, the pod
    listing, updates of the kinds it adopts, the delete of a StatefulSet
    with orphan propagation and the delete of a Deployment without option;
    it leaves HelmReleases and parents as they are, creates no object, and
    an object differs afterwards only if a mutating call was aimed at
    it. *)
Theorem tryMigration_only_adopts (rp : RedpandaT) (w : World) :
  let w' := (tryMigration rp w).2 in
  Forall migrationCall (issued (tryMigration rp) w)
  ∧ releases w' = releases w
  ∧ parents w' = parents w
  ∧ (∀ kk, objects w !! kk = None → objects w' !! kk = None)
  ∧ (∀ kk, objects w' !! kk = objects w !! kk
           ∨ ∃ c, c ∈ issued (tryMigration rp) w ∧ isMutation c = true ∧ callTarget c = kk).
Proof.
  cbn zeta.
  destruct (tryMigration_migFrame rp w)
    as [_ Hr Hp _ Hc _ (newc & newe & Hcalls & _ & HP & _ & _ & Hobj)].
  rewrite (issued_new _ _ _ Hcalls). split_and!; try done.
  intros kk. destruct (Hobj kk) as [?|Hin]; [by left|right].
  apply list_elem_of_fmap in Hin as (c & -> & Hc').
  apply list_elem_of_filter in Hc' as [Hmut Hin]. by exists c.
Qed.

(** Property X10.  [tryMigration] records exactly one event for every
    update or delete it issues, in the same order and attached to the
    object the call was aimed at, whether the call went through or not;
    every event is of type Normal, of severity info, and carries the
    parent's last attempted revision. *)
Theorem tryMigration_one_event_per_mutation (rp : RedpandaT) (w : World) :
  eventTarget <$> emitted (tryMigration rp) w
  = callTarget <$> mutations (issued (tryMigration rp) w)
  ∧ Forall (λ e, EvType e = "Normal" ∧ EvReason e = EventSeverityInfo
                 ∧ EvRevision e = Some (LastAttemptedRevision (Status rp)))
      (emitted (tryMigration rp) w).
Proof.
  destruct (tryMigration_migFrame rp w)
    as [_ _ _ _ _ _ (newc & newe & Hcalls & Hev & _ & Hpair & Hty & _)].
  by rewrite (issued_new _ _ _ Hcalls), (emitted_new _ _ _ Hev).
Qed.

Lemma migFrame_fetched (rp : RedpandaT) (P : Call → Prop) (w w' : World) (k : Kind) (key : Key) :
  migFrame rp P w w' → (∀ c, P c → isMutation c = true → CallKind c ≠ k) →
  fetched w' k key = fetched w k key.
Proof.
  intros [Hf _ _ _ _ _ (newc & _ & _ & _ & HP & _ & _ & Hobj)] Hk.
  unfold fetched. rewrite Hf. destruct (faults w _); [done|].
  destruct (Hobj (k, key)) as [?|Hin]; [done|].
  apply list_elem_of_fmap in Hin as (c & Hc & Hin).
  apply list_elem_of_filter in Hin as [Hmut Hin].
  rewrite Forall_forall in HP. specialize (Hk c (HP c Hin) Hmut).
  unfold callTarget in Hc. congruence.
Qed.

Lemma migFrame_calls (rp : RedpandaT) (P : Call → Prop) (w w' : World) :
  migFrame rp P w w' → ∃ new, calls w' = new ++ calls w ∧ Forall P new.
Proof. intros [_ _ _ _ _ _ (newc & _ & Hc & _ & HP & _)]. by exists newc. Qed.

Lemma deploymentDeletes_none (P : Call → Prop) (l : list Call) :
  Forall P l → (∀ c, P c → CallKind c ≠ Deployment) → deploymentDeletes l = [].
Proof.
  intros HP Hk. unfold deploymentDeletes. induction HP as [|c l Hc _ IH]; [done|].
  rewrite filter_cons_False; [done|]. intros [Hkind _]. by apply (Hk c).
Qed.

Lemma migrateStatefulSet_var (rp : RedpandaT) (errs : list error) (w : World) :
  (migrateStatefulSet rp errs w).1.1
  = default emptyObject (fetched w StatefulSet (Namespace (RpMeta rp), resourcesNameOf rp)).
Proof.
  unfold migrateStatefulSet, fetched, Get. rewrite !run_bind. cbn.
  destruct (faults w _); [done|]. cbn.
  destruct (objects w !! _) as [sts|]; [|done]. cbn.
  destruct (negb _); [|done]. rewrite run_bind.
  by destruct (deleteAndReport _ _ _ _ _ _ _ _).
Qed.

Lemma hasLabelsAndAnnotations_empty (rp : RedpandaT) :
  hasLabelsAndAnnotations emptyObject rp = false.
Proof. by rewrite hasLabelsAndAnnotations_spec. Qed.

Lemma migrateConsoleDeployment_calls (rp : RedpandaT) (sts : Object) (errs : list error)
    (w : World) :
  let key := (Namespace (RpMeta rp), consoleResourcesNameOf rp) in
  calls (migrateConsoleDeployment rp sts errs w).2
  = match fetched w Deployment key with
    | Some deploy =>
        if hasLabelsAndAnnotations sts rp then []
        else [mkCall (VDelete None) Deployment (keyOf (ObjMeta deploy))]
    | None => []
    end ++ mkCall VGet Deployment key :: calls w.
Proof.
  cbn zeta. unfold migrateConsoleDeployment, fetched, Get. rewrite !run_bind. cbn.
  destruct (faults w _); [done|]. cbn.
  destruct (objects w !! _) as [deploy|]; [|done]. cbn.
  destruct (hasLabelsAndAnnotations sts rp); [done|]. cbn.
  unfold deleteAndReport, Delete. rewrite !run_bind. cbn.
  destruct (faults w (mkCall (VDelete None) _ _)); [done|]. cbn.
  by destruct (objects w !! (Deployment, _)).
Qed.

Lemma migrateConsoleBlock_split (rp : RedpandaT) (sts : Object) (errs : list error) (w : World) :
  consoleEnabled rp = true →
  migrateConsoleBlock rp sts errs w
  = (let a := migrateConsoleServiceAccount rp errs w in
     let b := migrateConsoleService rp a.1 a.2 in
     let c := migrateConsoleDeployment rp sts b.1 b.2 in
     migrateConsoleIngress rp c.1 c.2).
Proof.
  intros He. unfold migrateConsoleBlock. rewrite He. by rewrite !run_bind.
Qed.

(** Property X11.  With the console enabled, [tryMigration] deletes
    the console Deployment exactly when the Deployment can be read and the
    StatefulSet either could not be read or was read without the Helm
    markers; it is then deleted once, without propagation option.  The
    markers of the Deployment itself play no part, and with the console
    disabled no Deployment is deleted. *)
Theorem console_deployment_deleted_iff (rp : RedpandaT) (w : World) :
  deploymentDeletes (issued (tryMigration rp) w)
  = if consoleEnabled rp
    then match fetched w Deployment (Namespace (RpMeta rp), consoleResourcesNameOf rp) with
         | None => []
         | Some deploy =>
             match fetched w StatefulSet (Namespace (RpMeta rp), resourcesNameOf rp) with
             | Some sts =>
                 if hasLabelsAndAnnotations sts rp then []
                 else [mkCall (VDelete None) Deployment (keyOf (ObjMeta deploy))]
             | None => [mkCall (VDelete None) Deployment (keyOf (ObjMeta deploy))]
             end
         end
    else [].
Proof.
  pose proof (migratePrefix_migFrame rp w) as Hpre.
  set (pre := migratePrefix rp w) in *.
  pose proof (migrateStatefulSet_migFrame rp pre.1 pre.2) as Hmid.
  pose proof (migrateStatefulSet_var rp pre.1 pre.2) as Hvar.
  set (mid := migrateStatefulSet rp pre.1 pre.2) in *.
  assert (∀ c, prefixCall c → CallKind c ≠ Deployment ∧ CallKind c ≠ StatefulSet) as Hpk.
  { unfold prefixCall, podCall, adoptCall. intros c H. split; intros Hk; rewrite Hk in H;
      destruct H as [[? _]|[[? _]|[[? _]|[[? _]|[[? _]|[? _]]]]]]; discriminate. }
  assert (∀ c, statefulSetCall c → CallKind c ≠ Deployment) as Hsk.
  { intros c [Hk _]. by rewrite Hk. }
  rewrite (migFrame_fetched _ _ _ _ _ _ Hpre) in Hvar by (intros c Hc _; by apply Hpk).
  destruct (migFrame_calls _ _ _ _ Hpre) as (n1 & Hc1 & HP1).
  destruct (migFrame_calls _ _ _ _ Hmid) as (n2 & Hc2 & HP2).
  assert (fetched mid.2 Deployment (Namespace (RpMeta rp), consoleResourcesNameOf rp)
          = fetched w Deployment (Namespace (RpMeta rp), consoleResourcesNameOf rp)) as Hdep.
  { rewrite (migFrame_fetched _ _ _ _ _ _ Hmid) by (intros c Hc _; by apply Hsk).
    apply (migFrame_fetched _ _ _ _ _ _ Hpre). intros c Hc _. by apply Hpk. }
  assert (deploymentDeletes (n2 ++ n1) = []) as Hearly.
  { unfold deploymentDeletes. rewrite filter_app.
    fold (deploymentDeletes n2). fold (deploymentDeletes n1).
    rewrite (deploymentDeletes_none _ _ HP2 Hsk).
    by rewrite (deploymentDeletes_none _ _ HP1 (λ c Hc, proj1 (Hpk c Hc))). }
  assert (issued (tryMigration rp) w
          = take (length (calls (migrateConsoleBlock rp mid.1.1 mid.1.2 mid.2).2)
                  - length (calls w))
              (calls (migrateConsoleBlock rp mid.1.1 mid.1.2 mid.2).2)) as Hissued.
  { unfold issued. by rewrite tryMigration_split. }
  rewrite Hissued. clear Hissued.
  destruct (consoleEnabled rp) eqn:He.
  2:{ unfold migrateConsoleBlock. rewrite He. cbn. rewrite Hc2, Hc1, app_assoc, take_new.
      exact Hearly. }
  rewrite migrateConsoleBlock_split by done. cbn zeta.
  pose proof (adopt_migFrame rp ServiceAccount (Namespace (RpMeta rp), consoleResourcesNameOf rp)
                ("get console service account (" +:+ consoleResourcesNameOf rp +:+ ")")
                (unmarked rp) (mark rp) "updating console service account"
                "update console ServiceAccount" mid.1.2 mid.2) as Ha.
  fold (migrateConsoleServiceAccount rp mid.1.2) in Ha.
  set (a := migrateConsoleServiceAccount rp mid.1.2 mid.2) in *.
  pose proof (adopt_migFrame rp Service (Namespace (RpMeta rp), consoleResourcesNameOf rp)
                ("get console service (" +:+ consoleResourcesNameOf rp +:+ ")")
                (serviceStale rp "console") (serviceMutate rp "console")
                "updating console service" "update console Service" a.1 a.2) as Hb.
  fold (migrateConsoleService rp a.1) in Hb.
  set (b := migrateConsoleService rp a.1 a.2) in *.
  pose proof (migrateConsoleDeployment_calls rp mid.1.1 b.1 b.2) as Hc.
  cbn zeta in Hc.
  set (c := migrateConsoleDeployment rp mid.1.1 b.1 b.2) in *.
  pose proof (adopt_migFrame rp Ingress (Namespace (RpMeta rp), consoleResourcesNameOf rp)
                ("get console ingress (" +:+ consoleResourcesNameOf rp +:+ ")")
                (unmarked rp) (mark rp) "updating console ingress"
                "update console Ingress" c.1 c.2) as Hd.
  fold (migrateConsoleIngress rp c.1) in Hd.
  destruct (migFrame_calls _ _ _ _ Ha) as (n3 & Hc3 & HP3).
  destruct (migFrame_calls _ _ _ _ Hb) as (n4 & Hc4 & HP4).
  destruct (migFrame_calls _ _ _ _ Hd) as (n6 & Hc6 & HP6).
  assert (fetched b.2 Deployment (Namespace (RpMeta rp), consoleResourcesNameOf rp)
          = fetched w Deployment (Namespace (RpMeta rp), consoleResourcesNameOf rp)) as Hdep'.
  { rewrite (migFrame_fetched _ _ _ _ _ _ Hb) by (intros ? [Hk _] _; by rewrite Hk).
    rewrite (migFrame_fetched _ _ _ _ _ _ Ha) by (intros ? [Hk _] _; by rewrite Hk).
    exact Hdep. }
  rewrite Hdep' in Hc.
  rewrite Hc6, Hc, Hc4, Hc3, Hc2, Hc1.
  set (dels := match fetched w Deployment _ with Some _ => _ | None => _ end) in *.
  replace (n6 ++ dels ++ mkCall VGet Deployment (Namespace (RpMeta rp), consoleResourcesNameOf rp)
             :: n4 ++ n3 ++ n2 ++ n1 ++ calls w)
    with ((n6 ++ dels ++ mkCall VGet Deployment (Namespace (RpMeta rp), consoleResourcesNameOf rp)
             :: n4 ++ n3 ++ n2 ++ n1) ++ calls w)
    by (by rewrite <- !app_assoc; cbn; rewrite <- !app_assoc).
  rewrite take_new. unfold deploymentDeletes. rewrite !filter_app, filter_cons_False.
  2:{ by intros [_ ?]. }
  rewrite !filter_app.
  fold (deploymentDeletes n6) (deploymentDeletes n4) (deploymentDeletes n3)
    (deploymentDeletes n2) (deploymentDeletes n1).
  rewrite (deploymentDeletes_none _ _ HP6) by (intros ? [Hk _]; by rewrite Hk).
  rewrite (deploymentDeletes_none _ _ HP4) by (intros ? [Hk _]; by rewrite Hk).
  rewrite (deploymentDeletes_none _ _ HP3) by (intros ? [Hk _]; by rewrite Hk).
  rewrite (deploymentDeletes_none _ _ HP2 Hsk).
  rewrite (deploymentDeletes_none _ _ HP1 (λ c Hc, proj1 (Hpk c Hc))).
  rewrite !app_nil_r. cbn [app]. subst dels. rewrite Hvar.
  destruct (fetched w Deployment _) as [deploy|]; [|done].
  destruct (fetched w StatefulSet _) as [sts|]; cbn [default from_option id].
  - destruct (hasLabelsAndAnnotations sts rp); [done|].
    by rewrite filter_cons_True.
  - rewrite hasLabelsAndAnnotations_empty. by rewrite filter_cons_True.
Qed.

Lemma append_not_self (s t : string) : t ≠ "" → s +:+ t ≠ s.
Proof.
  intros Ht. induction s as [|a s IH]; cbn; [done|]. intros [= H]. by apply IH.
Qed.

Lemma migFrame_lookup (rp : RedpandaT) (P : Call → Prop) (w w' : World) (kk : Kind * Key) :
  migFrame rp P w w' → (∀ c, P c → isMutation c = true → callTarget c ≠ kk) →
  objects w' !! kk = objects w !! kk.
Proof.
  intros [_ _ _ _ _ _ (newc & _ & _ & _ & HP & _ & _ & Hobj)] Hk.
  destruct (Hobj kk) as [?|Hin]; [done|].
  apply list_elem_of_fmap in Hin as (c & Hc & Hin).
  apply list_elem_of_filter in Hin as [Hmut Hin].
  rewrite Forall_forall in HP. by destruct (Hk c (HP c Hin) Hmut).
Qed.

Lemma Get_result (k : Kind) (key : Key) (w : World) :
  (Get k key w).1
  = match faults w (mkCall VGet k key) with
    | Some msg => Err (ErrTransient msg)
    | None => match objects w !! (k, key) with
              | Some o => Ok o
              | None => Err (ErrNotFound k key)
              end
    end.
Proof.
  unfold Get. rewrite !run_bind. cbn. destruct (faults w _); [done|].
  by destruct (objects w !! _).
Qed.

(** Under [wellKeyed], an updating step only issues calls aimed at the
    object it looks up. *)
Lemma adopt_at (rp : RedpandaT) k key getLabel stale mutate updateLabel msg errs (w : World) :
  wellKeyed w →
  (∀ o, keyOf (ObjMeta (mutate o)) = keyOf (ObjMeta o)) →
  migFrame rp (aimedAt (k, key)) w (adopt rp k key getLabel stale mutate updateLabel msg errs w).2.
Proof.
  intros Hk Hm. unfold adopt. rewrite run_bind.
  pose proof (Get_result k key w) as Hres. pose proof (Get_world k key w) as Hw.
  destruct (Get k key w) as [r w1]. cbn [fst snd] in *. subst w1.
  assert (migFrame rp (aimedAt (k, key)) w (called (mkCall VGet k key) w)) as Hget.
  { by apply read_migFrame. }
  destruct r as [obj|err]; [|done].
  destruct (stale obj); [|done].
  etrans; [exact Hget|]. apply updateAndReport_migFrame.
  unfold aimedAt, callTarget. cbn. f_equal. rewrite Hm.
  destruct (faults w _); [done|].
  destruct (objects w !! (k, key)) as [o|] eqn:Ho; [|done].
  injection Hres as ->. by apply (Hk k).
Qed.

(** The effect of an updating step whose read and update are let through. *)
Lemma adopt_effect (rp : RedpandaT) k key getLabel stale mutate updateLabel msg errs
    (w : World) :
  wellKeyed w →
  (∀ o, keyOf (ObjMeta (mutate o)) = keyOf (ObjMeta o)) →
  faults w (mkCall VGet k key) = None →
  faults w (mkCall VUpdate k key) = None →
  let w' := (adopt rp k key getLabel stale mutate updateLabel msg errs w).2 in
  objects w' !! (k, key) = adopted stale mutate <$> objects w !! (k, key)
  ∧ calls w'
    = match objects w !! (k, key) with
      | Some o => if stale o then [mkCall VUpdate k key] else []
      | None => []
      end ++ mkCall VGet k key :: calls w.
Proof.
  intros Hk Hm HfG HfU. cbn zeta. unfold adopt, adopted. rewrite run_bind.
  destruct (objects w !! (k, key)) as [o|] eqn:Ho.
  2:{ rewrite Get_missing by done. cbn. by rewrite Ho. }
  rewrite (Get_found _ _ o) by done. cbn [fst snd].
  destruct (stale o) eqn:Hs.
  2:{ cbn. by rewrite Ho, Hs. }
  assert (keyOf (ObjMeta (mutate o)) = key) as Hkey.
  { rewrite Hm. by apply (Hk k). }
  unfold updateAndReport, Update. rewrite !run_bind. cbn. rewrite Hkey, HfU. cbn.
  rewrite Ho. cbn. rewrite !run_bind. cbn. by rewrite lookup_insert_eq, Hs.
Qed.

Lemma migratePrefix_split (rp : RedpandaT) (w : World) :
  migratePrefix rp w
  = (let a := migrateCluster rp [] w in
     let b := migrateConsole rp a.1 a.2 in
     let c := migratePods rp b.1 b.2 in
     let d := migrateInternalService rp c.1 c.2 in
     let e := migrateExternalService rp d.1 d.2 in
     let f := migrateServiceAccount rp e.1 e.2 in
     migratePodDisruptionBudget rp f.1 f.2).
Proof. unfold migratePrefix. by rewrite !run_bind. Qed.

Lemma serviceMutate_key rp component o :
  keyOf (ObjMeta (serviceMutate rp component o)) = keyOf (ObjMeta o).
Proof. reflexivity. Qed.

Lemma passes_trans kk w1 w2 w3 : passes kk w1 w2 → passes kk w2 w3 → passes kk w1 w3.
Proof.
  intros (Hf1 & Hk1 & Ho1 & n1 & Hc1) (Hf2 & Hk2 & Ho2 & n2 & Hc2).
  split_and!; [congruence|tauto|congruence|].
  exists (n2 ++ n1). by rewrite Hc2, Hc1, app_assoc.
Qed.

Lemma migFrame_passes (rp : RedpandaT) (P : Call → Prop) (kk : Kind * Key) (w1 w2 : World) :
  migFrame rp P w1 w2 → (∀ c, P c → isMutation c = true → callTarget c ≠ kk) →
  passes kk w1 w2.
Proof.
  intros Hfr Hk. split_and!.
  - apply Hfr.
  - apply Hfr.
  - by apply (migFrame_lookup rp P).
  - destruct (migFrame_calls _ _ _ _ Hfr) as (n & Hn & _). by exists n.
Qed.

Lemma issued_elem {A} (m : M A) (w w1 w2 : World) (c : Call) :
  (∃ n, calls w1 = n ++ calls w) →
  calls w2 = c :: calls w1 →
  (∃ n, calls (m w).2 = n ++ calls w2) →
  c ∈ issued m w.
Proof.
  intros [n1 H1] H2 [n3 H3]. unfold issued. rewrite H3, H2, H1.
  replace (n3 ++ c :: n1 ++ calls w) with ((n3 ++ c :: n1) ++ calls w)
    by (by rewrite <- app_assoc).
  rewrite take_new. apply elem_of_app. right. by left.
Qed.

Lemma adoptCall_other_kind (k k' : Kind) (key : Key) :
  k ≠ k' → ∀ c, adoptCall k c → isMutation c = true → callTarget c ≠ (k', key).
Proof. intros Hne c [Hk _] _. unfold callTarget. congruence. Qed.

Lemma migrateCluster_migFrame rp errs :
  changes (migFrame rp (adoptCall Cluster)) (migrateCluster rp errs).
Proof. apply adopt_migFrame. Qed.

Lemma migrateConsole_migFrame rp errs :
  changes (migFrame rp (adoptCall Console)) (migrateConsole rp errs).
Proof. apply adopt_migFrame. Qed.

Lemma migrateServiceAccount_migFrame rp errs :
  changes (migFrame rp (adoptCall ServiceAccount)) (migrateServiceAccount rp errs).
Proof. apply adopt_migFrame. Qed.

Lemma migratePodDisruptionBudget_migFrame rp errs :
  changes (migFrame rp (adoptCall PodDisruptionBudget)) (migratePodDisruptionBudget rp errs).
Proof. apply adopt_migFrame. Qed.

Lemma migrateConsoleServiceAccount_migFrame rp errs :
  changes (migFrame rp (adoptCall ServiceAccount)) (migrateConsoleServiceAccount rp errs).
Proof. apply adopt_migFrame. Qed.

Lemma migrateConsoleIngress_migFrame rp errs :
  changes (migFrame rp (adoptCall Ingress)) (migrateConsoleIngress rp errs).
Proof. apply adopt_migFrame. Qed.

Lemma migrateExternalService_at rp errs w :
  wellKeyed w →
  migFrame rp (aimedAt (Service, (Namespace (RpMeta rp), resourcesNameOf rp +:+ "-external")))
    w (migrateExternalService rp errs w).2.
Proof. intros Hk. by apply adopt_at. Qed.

(** Property X12.  When the console is enabled and has no name of its
    own, the broker step and the console step of [tryMigration] look up the
    same Service.  If that Service is stored and its read and update are
    not refused, every run updates it and leaves it with the console's
    selector, which fails the broker step's check: the next run finds it
    stale again. *)
Theorem aliased_service_is_rewritten_every_run (rp : RedpandaT) (w : World) (svc : Object) :
  let key := (Namespace (RpMeta rp), resourcesNameOf rp) in
  let w' := (tryMigration rp w).2 in
  consoleEnabled rp = true →
  consoleResourcesNameOf rp = resourcesNameOf rp →
  wellKeyed w →
  faults w (mkCall VGet Service key) = None →
  faults w (mkCall VUpdate Service key) = None →
  objects w !! (Service, key) = Some svc →
  mkCall VUpdate Service key ∈ issued (tryMigration rp) w
  ∧ (∃ svc', objects w' !! (Service, key) = Some svc'
             ∧ Selector svc' = componentSelector rp "console"
             ∧ serviceStale rp "redpanda" svc' = true)
  ∧ wellKeyed w'
  ∧ faults w' = faults w.
Proof.
  intros key w' He Halias Hk HfG HfU Hsvc. subst w'.
  rewrite tryMigration_split. cbn zeta. rewrite migratePrefix_split. cbn zeta.
  rewrite migrateConsoleBlock_split by done. cbn zeta.
  (* the steps before the internal Service *)
  set (a := migrateCluster rp [] w).
  set (b := migrateConsole rp a.1 a.2).
  set (c := migratePods rp b.1 b.2).
  assert (passes (Service, key) w c.2) as Hc.
  { apply (passes_trans _ _ a.2); [|apply (passes_trans _ _ b.2)].
    - apply (migFrame_passes rp (adoptCall Cluster)); [apply migrateCluster_migFrame|].
      by apply adoptCall_other_kind.
    - apply (migFrame_passes rp (adoptCall Console)); [apply migrateConsole_migFrame|].
      by apply adoptCall_other_kind.
    - apply (migFrame_passes rp podCall); [apply migratePods_migFrame|].
      intros ? [Hkind _] _. unfold callTarget. congruence. }
  destruct Hc as (Hfc & Hkc & Hoc & Hcc). specialize (Hkc Hk).
  (* the internal Service *)
  set (d := migrateInternalService rp c.1 c.2).
  assert (objects d.2 !! (Service, key)
          = adopted (serviceStale rp "redpanda") (serviceMutate rp "redpanda")
              <$> objects c.2 !! (Service, key)
          ∧ calls d.2
            = match objects c.2 !! (Service, key) with
              | Some o => if serviceStale rp "redpanda" o then [mkCall VUpdate Service key] else []
              | None => []
              end ++ mkCall VGet Service key :: calls c.2) as [Hod Hcd].
  { apply (adopt_effect rp Service key); [done|apply serviceMutate_key| |]; by rewrite Hfc. }
  assert (migFrame rp (aimedAt (Service, key)) c.2 d.2) as Hd.
  { apply (adopt_at rp Service key); [done|apply serviceMutate_key]. }
  rewrite Hoc, Hsvc in Hod. cbn in Hod.
  set (s1 := adopted (serviceStale rp "redpanda") (serviceMutate rp "redpanda") svc) in *.
  assert (serviceStale rp "redpanda" s1 = false) as Hs1.
  { subst s1. unfold adopted. destruct (serviceStale rp "redpanda" svc) eqn:Hst; [|done].
    apply serviceMutate_settled. }
  assert (faults d.2 = faults w) as Hfd by (rewrite <- Hfc; apply Hd).
  assert (wellKeyed d.2) as Hkd by (by apply Hd).
  (* from the external Service to the console ServiceAccount *)
  set (e := migrateExternalService rp d.1 d.2).
  set (f := migrateServiceAccount rp e.1 e.2).
  set (g := migratePodDisruptionBudget rp f.1 f.2).
  set (mid := migrateStatefulSet rp g.1 g.2).
  set (h := migrateConsoleServiceAccount rp mid.1.2 mid.2).
  assert (passes (Service, key) d.2 h.2) as Hh.
  { apply (passes_trans _ _ e.2); [|apply (passes_trans _ _ f.2);
      [|apply (passes_trans _ _ g.2); [|apply (passes_trans _ _ mid.2)]]].
    - apply (migFrame_passes rp (aimedAt (Service, (Namespace (RpMeta rp),
                                                    resourcesNameOf rp +:+ "-external"))));
        [by apply migrateExternalService_at|].
      intros ? Haim _. rewrite Haim. intros [= Hext]. by apply append_not_self in Hext.
    - apply (migFrame_passes rp (adoptCall ServiceAccount));
        [apply migrateServiceAccount_migFrame|]. by apply adoptCall_other_kind.
    - apply (migFrame_passes rp (adoptCall PodDisruptionBudget));
        [apply migratePodDisruptionBudget_migFrame|]. by apply adoptCall_other_kind.
    - apply (migFrame_passes rp statefulSetCall); [apply migrateStatefulSet_migFrame|].
      intros ? [Hkind _] _. unfold callTarget. congruence.
    - apply (migFrame_passes rp (adoptCall ServiceAccount));
        [apply migrateConsoleServiceAccount_migFrame|]. by apply adoptCall_other_kind. }
  destruct Hh as (Hfh & Hkh & Hoh & Hch). specialize (Hkh Hkd).
  (* the console Service: the same object *)
  set (i := migrateConsoleService rp h.1 h.2).
  assert (objects i.2 !! (Service, key)
          = adopted (serviceStale rp "console") (serviceMutate rp "console")
              <$> objects h.2 !! (Service, key)
          ∧ calls i.2
            = match objects h.2 !! (Service, key) with
              | Some o => if serviceStale rp "console" o then [mkCall VUpdate Service key] else []
              | None => []
              end ++ mkCall VGet Service key :: calls h.2) as [Hoi Hci].
  { subst i key. unfold migrateConsoleService. rewrite Halias.
    apply (adopt_effect rp Service); [done|apply serviceMutate_key| |];
      by rewrite Hfh, Hfd. }
  assert (migFrame rp (aimedAt (Service, key)) h.2 i.2) as Hi.
  { subst i key. unfold migrateConsoleService. rewrite Halias.
    apply (adopt_at rp Service); [done|apply serviceMutate_key]. }
  rewrite Hoh, Hod in Hoi, Hci. cbn in Hoi.
  assert (serviceStale rp "console" s1 = true) as Hs1c.
  { by apply (serviceStale_exclusive rp "redpanda"). }
  unfold adopted in Hoi. rewrite Hs1c in Hoi, Hci.
  assert (faults i.2 = faults w) as Hfi by (rewrite <- Hfd, <- Hfh; apply Hi).
  assert (wellKeyed i.2) as Hki by (by apply Hi).
  (* the console Deployment and Ingress *)
  set (j := migrateConsoleDeployment rp mid.1.1 i.1 i.2).
  set (fin := migrateConsoleIngress rp j.1 j.2).
  assert (passes (Service, key) i.2 fin.2) as Hfin.
  { apply (passes_trans _ _ j.2).
    - apply (migFrame_passes rp deploymentCall); [apply migrateConsoleDeployment_migFrame|].
      intros ? [Hkind _] _. unfold callTarget. congruence.
    - apply (migFrame_passes rp (adoptCall Ingress)); [apply migrateConsoleIngress_migFrame|].
      by apply adoptCall_other_kind. }
  destruct Hfin as (Hff & Hkf & Hof & Hcf). specialize (Hkf Hki).
  split_and!.
  - apply (issued_elem _ w (called (mkCall VGet Service key) h.2) i.2).
    + destruct Hcc as [n1 Hn1], Hch as [n2 Hn2]. rewrite Hcd in Hn2.
      eexists. cbn. rewrite Hn2, Hn1. rewrite !app_comm_cons, !app_assoc. reflexivity.
    + exact Hci.
    + rewrite tryMigration_split. cbn zeta. rewrite migratePrefix_split. cbn zeta.
      rewrite migrateConsoleBlock_split by done. exact Hcf.
  - exists (serviceMutate rp "console" s1). split_and!.
    + by rewrite Hof.
    + reflexivity.
    + apply (serviceStale_exclusive rp "console"); [done|]. apply serviceMutate_settled.
  - exact Hkf.
  - congruence.
Qed.

Lemma elem_of_selectPods (ns : string) (labels : gmap string string)
    (store : gmap (Kind * Key) Object) (o : Object) :
  o ∈ selectPods ns labels store
  ↔ ∃ key, store !! (Pod, key) = Some o ∧ key.1 = ns ∧ matchesLabels labels o = true.
Proof.
  unfold selectPods. rewrite list_elem_of_omap. split.
  - intros ([[k key] o'] & Hin & Hsel). apply elem_of_map_to_list in Hin.
    cbn in Hsel. case_bool_decide as Hk; [|done]. cbn in Hsel.
    destruct (matchesLabels labels o') eqn:Hm; [|done]. injection Hsel as ->.
    destruct Hk as [Hk Hns]. cbn in Hk, Hns. subst k. by exists key.
  - intros (key & Ho & Hns & Hm). exists ((Pod, key), o). split.
    + by apply elem_of_map_to_list.
    + cbn. rewrite bool_decide_true by done. cbn. by rewrite Hm.
Qed.

Lemma adopted_settled (stale : Object → bool) (mutate : Object → Object) (o : Object) :
  (∀ o, stale (mutate o) = false) → stale (adopted stale mutate o) = false.
Proof. intros Hm. unfold adopted. destruct (stale o) eqn:Hs; [apply Hm|done]. Qed.

(** An updating step on a world without faults: the object it looks up is
    replaced by its adopted form, nothing else changes. *)
Lemma adopt_step (rp : RedpandaT) k key getLabel stale mutate updateLabel msg errs (w : World) :
  faultless w → wellKeyed w →
  (∀ o, keyOf (ObjMeta (mutate o)) = keyOf (ObjMeta o)) →
  let w' := (adopt rp k key getLabel stale mutate updateLabel msg errs w).2 in
  faultless w' ∧ wellKeyed w'
  ∧ objects w' = alter (adopted stale mutate) (k, key) (objects w).
Proof.
  intros Hf Hk Hm w'.
  pose proof (adopt_at rp k key getLabel stale mutate updateLabel msg errs w Hk Hm) as Hat.
  destruct (adopt_effect rp k key getLabel stale mutate updateLabel msg errs w Hk Hm)
    as [Hown _]; [apply Hf|apply Hf|].
  fold w' in Hat, Hown. split_and!.
  - intros c. rewrite (mf_faults _ _ _ _ Hat). apply Hf.
  - by apply Hat.
  - apply map_eq. intros kk. destruct (decide (kk = (k, key))) as [->|Hne].
    + by rewrite lookup_alter_eq.
    + rewrite lookup_alter_ne by done. apply (migFrame_lookup _ _ _ _ _ Hat).
      intros c Haim _. by rewrite Haim.
Qed.

Lemma Update_present (k : Kind) (o : Object) (w : World) :
  faults w (mkCall VUpdate k (keyOf (ObjMeta o))) = None →
  is_Some (objects w !! (k, keyOf (ObjMeta o))) →
  objects (Update k o w).2 = <[(k, keyOf (ObjMeta o)) := o]> (objects w)
  ∧ faults (Update k o w).2 = faults w.
Proof.
  intros Hf [o' Ho]. unfold Update. rewrite !run_bind. cbn. rewrite Hf. cbn.
  rewrite Ho. cbn. by rewrite !run_bind.
Qed.

Lemma updateAndReport_world (rp : RedpandaT) k copy updateLabel msg errs (w : World) :
  (updateAndReport rp k copy updateLabel msg errs w).2
  = (AnnotatedEventf k (ObjMeta copy) (revisionOf rp) "Normal" EventSeverityInfo msg
       (Update k copy w).2).2.
Proof. unfold updateAndReport. rewrite !run_bind. done. Qed.

Lemma migratePodItems_settles (rp : RedpandaT) (items : list Object) :
  ∀ errs w,
    faultless w → wellKeyed w →
    (∀ pod, pod ∈ items → is_Some (objects w !! (Pod, keyOf (ObjMeta pod)))) →
    let w' := (migratePodItems rp items errs w).2 in
    ∀ key o', objects w' !! (Pod, key) = Some o' →
      podSettled o' = true ∨ (objects w !! (Pod, key) = Some o' ∧ o' ∉ items).
Proof.
  induction items as [|pod rest IH]; intros errs w Hf Hk Hpresent; cbn zeta.
  { intros key o' Ho'. right. split; [done|]. apply not_elem_of_nil. }
  cbn [migratePodItems]. destruct (podSettled pod) eqn:Hs.
  - intros key o' Ho'.
    destruct (IH errs w Hf Hk (λ p Hp, Hpresent p (list_elem_of_further _ _ _ Hp)) key o' Ho')
      as [?|[Horig Hnot]]; [by left|].
    destruct (podSettled o') eqn:Hs'; [by left|]. right. split; [done|].
    apply not_elem_of_cons. split; [|done]. intros ->. congruence.
  - rewrite run_bind, updateAndReport_world.
    destruct (Update_present Pod (podMutate pod) w) as [Hobj Hfaults].
    { apply Hf. }
    { apply (Hpresent pod). by left. }
    set (w1 := (AnnotatedEventf Pod (ObjMeta (podMutate pod)) (revisionOf rp) "Normal"
                  EventSeverityInfo "update Redpanda Pod" (Update Pod (podMutate pod) w).2).2).
    assert (objects w1 = <[(Pod, keyOf (ObjMeta pod)) := podMutate pod]> (objects w)) as Hobj1.
    { exact Hobj. }
    assert (faultless w1) as Hf1.
    { intros c. change (faults w1 c) with (faults (Update Pod (podMutate pod) w).2 c).
      rewrite Hfaults. apply Hf. }
    assert (wellKeyed w1) as Hk1.
    { intros k key o Ho. rewrite Hobj1 in Ho.
      destruct (decide ((k, key) = (Pod, keyOf (ObjMeta pod)))) as [[= -> ->]|Hne].
      - rewrite lookup_insert_eq in Ho. by injection Ho as <-.
      - rewrite lookup_insert_ne in Ho by done. by apply (Hk k). }
    intros key o' Ho'.
    destruct (IH (updateAndReport rp Pod (podMutate pod) "updating component Pod label"
                    "update Redpanda Pod" errs w).1 w1 Hf1 Hk1) with (key := key) (o' := o')
      as [?|[Horig Hnot]]; [|exact Ho'|by left|].
    { intros p Hp. rewrite Hobj1.
      destruct (decide ((Pod, keyOf (ObjMeta p)) = (Pod, keyOf (ObjMeta pod)))) as [->|Hne].
      - rewrite lookup_insert_eq. by eexists.
      - rewrite lookup_insert_ne by done. apply Hpresent. by right. }
    rewrite Hobj1 in Horig.
    destruct (decide (key = keyOf (ObjMeta pod))) as [->|Hne].
    + rewrite lookup_insert_eq in Horig. injection Horig as <-. left.
      apply podMutate_settled.
    + rewrite lookup_insert_ne in Horig by congruence. right. split; [done|].
      apply not_elem_of_cons. split; [|done]. intros ->.
      apply Hne. symmetry. by apply (Hk Pod).
Qed.

Lemma migratePods_settles (rp : RedpandaT) (errs : list error) (w : World) :
  faultless w → wellKeyed w →
  Forall (λ pod, podSettled pod = true)
    (selectPods (Namespace (RpMeta rp)) (podSelector rp) (objects (migratePods rp errs w).2)).
Proof.
  intros Hf Hk. apply Forall_forall. intros o' Hin.
  apply elem_of_selectPods in Hin as (key & Ho' & Hns & Hm).
  unfold migratePods, ListPods in Ho'. rewrite !run_bind in Ho'. cbn in Ho'.
  rewrite Hf in Ho'. cbn in Ho'.
  match type of Ho' with
  | objects (migratePodItems rp ?items ?e ?w0).2 !! _ = _ =>
      destruct (migratePodItems_settles rp items e w0) with (key := key) (o' := o')
        as [?|[Horig Hnot]]; [| | |exact Ho'|done|]
  end.
  - intros c. apply Hf.
  - exact Hk.
  - intros pod Hpod. apply elem_of_selectPods in Hpod as (key' & Hp & _ & _).
    cbn. rewrite (Hk Pod key' pod Hp). by rewrite Hp.
  - exfalso. apply Hnot. apply elem_of_selectPods. by exists key.
Qed.

Lemma isRedpandaClusterManaged_disabled (cluster : Object) :
  isRedpandaClusterManaged (disableRedpandaReconciliation cluster) = false.
Proof.
  unfold isRedpandaClusterManaged, disableRedpandaReconciliation. cbn.
  rewrite lookup_insert_eq. by rewrite bool_decide_true.
Qed.

Lemma consoleMutate_settled (console : Object) : consoleStale (consoleMutate console) = false.
Proof.
  unfold consoleStale. rewrite !orb_false_iff. split_and!.
  - unfold isConsoleManaged, consoleMutate. cbn. rewrite lookup_insert_eq.
    by rewrite bool_decide_true.
  - apply bool_decide_eq_false. unfold consoleMutate. cbn.
    rewrite !list_elem_of_filter. tauto.
  - apply bool_decide_eq_false. unfold consoleMutate. cbn.
    rewrite !list_elem_of_filter. tauto.
Qed.

Lemma mark_settled (rp : RedpandaT) (o : Object) : unmarked rp (mark rp o) = false.
Proof. unfold unmarked, mark. by rewrite hasLabelsAndAnnotations_set. Qed.

Lemma called_faultless c w : faultless w → faultless (called c w).
Proof. intros H c'. apply H. Qed.

Lemma called_wellKeyed c w : wellKeyed w → wellKeyed (called c w).
Proof. intros H k key o Ho. by apply (H k). Qed.

Lemma settledAt_lookup (w : World) k key stale (mutate : Object → Object) (x : option Object) :
  (∀ o, stale (mutate o) = false) →
  objects w !! (k, key) = adopted stale mutate <$> x →
  settledAt w k key stale.
Proof.
  intros Hm Hl o Ho. rewrite Hl in Ho. destruct x as [o0|]; [|done].
  injection Ho as <-. by apply adopted_settled.
Qed.

Ltac other_object :=
  first [ done
        | intros [= ?]; congruence
        | let H := fresh in intros [= H]; by apply append_not_self in H
        | let H := fresh in intros [= H]; symmetry in H; by apply append_not_self in H ].

(** Property X13.  With no call refused, objects stored under their own
    names, the console enabled under a name that is neither the broker's
    nor that of the external Service, and the StatefulSet present with the
    Helm markers, one run of [tryMigration] leaves everything migrated: a
    second run changes no object, records no event and issues its reads
    only. *)
Theorem tryMigration_settles_in_one_run (rp : RedpandaT) (w : World) (sts : Object) :
  let w' := (tryMigration rp w).2 in
  (∀ c, faults w c = None) →
  wellKeyed w →
  consoleEnabled rp = true →
  objects w !! (StatefulSet, (Namespace (RpMeta rp), resourcesNameOf rp)) = Some sts →
  hasLabelsAndAnnotations sts rp = true →
  consoleResourcesNameOf rp ≠ resourcesNameOf rp →
  consoleResourcesNameOf rp ≠ resourcesNameOf rp +:+ "-external" →
  AlreadyMigrated rp w'
  ∧ objects (tryMigration rp w').2 = objects w'
  ∧ emitted (tryMigration rp) w' = []
  ∧ issued (tryMigration rp) w' = migrationReads rp.
Proof.
  intros w' Hf Hk He Hsts Hm Hn1 Hn2.
  assert (AlreadyMigrated rp w') as Ham.
  2:{ pose proof (tryMigration_settled rp w' Ham) as Hrun. split_and!; [done| | |].
      - by rewrite Hrun, reads_objects.
      - apply (emitted_new _ _ []). by rewrite Hrun, reads_events.
      - apply issued_new. by rewrite Hrun, reads_calls. }
  subst w'. rewrite tryMigration_split. cbn zeta. rewrite migratePrefix_split. cbn zeta.
  rewrite migrateConsoleBlock_split by done. cbn zeta.
  (* Cluster and Console *)
  set (a := migrateCluster rp [] w).
  assert (faultless a.2 ∧ wellKeyed a.2
          ∧ objects a.2
            = alter (adopted isRedpandaClusterManaged disableRedpandaReconciliation)
                (Cluster, clusterKeyOf rp) (objects w)) as (Hfa & Hka & Hoa).
  { by apply (adopt_step rp Cluster). }
  set (b := migrateConsole rp a.1 a.2).
  assert (faultless b.2 ∧ wellKeyed b.2
          ∧ objects b.2
            = alter (adopted consoleStale consoleMutate) (Console, consoleKeyOf rp)
                (objects a.2)) as (Hfb & Hkb & Hob).
  { by apply (adopt_step rp Console). }
  (* the pods *)
  set (c := migratePods rp b.1 b.2).
  pose proof (migratePods_migFrame rp b.1 b.2) as Hc. fold c in Hc.
  assert (faultless c.2) as Hfc.
  { intros call. rewrite (mf_faults _ _ _ _ Hc). apply Hfb. }
  assert (wellKeyed c.2) as Hkc by (by apply Hc).
  pose proof (migratePods_settles rp b.1 b.2 Hfb Hkb) as Hpods. fold c in Hpods.
  assert (∀ k key, k ≠ Pod → objects c.2 !! (k, key) = objects b.2 !! (k, key)) as Hoc.
  { intros k key Hkind. apply (migFrame_lookup _ _ _ _ _ Hc).
    intros ? [Hkind' _] _. unfold callTarget. congruence. }
  (* the Services, the ServiceAccount, the PodDisruptionBudget *)
  set (d := migrateInternalService rp c.1 c.2).
  assert (faultless d.2 ∧ wellKeyed d.2
          ∧ objects d.2
            = alter (adopted (serviceStale rp "redpanda") (serviceMutate rp "redpanda"))
                (Service, (Namespace (RpMeta rp), resourcesNameOf rp)) (objects c.2)) as (Hfd &
                    Hkd & Hod).
  { by apply (adopt_step rp Service). }
  set (e := migrateExternalService rp d.1 d.2).
  assert (faultless e.2 ∧ wellKeyed e.2
          ∧ objects e.2
            = alter (adopted (unmarked rp) (mark rp)) (Service, (Namespace (RpMeta rp),
                resourcesNameOf rp +:+ "-external"))
                (objects d.2)) as (Hfe & Hke & Hoe).
  { by apply (adopt_step rp Service). }
  set (f := migrateServiceAccount rp e.1 e.2).
  assert (faultless f.2 ∧ wellKeyed f.2
          ∧ objects f.2
            = alter (adopted (unmarked rp) (mark rp)) (ServiceAccount, (Namespace (RpMeta rp),
                resourcesNameOf rp))
                (objects e.2)) as (Hff & Hkf & Hof).
  { by apply (adopt_step rp ServiceAccount). }
  set (g := migratePodDisruptionBudget rp f.1 f.2).
  assert (faultless g.2 ∧ wellKeyed g.2
          ∧ objects g.2
            = alter (adopted (unmarked rp) (mark rp)) (PodDisruptionBudget, (Namespace (RpMeta
                rp), resourcesNameOf rp))
                (objects f.2)) as (Hfg & Hkg & Hog).
  { by apply (adopt_step rp PodDisruptionBudget). }
  (* the StatefulSet: there and marked, so only read *)
  assert (objects g.2 !! (StatefulSet, (Namespace (RpMeta rp), resourcesNameOf rp)) = Some sts) as
      Hsts_g.
  { rewrite Hog, lookup_alter_ne by done. rewrite Hof, lookup_alter_ne by done.
    rewrite Hoe, lookup_alter_ne by done. rewrite Hod, lookup_alter_ne by done.
    rewrite Hoc by done. rewrite Hob, lookup_alter_ne by done.
    rewrite Hoa, lookup_alter_ne by done. exact Hsts. }
  rewrite (migrateStatefulSet_settled rp g.1 g.2 sts (Hfg _) Hsts_g Hm). cbn [fst snd].
  set (mid := called (mkCall VGet StatefulSet (Namespace (RpMeta rp), resourcesNameOf rp)) g.2).
  (* the console ServiceAccount and Service *)
  set (h := migrateConsoleServiceAccount rp g.1 mid).
  assert (faultless h.2 ∧ wellKeyed h.2
          ∧ objects h.2
            = alter (adopted (unmarked rp) (mark rp)) (ServiceAccount, (Namespace (RpMeta rp),
                consoleResourcesNameOf rp))
                (objects g.2)) as (Hfh & Hkh & Hoh).
  { change (objects g.2) with (objects mid). apply (adopt_step rp ServiceAccount);
      [by apply called_faultless|by apply called_wellKeyed|done]. }
  set (i := migrateConsoleService rp h.1 h.2).
  assert (faultless i.2 ∧ wellKeyed i.2
          ∧ objects i.2
            = alter (adopted (serviceStale rp "console") (serviceMutate rp "console"))
                (Service, (Namespace (RpMeta rp), consoleResourcesNameOf rp)) (objects h.2)) as
                    (Hfi & Hki & Hoi).
  { by apply (adopt_step rp Service). }
  (* the console Deployment: only read, the StatefulSet being marked *)
  set (j := migrateConsoleDeployment rp sts i.1 i.2).
  pose proof (migrateConsoleDeployment_settled rp sts i.1 i.2 Hm) as Hj. fold j in Hj.
  (* the console Ingress *)
  set (fin := migrateConsoleIngress rp j.1 j.2).
  assert (faultless fin.2 ∧ wellKeyed fin.2
          ∧ objects fin.2
            = alter (adopted (unmarked rp) (mark rp)) (Ingress, (Namespace (RpMeta rp),
                consoleResourcesNameOf rp))
                (objects i.2)) as (Hffin & Hkfin & Hofin).
  { assert (objects i.2 = objects j.2) as -> by (by rewrite Hj).
    apply (adopt_step rp Ingress); [|by rewrite Hj; apply called_wellKeyed|done].
    rewrite Hj. by apply called_faultless. }
  assert (∀ kk, objects fin.2 !! kk
                = alter (adopted (unmarked rp) (mark rp)) (Ingress, (Namespace (RpMeta rp),
                    consoleResourcesNameOf rp))
                    (alter (adopted (serviceStale rp "console") (serviceMutate rp "console"))
                       (Service, (Namespace (RpMeta rp), consoleResourcesNameOf rp))
                       (alter (adopted (unmarked rp) (mark rp)) (ServiceAccount, (Namespace
                           (RpMeta rp), consoleResourcesNameOf rp))
                          (alter (adopted (unmarked rp) (mark rp))
                             (PodDisruptionBudget, (Namespace (RpMeta rp), resourcesNameOf rp))
                             (alter (adopted (unmarked rp) (mark rp))
                                (ServiceAccount, (Namespace (RpMeta rp), resourcesNameOf rp))
                                (alter (adopted (unmarked rp) (mark rp))
                                   (Service, (Namespace (RpMeta rp), resourcesNameOf rp +:+
                                       "-external"))
                                   (alter (adopted (serviceStale rp "redpanda")
                                             (serviceMutate rp "redpanda"))
                                      (Service, (Namespace (RpMeta rp), resourcesNameOf rp))
                                          (objects c.2))))))) !! kk)
    as Hfinal.
  { intros kk. by rewrite Hofin, Hoi, Hoh, Hog, Hof, Hoe, Hod. }
  split.
  - exact Hffin.
  - apply (settledAt_lookup _ _ _ _ disableRedpandaReconciliation (objects w !! (Cluster,
      clusterKeyOf rp)));
      [apply isRedpandaClusterManaged_disabled|].
    rewrite Hfinal, !lookup_alter_ne by done. rewrite Hoc by done.
    rewrite Hob, lookup_alter_ne by done. by rewrite Hoa, lookup_alter_eq.
  - apply (settledAt_lookup _ _ _ _ consoleMutate (objects a.2 !! (Console, consoleKeyOf rp)));
      [apply consoleMutate_settled|].
    rewrite Hfinal, !lookup_alter_ne by done. rewrite Hoc by done.
    by rewrite Hob, lookup_alter_eq.
  - apply Forall_forall. intros pod Hin.
    apply elem_of_selectPods in Hin as (key & Hpod & Hns & Hsel).
    rewrite Hfinal, !lookup_alter_ne in Hpod by done.
    rewrite Forall_forall in Hpods. apply Hpods. apply elem_of_selectPods. by exists key.
  - apply (settledAt_lookup _ _ _ _ (serviceMutate rp "redpanda")
             (objects c.2 !! (Service, (Namespace (RpMeta rp), resourcesNameOf rp)))); [apply
                 serviceMutate_settled|].
    rewrite Hfinal. rewrite lookup_alter_ne by other_object.
    rewrite lookup_alter_ne by other_object. rewrite lookup_alter_ne by other_object.
    rewrite lookup_alter_ne by other_object. rewrite lookup_alter_ne by other_object.
    rewrite lookup_alter_ne by other_object. by rewrite lookup_alter_eq.
  - apply (settledAt_lookup _ _ _ _ (mark rp)
             (alter (adopted (serviceStale rp "redpanda") (serviceMutate rp "redpanda"))
                (Service, (Namespace (RpMeta rp), resourcesNameOf rp)) (objects c.2) !! (Service,
                    (Namespace (RpMeta rp), resourcesNameOf rp +:+ "-external"))));
      [apply mark_settled|].
    rewrite Hfinal. rewrite lookup_alter_ne by other_object.
    rewrite lookup_alter_ne by other_object. rewrite lookup_alter_ne by other_object.
    rewrite lookup_alter_ne by other_object. rewrite lookup_alter_ne by other_object.
    by rewrite lookup_alter_eq.
  - eapply (settledAt_lookup _ _ _ _ (mark rp)); [apply mark_settled|].
    rewrite Hfinal. rewrite lookup_alter_ne by other_object.
    rewrite lookup_alter_ne by other_object. rewrite lookup_alter_ne by other_object.
    rewrite lookup_alter_ne by other_object. by rewrite lookup_alter_eq.
  - eapply (settledAt_lookup _ _ _ _ (mark rp)); [apply mark_settled|].
    rewrite Hfinal. rewrite lookup_alter_ne by other_object.
    rewrite lookup_alter_ne by other_object. rewrite lookup_alter_ne by other_object.
    by rewrite lookup_alter_eq.
  - exists sts. split; [|done].
    rewrite Hfinal, !lookup_alter_ne by done. rewrite Hoc by done.
    rewrite Hob, lookup_alter_ne by done. rewrite Hoa, lookup_alter_ne by done. exact Hsts.
  - eapply (settledAt_lookup _ _ _ _ (mark rp)); [apply mark_settled|].
    rewrite Hfinal. rewrite lookup_alter_ne by other_object.
    rewrite lookup_alter_ne by other_object. by rewrite lookup_alter_eq.
  - eapply (settledAt_lookup _ _ _ _ (serviceMutate rp "console"));
      [apply serviceMutate_settled|].
    rewrite Hfinal. rewrite lookup_alter_ne by other_object. by rewrite lookup_alter_eq.
  - eapply (settledAt_lookup _ _ _ _ (mark rp)); [apply mark_settled|].
    rewrite Hfinal. by rewrite lookup_alter_eq.
Qed.

(** * Further properties of the HelmRelease *)

(** Settles the class of the calls listed in the goal. *)
Ltac call_class := repeat first [done | constructor].

Lemma CreateRelease_run hr w :
  CreateRelease hr w
  = let c := mkCall VCreate HelmRelease (keyOf (HrMeta hr)) in
    match faults w c with
    | Some msg => (Some (ErrTransient msg), called c w)
    | None => match releases w !! keyOf (HrMeta hr) with
              | Some _ => (Some (ErrAlreadyExists HelmRelease (keyOf (HrMeta hr))), called c w)
              | None => (None, (setReleases (<[keyOf (HrMeta hr) := hr]> (releases w))
                                  (called c w)).2)
              end
    end.
Proof.
  unfold CreateRelease. rewrite !run_bind. simpl.
  destruct (faults w _); [done|]. by destruct (releases w !! _).
Qed.

Section ReleaseRuns.
Context {JSONValues : Type} `{!EqDecision JSONValues}.
Variable ValuesJSON : RedpandaT → result string.
Variable decodeValues : option string → JSONValues.
Variable sha256Sum : string → string.
Variable base64URLEncode : string → string.

Local Abbreviation template := (createHelmReleaseFromTemplate ValuesJSON sha256Sum base64URLEncode).
Local Abbreviation requiresUpdate := (helmReleaseRequiresUpdate decodeValues).
Local Abbreviation create := (createHelmRelease ValuesJSON sha256Sum base64URLEncode).
Local Abbreviation reconcileRelease :=
  (reconcileHelmRelease ValuesJSON decodeValues sha256Sum base64URLEncode).

(** The world once the fingerprint of the values has been logged. *)
Local Abbreviation logged values w :=
  ((logInfo ("SHA of values file to use: " +:+ base64URLEncode (sha256Sum values)) w).2).

Lemma template_ok rp w values :
  ValuesJSON rp = Ok values →
  ∃ tpl, template rp w = (Ok tpl, logged values w)
         ∧ (∀ w0, template rp w0 = (Ok tpl, logged values w0))
         ∧ keyOf (HrMeta tpl) = derivedReleaseKey rp.
Proof.
  intros Hv. unfold createHelmReleaseFromTemplate. rewrite Hv.
  eexists. split; [reflexivity|]. split; [intros w0; reflexivity|reflexivity].
Qed.

Lemma template_err rp w err :
  ValuesJSON rp = Err err →
  template rp w = (Err (Errorf "could not parse clusterSpec to json" err), w).
Proof. intros Hv. unfold createHelmReleaseFromTemplate. by rewrite Hv. Qed.

Lemma createHelmRelease_run rp w values tpl :
  ValuesJSON rp = Ok values →
  (template rp w).1 = Ok tpl →
  create rp w
  = let c := mkCall VCreate HelmRelease (derivedReleaseKey rp) in
    let w1 := called c (logged values w) in
    let named := withStatus (setHelmRelease (GetHelmReleaseName rp) (Status rp)) rp in
    match faults w c with
    | Some msg =>
        ((rp, Some tpl,
          Some (Errorf ("failed to create HelmRelease '" +:+ Namespace (RpMeta rp) +:+ "/"
                        +:+ StatusHelmRelease (Status rp) +:+ "'") (ErrTransient msg))),
         (event rp (LastAttemptedRevision (Status rp)) EventSeverityError msg w1).2)
    | None =>
        ((named, Some tpl, None),
         (event rp (LastAttemptedRevision (Status rp)) EventSeverityInfo (createdMessage rp)
            match releases w !! derivedReleaseKey rp with
            | Some _ => w1
            | None => (setReleases (<[derivedReleaseKey rp := tpl]> (releases w)) w1).2
            end).2)
    end.
Proof.
  intros Hv Htpl. destruct (template_ok rp w values Hv) as (tpl' & Hrun & _ & Hkey).
  rewrite Hrun in Htpl. injection Htpl as ->.
  unfold createHelmRelease. rewrite run_bind, Hrun. cbn [fst snd].
  rewrite run_bind, CreateRelease_run. cbn zeta. rewrite Hkey.
  change (faults (logged values w)) with (faults w).
  change (releases (logged values w)) with (releases w).
  destruct (faults w _); cbn [fst snd IsAlreadyExists negb]; [by rewrite run_bind|].
  destruct (releases w !! derivedReleaseKey rp); cbn [fst snd IsAlreadyExists negb].
  - rewrite run_bind. cbn. by destruct rp as [m d s [og c l hr hrr hrp hrpr]].
  - by rewrite run_bind.
Qed.

(** Property X14.  When the chart values can be built and the create
    call is not refused, [createHelmRelease] succeeds with the derived
    release name recorded on the parent, issues the one create and records
    one Normal event saying the release was created; the release is stored
    when none was there, and a release already stored under that name is
    left as it is. *)
Theorem createHelmRelease_creates_or_adopts (rp : RedpandaT) (w : World) (values : string) :
  ValuesJSON rp = Ok values →
  faults w (mkCall VCreate HelmRelease (derivedReleaseKey rp)) = None →
  ∃ tpl,
    (template rp w).1 = Ok tpl
    ∧ let r := create rp w in
      r.1 = (withStatus (setHelmRelease (GetHelmReleaseName rp) (Status rp)) rp, Some tpl, None)
      ∧ issued (create rp) w = [mkCall VCreate HelmRelease (derivedReleaseKey rp)]
      ∧ (EvMessage <$> emitted (create rp) w) = [createdMessage rp]
      ∧ Forall isNormal (emitted (create rp) w)
      ∧ releases r.2
        = match releases w !! derivedReleaseKey rp with
          | Some _ => releases w
          | None => <[derivedReleaseKey rp := tpl]> (releases w)
          end.
Proof.
  intros Hv Hf. destruct (template_ok rp w values Hv) as (tpl & Hrun & _ & Hkey).
  exists tpl. split; [by rewrite Hrun|]. cbn zeta.
  assert ((template rp w).1 = Ok tpl) as Htpl by (by rewrite Hrun).
  rewrite (createHelmRelease_run rp w values tpl Hv Htpl). cbn zeta. rewrite Hf.
  assert (∃ e, events (create rp w).2 = [e] ++ events w
               ∧ EvMessage e = createdMessage rp ∧ isNormal e) as (e & He & Hmsg & Hn).
  { rewrite (createHelmRelease_run rp w values tpl Hv Htpl). cbn zeta. rewrite Hf.
    eexists. split; [|split; [|split]]; [by destruct (releases w !! _)|done|done|done]. }
  rewrite (emitted_new _ _ _ He).
  rewrite (issued_new _ _ [mkCall VCreate HelmRelease (derivedReleaseKey rp)]).
  2:{ rewrite (createHelmRelease_run rp w values tpl Hv Htpl). cbn zeta. rewrite Hf.
      by destruct (releases w !! _). }
  split_and!; [done|done|by cbn; rewrite Hmsg|by call_class|].
  by destruct (releases w !! _).
Qed.

Lemma createHelmRelease_outcome (rp : RedpandaT) (w w0 : World) :
  objects w = objects w0 → parents w = parents w0 → faults w = faults w0 →
  releases w = releases w0 → events w = events w0 →
  ∀ pre, calls w = pre ++ calls w0 → Forall releaseCall pre →
  releaseOutcome (λ _ _, False) w0 (create rp w).1.2 (create rp w).2.
Proof.
  intros Ho Hp Hf Hr He pre Hc Hpre.
  destruct (ValuesJSON rp) as [values|err] eqn:Hv.
  - destruct (template_ok rp w values Hv) as (tpl & Hrun & _ & Hkey).
    rewrite (createHelmRelease_run rp w values tpl Hv) by (by rewrite Hrun). cbn zeta.
    destruct (faults w _).
    { split_and!; try done.
      exists (mkCall VCreate HelmRelease (derivedReleaseKey rp) :: pre). eexists [_].
      cbn. rewrite Hc, He. split_and!; try done.
      - by call_class.
      - by call_class. }
    split_and!; [by destruct (releases w !! _)..|].
    exists (mkCall VCreate HelmRelease (derivedReleaseKey rp) :: pre). eexists [_].
    split_and!.
    + destruct (releases w !! _); cbn; by rewrite Hc.
    + destruct (releases w !! _); cbn; by rewrite He.
    + by call_class.
    + done.
    + by call_class.
  - unfold createHelmRelease, createHelmReleaseFromTemplate. rewrite Hv.
    rewrite !run_bind. cbn. split_and!; try done.
    exists pre. eexists [_]. rewrite !run_bind. cbn. rewrite Hc, He. split_and!; try done.
    by call_class.
Qed.

Lemma releaseOutcome_weaken (silent silent' : list Call → error → Prop) w err w' :
  (∀ l e, silent l e → silent' l e) →
  releaseOutcome silent w err w' → releaseOutcome silent' w err w'.
Proof.
  intros Hs (Ho & Hp & Hf & newc & newe & Hc & He & Hk & Hl & Hcase).
  split_and!; try done. exists newc, newe. split_and!; try done.
  destruct err as [e|]; [|done]. destruct Hcase as (? & ? & ?). split_and!; try done.
  intros Hnil. by apply Hs, H1.
Qed.

Lemma reconcileHelmRelease_outcome (rp : RedpandaT) (w : World) :
  releaseOutcome (failedRead rp) w (reconcileRelease rp w).1.2 (reconcileRelease rp w).2.
Proof.
  unfold reconcileHelmRelease. case_bool_decide as Hname.
  { eapply releaseOutcome_weaken; [|by apply (createHelmRelease_outcome rp w w) with (pre := [])].
    done. }
  rewrite run_bind, GetRelease_run. cbn [fst snd]. unfold GetHelmRelease.
  fold (releaseKeyOf rp).
  set (g := mkCall VGet HelmRelease (releaseKeyOf rp)).
  destruct (faults w g) as [msg|] eqn:Hfault.
  { cbn. split_and!; try done. exists [g], []. split_and!; try done.
    - by call_class.
    - cbn. lia.
    - intros _. split; [done|]. by exists (ErrTransient msg). }
  destruct (releases w !! releaseKeyOf rp) as [hr|] eqn:Hlive.
  2:{ cbn [IsNotFound].
      eapply releaseOutcome_weaken;
        [|by apply (createHelmRelease_outcome _ (called g w) w) with (pre := [g]);
             [..|call_class]].
      done. }
  rewrite run_bind.
  destruct (ValuesJSON rp) as [values|err] eqn:Hv.
  2:{ rewrite (template_err rp _ err Hv). cbn [fst snd]. rewrite !run_bind. cbn.
      split_and!; try done.
      exists [g]. eexists [_]. cbn. split_and!; try done; by call_class. }
  destruct (template_ok rp (called g w) values Hv) as (tpl & Hrun & _ & _).
  rewrite Hrun. cbn [fst snd].
  destruct (requiresUpdate hr tpl) eqn:Hupd.
  2:{ cbn. split_and!; try done. exists [g], []. cbn. split_and!; try done.
      - by call_class.
      - lia. }
  rewrite run_bind, UpdateRelease_run. cbn zeta.
  change (faults (called g w)) with (faults w).
  change (faults (logged values (called g w))) with (faults w).
  change (releases (logged values (called g w))) with (releases w).
  destruct (faults w (mkCall VUpdate HelmRelease _)) as [msg|].
  { cbn [fst snd]. rewrite run_bind. cbn. split_and!; try done.
    eexists [_; g]. eexists [_]. cbn. split_and!; try done.
    - by call_class.
    - by call_class. }
  destruct (releases w !! keyOf (HrMeta (withHrSpec (HrSpec tpl) hr))).
  - cbn [fst snd]. rewrite !run_bind. cbn. split_and!; try done.
    eexists [_; g]. eexists [_]. cbn. split_and!; try done.
    + by call_class.
    + by call_class.
  - cbn [fst snd]. rewrite run_bind. cbn. split_and!; try done.
    eexists [_; g]. eexists [_]. cbn. split_and!; try done.
    + by call_class.
    + by call_class.
Qed.

(** Property X15.  A pass of [reconcileHelmRelease] leaves the migrated
    objects and the parents alone, only reads, creates and updates
    HelmReleases, and records at most one event: Warning events when it
    fails, and then the stored releases are as they were, Normal events
    when it does not.  The only failure without an event is a read of the
    recorded release that fails otherwise than with not-found. *)
Theorem reconcileHelmRelease_events_match_outcome (rp : RedpandaT) (w : World) :
  let r := reconcileRelease rp w in
  let fired := emitted (reconcileRelease rp) w in
  objects r.2 = objects w
  ∧ parents r.2 = parents w
  ∧ Forall releaseCall (issued (reconcileRelease rp) w)
  ∧ (length fired ≤ 1)%nat
  ∧ match r.1.2 with
    | Some e =>
        Forall isWarning fired
        ∧ releases r.2 = releases w
        ∧ (fired = [] → failedRead rp (issued (reconcileRelease rp) w) e)
    | None => Forall isNormal fired
    end.
Proof.
  cbn zeta.
  destruct (reconcileHelmRelease_outcome rp w)
    as (Ho & Hp & _ & newc & newe & Hc & He & Hk & Hl & Hcase).
  by rewrite (issued_new _ _ _ Hc), (emitted_new _ _ _ He).
Qed.
End ReleaseRuns.

Section ReleaseSettles.
Context {JSONValues : Type} `{!EqDecision JSONValues}.
Variable ValuesJSON : RedpandaT → result string.
Variable decodeValues : option string → JSONValues.
Variable sha256Sum : string → string.
Variable base64URLEncode : string → string.

Local Abbreviation template := (createHelmReleaseFromTemplate ValuesJSON sha256Sum base64URLEncode).
Local Abbreviation requiresUpdate := (helmReleaseRequiresUpdate decodeValues).
Local Abbreviation create := (createHelmRelease ValuesJSON sha256Sum base64URLEncode).
Local Abbreviation reconcileRelease :=
  (reconcileHelmRelease ValuesJSON decodeValues sha256Sum base64URLEncode).
Local Abbreviation logged values w :=
  ((logInfo ("SHA of values file to use: " +:+ base64URLEncode (sha256Sum values)) w).2).

(** The template reads the parent's name, namespace and spec, and its
    values. *)
Lemma template_withStatus rp st w :
  ValuesJSON (withStatus st rp) = ValuesJSON rp →
  (template (withStatus st rp) w).1 = (template rp w).1.
Proof.
  intros Hv. unfold createHelmReleaseFromTemplate. rewrite Hv.
  by destruct (ValuesJSON rp).
Qed.

(** A release carrying the template's spec needs no update. *)
Lemma requiresUpdate_same_spec hr tpl :
  HrSpec hr = HrSpec tpl → requiresUpdate hr tpl = false.
Proof.
  intros Hs. destruct (requiresUpdate hr tpl) eqn:Hr; [|done].
  apply (helmReleaseRequiresUpdate_spec decodeValues) in Hr.
  unfold GetValues in Hr. rewrite Hs in Hr.
  by destruct Hr as [?|[?|[[_ ?]|?]]].
Qed.

(** A pass that finds the recorded release, nothing being refused. *)
Lemma reconcileHelmRelease_found rp w hr values tpl :
  StatusHelmRelease (Status rp) ≠ "" →
  (∀ c, faults w c = None) →
  releases w !! releaseKeyOf rp = Some hr →
  keyOf (HrMeta hr) = releaseKeyOf rp →
  ValuesJSON rp = Ok values →
  (template rp w).1 = Ok tpl →
  reconcileRelease rp w
  = let g := mkCall VGet HelmRelease (releaseKeyOf rp) in
    let w1 := logged values (called g w) in
    if requiresUpdate hr tpl
    then
      let hr' := withHrSpec (HrSpec tpl) hr in
      ((withStatus (setHelmRelease (GetHelmReleaseName rp) (Status rp)) rp, Some hr', None),
       (event rp (LastAttemptedRevision (Status rp)) EventSeverityInfo (updatedMessage rp)
          (setReleases (<[releaseKeyOf rp := hr']> (releases w))
             (called (mkCall VUpdate HelmRelease (releaseKeyOf rp)) w1)).2).2)
    else ((rp, Some hr, None), w1).
Proof.
  intros Hname Hf Hlive Hkey Hv Htpl.
  destruct (template_ok ValuesJSON sha256Sum base64URLEncode rp (called
    (mkCall VGet HelmRelease (releaseKeyOf rp)) w) values Hv) as (tpl' & Hrun & Hall & _).
  rewrite Hall in Htpl. injection Htpl as ->.
  unfold reconcileHelmRelease. rewrite bool_decide_eq_false_2 by done.
  rewrite run_bind, GetRelease_run. cbn [fst snd]. unfold GetHelmRelease.
  fold (releaseKeyOf rp). rewrite Hf, Hlive.
  rewrite run_bind, Hrun. cbn [fst snd]. cbn zeta.
  destruct (requiresUpdate hr tpl); [|done].
  rewrite run_bind, UpdateRelease_run. cbn zeta.
  change (keyOf (HrMeta (withHrSpec (HrSpec tpl) hr))) with (keyOf (HrMeta hr)).
  rewrite Hkey.
  change (faults (logged values (called ?g w))) with (faults w).
  change (releases (logged values (called ?g w))) with (releases w).
  rewrite Hf, Hlive. cbn [fst snd]. by rewrite run_bind.
Qed.

Lemma withStatus_same (rp : RedpandaT) : withStatus (Status rp) rp = rp.
Proof. by destruct rp. Qed.

(** A pass over a release that is recorded and stored: it ends with the
    release stored in a state that needs no update, and when that was so
    already, it only read. *)
Lemma reconcileHelmRelease_recorded rp w hr values tpl :
  (∀ st, ValuesJSON (withStatus st rp) = Ok values) →
  (∀ c, faults w c = None) →
  keyedReleases w →
  Name (RpMeta rp) ≠ "" →
  StatusHelmRelease (Status rp) = GetHelmReleaseName rp →
  releases w !! derivedReleaseKey rp = Some hr →
  (template rp w).1 = Ok tpl →
  let p := reconcileRelease rp w in
  p.1.2 = None
  ∧ (∀ c, faults p.2 c = None)
  ∧ keyedReleases p.2
  ∧ StatusHelmRelease (Status p.1.1.1) = GetHelmReleaseName rp
  ∧ (∃ st, p.1.1.1 = withStatus st rp)
  ∧ (∃ hr', releases p.2 !! derivedReleaseKey rp = Some hr' ∧ requiresUpdate hr' tpl = false)
  ∧ (requiresUpdate hr tpl = false →
     p = ((rp, Some hr, None),
          logged values (called (mkCall VGet HelmRelease (derivedReleaseKey rp)) w))).
Proof.
  intros Hvals Hf Hk Hname Hrec Hlive Htpl p.
  assert (releaseKeyOf rp = derivedReleaseKey rp) as Hkey.
  { unfold releaseKeyOf, derivedReleaseKey. by rewrite Hrec. }
  assert (ValuesJSON rp = Ok values) as Hv.
  { rewrite <- (withStatus_same rp). apply Hvals. }
  assert (StatusHelmRelease (Status rp) ≠ "") as Hne by (by rewrite Hrec).
  rewrite <- Hkey in Hlive.
  pose proof (reconcileHelmRelease_found rp w hr values tpl Hne Hf Hlive
                (Hk _ _ Hlive) Hv Htpl) as Hrun.
  cbn zeta in Hrun. subst p. rewrite Hrun, <- Hkey. clear Hrun.
  destruct (requiresUpdate hr tpl) eqn:Hupd.
  - cbn. split_and!; try done.
    + intros key hr0. cbn.
      destruct (decide (key = releaseKeyOf rp)) as [->|Hother].
      * rewrite lookup_insert_eq. intros [= <-]. apply (Hk _ _ Hlive).
      * rewrite lookup_insert_ne by done. apply Hk.
    + by eexists.
    + eexists. split; [by apply lookup_insert_eq|].
      by apply requiresUpdate_same_spec.
  - cbn. split_and!; try done.
    + exists (Status rp). by rewrite withStatus_same.
    + by exists hr.
Qed.

(** A first pass: whatever it finds, it ends with the release recorded and
    stored. *)
Lemma reconcileHelmRelease_first rp w values :
  (∀ st, ValuesJSON (withStatus st rp) = Ok values) →
  (∀ c, faults w c = None) →
  keyedReleases w →
  Name (RpMeta rp) ≠ "" →
  StatusHelmRelease (Status rp) = "" ∨ StatusHelmRelease (Status rp) = GetHelmReleaseName rp →
  let p := reconcileRelease rp w in
  p.1.2 = None
  ∧ (∀ c, faults p.2 c = None)
  ∧ keyedReleases p.2
  ∧ StatusHelmRelease (Status p.1.1.1) = GetHelmReleaseName rp
  ∧ (∃ st, p.1.1.1 = withStatus st rp)
  ∧ is_Some (releases p.2 !! derivedReleaseKey rp).
Proof.
  intros Hvals Hf Hk Hname Hrec p.
  assert (∀ (rp0 : RedpandaT) w0,
            (∃ st, rp0 = withStatus st rp) →
            (∀ c, faults w0 c = None) → keyedReleases w0 →
            let q := create rp0 w0 in
            q.1.2 = None
            ∧ (∀ c, faults q.2 c = None)
            ∧ keyedReleases q.2
            ∧ StatusHelmRelease (Status q.1.1.1) = GetHelmReleaseName rp
            ∧ (∃ st, q.1.1.1 = withStatus st rp)
            ∧ is_Some (releases q.2 !! derivedReleaseKey rp)) as Hcreate.
  { intros rp0 w0 [st ->] Hf0 Hk0 q.
    destruct (template_ok ValuesJSON sha256Sum base64URLEncode (withStatus st rp) w0 values
                (Hvals st)) as (tpl & Hrun & _ & Hkey).
    subst q.
    rewrite (createHelmRelease_run ValuesJSON sha256Sum base64URLEncode _ w0 values tpl
               (Hvals st)) by (by rewrite Hrun).
    cbn zeta. rewrite Hf0.
    change (derivedReleaseKey (withStatus st rp)) with (derivedReleaseKey rp) in *.
    destruct (releases w0 !! derivedReleaseKey rp) as [hr0|] eqn:Hlive;
      cbn -[derivedReleaseKey].
    - split_and!; try done; try (by eexists); try (by rewrite Hlive).
    - split_and!; try done.
      + intros key hr0. cbn -[derivedReleaseKey].
        destruct (decide (key = derivedReleaseKey rp)) as [->|Hother].
        * rewrite lookup_insert_eq. by intros [= <-].
        * rewrite lookup_insert_ne by done. apply Hk0.
      + by eexists.
      + rewrite lookup_insert_eq. by eexists. }
  destruct Hrec as [Hempty|Hrec].
  { subst p. unfold reconcileHelmRelease. rewrite bool_decide_eq_true_2 by done.
    apply Hcreate; [|done..]. exists (Status rp). by rewrite withStatus_same. }
  assert (releaseKeyOf rp = derivedReleaseKey rp) as Hkey.
  { unfold releaseKeyOf, derivedReleaseKey. by rewrite Hrec. }
  destruct (releases w !! derivedReleaseKey rp) as [hr|] eqn:Hlive.
  - assert (ValuesJSON rp = Ok values) as Hv.
    { rewrite <- (withStatus_same rp). apply Hvals. }
    destruct (template_ok ValuesJSON sha256Sum base64URLEncode rp w values Hv)
      as (tpl & Hrun & _ & _).
    assert ((template rp w).1 = Ok tpl) as Htpl by (by rewrite Hrun).
    destruct (reconcileHelmRelease_recorded rp w hr values tpl Hvals Hf Hk Hname Hrec
                Hlive Htpl)
      as (H1 & H2 & H3 & H4 & H5 & (hr' & H6 & _) & _).
    split_and!; done.
  - subst p. unfold reconcileHelmRelease.
    rewrite bool_decide_eq_false_2 by (by rewrite Hrec).
    rewrite run_bind, GetRelease_run. cbn [fst snd]. unfold GetHelmRelease.
    fold (releaseKeyOf rp). rewrite Hkey, Hf, Hlive. cbn [IsNotFound].
    apply Hcreate; [by eexists|done..].
Qed.

(** Property X16.  Let the chart values of the parent not depend on its
    status, no call be refused, releases be stored under their own names,
    the parent have a name, and the release name recorded on it be empty or
    the derived one.  Then two passes of [reconcileHelmRelease] in a row
    succeed, and a third pass only reads the release: it hands back the
    stored release and the parent as they are, records no event and writes
    nothing. *)
Theorem reconcileHelmRelease_quiet_after_two_passes (rp : RedpandaT) (w : World)
    (values : string) :
  (∀ st, ValuesJSON (withStatus st rp) = Ok values) →
  (∀ c, faults w c = None) →
  keyedReleases w →
  Name (RpMeta rp) ≠ "" →
  StatusHelmRelease (Status rp) = "" ∨ StatusHelmRelease (Status rp) = GetHelmReleaseName rp →
  let p1 := reconcileRelease rp w in
  let p2 := reconcileRelease p1.1.1.1 p1.2 in
  let third := reconcileRelease p2.1.1.1 in
  p1.1.2 = None ∧ p2.1.2 = None
  ∧ (third p2.2).1 = (p2.1.1.1, releases p2.2 !! derivedReleaseKey rp, None)
  ∧ is_Some (releases p2.2 !! derivedReleaseKey rp)
  ∧ issued third p2.2 = [mkCall VGet HelmRelease (derivedReleaseKey rp)]
  ∧ emitted third p2.2 = []
  ∧ releases (third p2.2).2 = releases p2.2.
Proof.
  intros Hvals Hf Hk Hname Hrec p1 p2 third.
  destruct (reconcileHelmRelease_first rp w values Hvals Hf Hk Hname Hrec)
    as (He1 & Hf1 & Hk1 & Hrec1 & [st1 Hrp1] & [hr1 Hlive1]).
  fold p1 in He1, Hf1, Hk1, Hrec1, Hrp1, Hlive1.
  assert (∀ st, ValuesJSON (withStatus st p1.1.1.1) = Ok values) as Hvals1.
  { intros st. rewrite Hrp1. apply Hvals. }
  assert (∃ tpl, ∀ st w0, (template (withStatus st rp) w0).1 = Ok tpl) as [tpl Htpl].
  { destruct (template_ok ValuesJSON sha256Sum base64URLEncode rp w values) as (tpl & _ & Hall & _).
    { rewrite <- (withStatus_same rp). apply Hvals. }
    exists tpl. intros st w0. rewrite template_withStatus.
    - by rewrite Hall.
    - rewrite Hvals. rewrite <- (withStatus_same rp) at 1. by rewrite Hvals. }
  destruct (reconcileHelmRelease_recorded p1.1.1.1 p1.2 hr1 values tpl)
    as (He2 & Hf2 & Hk2 & Hrec2 & [st2 Hrp2] & (hr2 & Hlive2 & Hsettled) & _); try done.
  { by rewrite Hrp1. }
  { by rewrite Hrp1 in *. }
  { by rewrite Hrp1. }
  { rewrite Hrp1. apply Htpl. }
  fold p2 in He2, Hf2, Hk2, Hrec2, Hrp2, Hlive2.
  assert (p2.1.1.1 = withStatus st2 rp) as Hrp2' by (by rewrite Hrp2, Hrp1).
  destruct (reconcileHelmRelease_recorded p2.1.1.1 p2.2 hr2 values tpl)
    as (_ & _ & _ & _ & _ & _ & Hquiet); try done.
  { intros st. rewrite Hrp2'. apply Hvals. }
  { by rewrite Hrp2'. }
  { rewrite Hrec2, Hrp1. by rewrite Hrp2'. }
  { by rewrite Hrp2', Hrp1 in *. }
  { rewrite Hrp2'. apply Htpl. }
  specialize (Hquiet Hsettled). fold third in Hquiet.
  assert (derivedReleaseKey p2.1.1.1 = derivedReleaseKey rp) as Hkey by (by rewrite Hrp2').
  assert (derivedReleaseKey p1.1.1.1 = derivedReleaseKey rp) as Hkey1 by (by rewrite Hrp1).
  rewrite Hkey in Hquiet. rewrite Hkey1 in Hlive2.
  split_and!; try done.
  - rewrite Hquiet. cbn [fst]. do 2 f_equal. symmetry. exact Hlive2.
  - apply issued_new. by rewrite Hquiet.
  - apply (emitted_new _ _ []). by rewrite Hquiet.
  - by rewrite Hquiet.
Qed.
End ReleaseSettles.

(** Witness of X16: the sample parent without a release recorded, next to
    a release created while the chart version was left open. *)
Lemma reconcileHelmRelease_quiet_witness :
  let pass := reconcileHelmRelease sampleValuesJSON sampleDecode sampleDigest sampleDigest in
  let p1 := pass freshParent (releaseWorld unpinnedRelease) in
  let p2 := pass p1.1.1.1 p1.2 in
  p1.1.2 = None ∧ p2.1.2 = None
  ∧ issued (pass p2.1.1.1) p2.2 = [mkCall VGet HelmRelease ("default", "redpanda")]
  ∧ emitted (pass p2.1.1.1) p2.2 = [].
Proof.
  destruct (reconcileHelmRelease_quiet_after_two_passes sampleValuesJSON sampleDecode
              sampleDigest sampleDigest freshParent (releaseWorld unpinnedRelease) "{}")
    as (H1 & H2 & _ & _ & H3 & H4 & _).
  - reflexivity.
  - reflexivity.
  - intros key hr Hlook. cbn in Hlook. apply lookup_singleton_Some in Hlook as [<- <-].
    reflexivity.
  - discriminate.
  - left. reflexivity.
  - by repeat split.
Defined.

(** * Properties of the reconcile loop *)

Lemma GetParent_run key w :
  GetParent key w
  = (match faults w (mkCall VGet Redpanda key) with
     | Some msg => Err (ErrTransient msg)
     | None => match parents w !! key with
               | Some rp => Ok rp
               | None => Err (ErrNotFound Redpanda key)
               end
     end, called (mkCall VGet Redpanda key) w).
Proof.
  unfold GetParent. rewrite !run_bind. simpl.
  destruct (faults w _); [done|]. by destruct (parents w !! key).
Qed.

Lemma PatchFinalizers_run rp w :
  PatchFinalizers rp w
  = let c := mkCall VPatch Redpanda (keyOf (RpMeta rp)) in
    match faults w c with
    | Some msg => ((rp, Some (ErrTransient msg)), called c w)
    | None =>
        match parents w !! keyOf (RpMeta rp) with
        | Some stored =>
            let patched := withRpMeta (withFinalizers (Finalizers (RpMeta rp)) (RpMeta stored))
                             stored in
            ((patched, None),
             (setParents (<[keyOf (RpMeta rp) := patched]> (parents w)) (called c w)).2)
        | None => ((rp, Some (ErrNotFound Redpanda (keyOf (RpMeta rp)))), called c w)
        end
    end.
Proof.
  unfold PatchFinalizers. rewrite !run_bind. simpl.
  destruct (faults w _); [done|]. by destruct (parents w !! _).
Qed.

Lemma StatusPatch_run rp latest w :
  StatusPatch rp latest w
  = let c := mkCall VStatusPatch Redpanda (keyOf (RpMeta rp)) in
    match faults w c with
    | Some msg => ((rp, Some (ErrTransient msg)), called c w)
    | None =>
        match parents w !! keyOf (RpMeta rp) with
        | Some stored =>
            let patched := withStatus (mergeStatus (Status latest) (Status rp) (Status stored))
                             stored in
            ((patched, None),
             (setParents (<[keyOf (RpMeta rp) := patched]> (parents w)) (called c w)).2)
        | None => ((rp, Some (ErrNotFound Redpanda (keyOf (RpMeta rp)))), called c w)
        end
    end.
Proof.
  unfold StatusPatch. rewrite !run_bind. simpl.
  destruct (faults w _); [done|]. by destruct (parents w !! _).
Qed.

Lemma merged_latest {A} `{EqDecision A} (latest modified : A) :
  merged latest modified latest = modified.
Proof. unfold merged. by destruct (decide _). Qed.

Lemma mergeStatus_latest (latest modified : RedpandaStatus) :
  mergeStatus latest modified latest = modified.
Proof. unfold mergeStatus. rewrite !merged_latest. by destruct modified. Qed.

(** What [patchRedpandaStatus] does, path by path. *)
Lemma patchRedpandaStatus_run rp w :
  patchRedpandaStatus rp w
  = let key := keyOf (RpMeta rp) in
    let g := mkCall VGet Redpanda key in
    let p := mkCall VStatusPatch Redpanda key in
    match faults w g with
    | Some msg => ((rp, Some (ErrTransient msg)), called g w)
    | None =>
        match parents w !! key with
        | None => ((rp, Some (ErrNotFound Redpanda key)), called g w)
        | Some latest =>
            match faults w p with
            | Some msg => ((rp, Some (ErrTransient msg)), called p (called g w))
            | None =>
                let patched := withStatus (Status rp) latest in
                ((patched, None),
                 (setParents (<[key := patched]> (parents w)) (called p (called g w))).2)
            end
        end
    end.
Proof.
  unfold patchRedpandaStatus. rewrite run_bind, GetParent_run. cbn [fst snd]. cbn zeta.
  destruct (faults w (mkCall VGet _ _)); [done|].
  destruct (parents w !! keyOf (RpMeta rp)) as [latest|] eqn:Hlive; [|done].
  rewrite StatusPatch_run. cbn zeta.
  change (faults (called ?c w)) with (faults w).
  change (parents (called ?c w)) with (parents w).
  destruct (faults w (mkCall VStatusPatch _ _)); [done|].
  by rewrite Hlive, mergeStatus_latest.
Qed.

#[local] Instance loopFrame_refl P : Reflexive (loopFrame P).
Proof. intros w. split; [done..|by exists []|by exists []]. Qed.

#[local] Instance loopFrame_trans P : Transitive (loopFrame P).
Proof.
  intros w1 w2 w3 [Hf1 Ho1 Hp1 (c1 & Hc1 & HP1) (e1 & He1)]
    [Hf2 Ho2 Hp2 (c2 & Hc2 & HP2) (e2 & He2)].
  split.
  - by rewrite Hf2.
  - by rewrite Ho2.
  - intros key. by rewrite Hp2.
  - exists (c2 ++ c1). split; [by rewrite Hc2, Hc1, (assoc_L (++))|by apply Forall_app].
  - exists (e2 ++ e1). by rewrite He2, He1, (assoc_L (++)).
Qed.

Lemma called_loopFrame (P : Call → Prop) c w : P c → loopFrame P w (called c w).
Proof. intros HP. split; try done; [by exists [c]; split; [|call_class]|by exists []]. Qed.

Lemma event_loopFrame P rp revision severity msg : changes (loopFrame P) (event rp revision
    severity msg).
Proof. intros w. split; try done; [by exists []|by eexists [_]]. Qed.

(** Rewriting the status of a stored parent keeps it beside its status. *)
Lemma status_written (parents : gmap Key RedpandaT) key stored st :
  parents !! key = Some stored →
  ∀ key', beyondStatus <$> <[key := withStatus st stored]> parents !! key'
          = beyondStatus <$> parents !! key'.
Proof.
  intros Hlive key'. destruct (decide (key' = key)) as [->|Hother].
  - by rewrite lookup_insert_eq, Hlive.
  - by rewrite lookup_insert_ne.
Qed.

Lemma patchRedpandaStatus_loopFrame (P : Call → Prop) rp :
  P (mkCall VGet Redpanda (keyOf (RpMeta rp))) →
  P (mkCall VStatusPatch Redpanda (keyOf (RpMeta rp))) →
  changes (loopFrame P) (patchRedpandaStatus rp).
Proof.
  intros Hg Hp w. rewrite patchRedpandaStatus_run. cbn zeta.
  destruct (faults w (mkCall VGet _ _)); [by apply called_loopFrame|].
  destruct (parents w !! keyOf (RpMeta rp)) as [latest|] eqn:Hlive;
    [|by apply called_loopFrame].
  destruct (faults w (mkCall VStatusPatch _ _)).
  { trans (called (mkCall VGet Redpanda (keyOf (RpMeta rp))) w); by apply called_loopFrame. }
  split; try done.
  - intros key. cbn. by apply status_written.
  - eexists [_; _]. split; [done|]. call_class.
  - by exists [].
Qed.

Lemma GetRepository_run repos key w :
  GetRepository repos key w
  = (match faults w (mkCall VGet HelmRepository key) with
     | Some msg => Err (ErrTransient msg)
     | None => match repos !! key with
               | Some repo => Ok repo
               | None => Err (ErrNotFound HelmRepository key)
               end
     end, called (mkCall VGet HelmRepository key) w).
Proof.
  unfold GetRepository. rewrite !run_bind. simpl.
  destruct (faults w _); [done|]. by destruct (repos !! key).
Qed.

Lemma CreateRepository_run repos repo w :
  CreateRepository repos repo w
  = let c := mkCall VCreate HelmRepository (keyOf (RepoMeta repo)) in
    (match faults w c with
     | Some msg => (Some (ErrTransient msg), repos)
     | None => match repos !! keyOf (RepoMeta repo) with
               | Some _ => (Some (ErrAlreadyExists HelmRepository (keyOf (RepoMeta repo))), repos)
               | None => (None, <[keyOf (RepoMeta repo) := repo]> repos)
               end
     end, called c w).
Proof.
  unfold CreateRepository. rewrite !run_bind. simpl.
  destruct (faults w _); [done|]. by destruct (repos !! _).
Qed.

Lemma checkHelmRepository_loopFrame P o rp : changes (loopFrame P) (checkHelmRepository o rp).
Proof.
  intros w. rewrite checkHelmRepository_run. cbn zeta.
  destruct (HelmRepositoryReady (Status rp)) as [[]|], (observedReady o); cbn [snd];
    first [reflexivity|apply event_loopFrame].
Qed.

Lemma checkHelmRelease_loopFrame P o rp : changes (loopFrame P) (checkHelmRelease o rp).
Proof.
  intros w. rewrite checkHelmRelease_run. cbn zeta.
  destruct (HelmReleaseReady (Status rp)) as [[]|], (observedReady o); cbn [snd];
    first [reflexivity|apply event_loopFrame].
Qed.

Section LoopRuns.
Context {JSONValues : Type} `{!EqDecision JSONValues}.
Variable ValuesJSON : RedpandaT → result string.
Variable decodeValues : option string → JSONValues.
Variable sha256Sum : string → string.
Variable base64URLEncode : string → string.
Variable RedpandaProgressing : RedpandaT → RedpandaT.
Variable RedpandaNotReady : RedpandaT → string → string → RedpandaT.
Variable RedpandaReady : RedpandaT → RedpandaT.
Variable RedpandaChartRepository : string.
Variable RequeueHelmDeps : Duration.

Local Abbreviation reconcileRelease :=
  (reconcileHelmRelease ValuesJSON decodeValues sha256Sum base64URLEncode).
Local Abbreviation repositoryTemplate := (createHelmRepositoryFromTemplate RedpandaChartRepository).
Local Abbreviation reconcileRepository := (reconcileHelmRepository RedpandaChartRepository).
Local Abbreviation generationStage := (observeGeneration RedpandaProgressing).
Local Abbreviation releases_stage :=
  (releaseStage ValuesJSON decodeValues sha256Sum base64URLEncode RedpandaNotReady RedpandaReady
     RequeueHelmDeps).
Local Abbreviation dependents_stage :=
  (dependentsStage ValuesJSON decodeValues sha256Sum base64URLEncode RedpandaNotReady
     RedpandaReady RedpandaChartRepository RequeueHelmDeps).
Local Abbreviation reconcileLoop :=
  (reconcile ValuesJSON decodeValues sha256Sum base64URLEncode RedpandaProgressing
     RedpandaNotReady RedpandaReady RedpandaChartRepository RequeueHelmDeps).
Local Abbreviation ReconcileLoop :=
  (Reconcile ValuesJSON decodeValues sha256Sum base64URLEncode RedpandaProgressing
     RedpandaNotReady RedpandaReady RedpandaChartRepository RequeueHelmDeps).

(** [reconcile] is its stages, one after the other. *)
Lemma reconcile_split repos rp w :
  reconcileLoop repos rp w
  = let g := generationStage rp w in
    match g.1.2 with
    | Some updateStatusErr => ((g.1.1, mkResult true 0, Some updateStatusErr, repos), g.2)
    | None => dependents_stage repos g.1.1 g.2
    end.
Proof.
  unfold reconcile, observeGeneration, dependentsStage, releaseStage.
  rewrite run_bind. cbn zeta.
  destruct (bool_decide (ObservedGeneration (Status rp) ≠ Generation (RpMeta rp))); [|done].
  by destruct (patchRedpandaStatus _ w) as [[rp1 [e|]] w1].
Qed.

(** What [reconcileHelmRepository] does, path by path. *)
Lemma reconcileHelmRepository_run repos rp w :
  reconcileRepository repos rp w
  = let key := (Namespace (RpMeta rp), GetHelmRepositoryName rp) in
    let g := mkCall VGet HelmRepository key in
    let c := mkCall VCreate HelmRepository key in
    let named := withStatus (setHelmRepository (GetHelmRepositoryName rp) (Status rp)) rp in
    match faults w g with
    | Some msg =>
        ((rp, emptyHelmRepository, Some (Errorf "error getting HelmRepository" (ErrTransient msg)),
          repos),
         (event rp (LastAttemptedRevision (Status rp)) EventSeverityError
            ("error getting HelmRepository: " +:+ msg) (called g w)).2)
    | None =>
        match repos !! key with
        | Some repo => ((named, repo, None, repos), called g w)
        | None =>
            match faults w c with
            | Some msg =>
                ((rp, repositoryTemplate rp,
                  Some (Errorf "error creating HelmRepository" (ErrTransient msg)), repos),
                 (event rp (LastAttemptedRevision (Status rp)) EventSeverityError
                    ("error creating HelmRepository: " +:+ msg) (called c (called g w))).2)
            | None =>
                ((named, repositoryTemplate rp, None, <[key := repositoryTemplate rp]> repos),
                 (event rp (LastAttemptedRevision (Status rp)) EventSeverityInfo
                    ("HelmRepository '" +:+ Namespace (RpMeta rp) +:+ "/"
                     +:+ GetHelmRepositoryName rp +:+ "' created ") (called c (called g w))).2)
            end
        end
    end.
Proof.
  unfold reconcileHelmRepository. rewrite run_bind, GetRepository_run. cbn [fst snd]. cbn zeta.
  destruct (faults w (mkCall VGet _ _)); cbn [IsNotFound]; [by rewrite run_bind|].
  destruct (repos !! _) as [repo|] eqn:Hlive; cbn [IsNotFound]; [done|].
  rewrite run_bind, CreateRepository_run. cbn zeta.
  change (keyOf (RepoMeta (repositoryTemplate rp)))
    with (Namespace (RpMeta rp), GetHelmRepositoryName rp).
  change (faults (called ?c w)) with (faults w).
  destruct (faults w (mkCall VCreate _ _)); cbn [fst snd]; [by rewrite run_bind|].
  rewrite Hlive. cbn [fst snd]. by rewrite run_bind.
Qed.

Lemma reconcileHelmRepository_loopFrame repos rp :
  changes (loopFrame loopCall) (reconcileRepository repos rp).
Proof.
  intros w. rewrite reconcileHelmRepository_run. cbn zeta.
  set (g := mkCall VGet HelmRepository _). set (c := mkCall VCreate HelmRepository _).
  assert (loopCall g) as Hg by (right; left; call_class).
  assert (loopCall c) as Hc by (right; left; call_class).
  assert (loopFrame loopCall w (called c (called g w))) as Hboth.
  { trans (called g w); by apply called_loopFrame. }
  destruct (faults w g); cbn [snd].
  { trans (called g w); [by apply called_loopFrame|apply event_loopFrame]. }
  destruct (repos !! _); cbn [snd]; [by apply called_loopFrame|].
  destruct (faults w c); cbn [snd];
    (trans (called c (called g w)); [exact Hboth|apply event_loopFrame]).
Qed.

(** Stored repositories stay as they are. *)
Lemma reconcileHelmRepository_keeps repos rp w key repo :
  repos !! key = Some repo → (reconcileRepository repos rp w).1.2 !! key = Some repo.
Proof.
  intros Hlive. rewrite reconcileHelmRepository_run. cbn zeta.
  destruct (faults w _); [done|].
  destruct (repos !! (_, _)) eqn:Hthere; [done|].
  destruct (faults w _); [done|]. cbn [fst snd].
  rewrite lookup_insert_ne; [done|]. intros <-. congruence.
Qed.

Lemma reconcileHelmRelease_loopFrame rp : changes (loopFrame loopCall) (reconcileRelease rp).
Proof.
  intros w.
  destruct (reconcileHelmRelease_outcome ValuesJSON decodeValues sha256Sum base64URLEncode rp w)
    as (Ho & Hp & Hf & newc & newe & Hc & He & Hk & _).
  split; try done.
  - intros key. by rewrite Hp.
  - exists newc. split; [done|]. apply (Forall_impl _ _ _ Hk). intros c Hc'. by right; right.
  - by exists newe.
Qed.

Lemma releaseStage_loopFrame repos rp : changes (loopFrame loopCall) (releases_stage repos rp).
Proof.
  unfold releaseStage. apply changes_bind; [apply _|apply reconcileHelmRelease_loopFrame|].
  intros [[rp1 hr] [err|]]; [by apply changes_ret; apply _|].
  destruct hr as [hr|]; [|by apply changes_ret; apply _].
  case_bool_decide; [by apply changes_ret; apply _|].
  apply changes_bind; [apply _|apply checkHelmRelease_loopFrame|].
  intros [[] rp2]; by apply changes_ret; apply _.
Qed.

Lemma dependentsStage_loopFrame repos rp :
  changes (loopFrame loopCall) (dependents_stage repos rp).
Proof.
  unfold dependentsStage. apply changes_bind; [apply _|apply reconcileHelmRepository_loopFrame|].
  intros [[[rp1 repo] [err|]] repos1]; [by apply changes_ret; apply _|].
  apply changes_bind; [apply _|apply checkHelmRepository_loopFrame|].
  intros [[] rp2]; cbn [negb]; [apply releaseStage_loopFrame|by apply changes_ret; apply _].
Qed.

Lemma observeGeneration_loopFrame rp : changes (loopFrame loopCall) (generationStage rp).
Proof.
  unfold observeGeneration. case_bool_decide; [|by apply changes_ret; apply _].
  apply patchRedpandaStatus_loopFrame; left; call_class.
Qed.

Lemma reconcile_loopFrame repos rp : changes (loopFrame loopCall) (reconcileLoop repos rp).
Proof.
  intros w. rewrite reconcile_split. cbn zeta.
  pose proof (observeGeneration_loopFrame rp w) as Hg.
  destruct (generationStage rp w) as [[rp1 [e|]] w1]; cbn [fst snd] in *; [done|].
  etrans; [exact Hg|apply dependentsStage_loopFrame].
Qed.

Lemma releaseStage_repos repos rp w : (releases_stage repos rp w).1.2 = repos.
Proof.
  unfold releaseStage. rewrite run_bind.
  destruct (reconcileRelease rp w) as [[[rp1 hr] [err|]] w1]; cbn [fst snd]; [done|].
  destruct hr as [hr|]; [|done]. case_bool_decide; [done|].
  rewrite run_bind. by destruct (checkHelmRelease _ rp1 w1) as [[[] rp2] w2].
Qed.

Lemma dependentsStage_keeps repos rp w key repo :
  repos !! key = Some repo → (dependents_stage repos rp w).1.2 !! key = Some repo.
Proof.
  intros Hlive. unfold dependentsStage. rewrite run_bind.
  pose proof (reconcileHelmRepository_keeps repos rp w key repo Hlive) as Hk.
  destruct (reconcileRepository repos rp w) as [[[[rp1 repo1] [err|]] repos1] w1];
    cbn [fst snd] in *; [done|].
  rewrite run_bind.
  destruct (checkHelmRepository _ rp1 w1) as [[[] rp2] w2]; cbn [fst snd negb]; [|done].
  by rewrite releaseStage_repos.
Qed.

Lemma reconcile_keeps repos rp w key repo :
  repos !! key = Some repo → (reconcileLoop repos rp w).1.2 !! key = Some repo.
Proof.
  intros Hlive. rewrite reconcile_split. cbn zeta.
  destruct (generationStage rp w) as [[rp1 [e|]] w1]; cbn [fst snd]; [done|].
  by apply dependentsStage_keeps.
Qed.

(** Property X17.  [reconcile] only reads the parent and patches its
    status, reads and creates HelmRepositories, and reads, creates and
    updates HelmReleases: it deletes nothing.  It leaves the migrated
    objects and the fault table alone, every stored parent is afterwards
    what it was beside its status, and every stored repository stays as it
    is. *)
Theorem reconcile_reads_creates_updates (repos : Repositories) (rp : RedpandaT) (w : World) :
  let r := reconcileLoop repos rp w in
  Forall loopCall (issued (reconcileLoop repos rp) w)
  ∧ objects r.2 = objects w
  ∧ faults r.2 = faults w
  ∧ (∀ key, beyondStatus <$> parents r.2 !! key = beyondStatus <$> parents w !! key)
  ∧ (∀ key repo, repos !! key = Some repo → r.1.2 !! key = Some repo).
Proof.
  cbn zeta. destruct (reconcile_loopFrame repos rp w) as [Hf Ho Hp (newc & Hc & HP) _].
  rewrite (issued_new _ _ _ Hc). split_and!; try done.
  intros key repo. apply reconcile_keeps.
Qed.

(** The status patch leaves the releases alone and calls on the parent
    only. *)
Lemma patchRedpandaStatus_parent_only rp w :
  releases (patchRedpandaStatus rp w).2 = releases w
  ∧ ∃ newCalls, calls (patchRedpandaStatus rp w).2 = newCalls ++ calls w
                ∧ Forall (λ c, CallKind c = Redpanda) newCalls.
Proof.
  rewrite patchRedpandaStatus_run. cbn zeta.
  destruct (faults w (mkCall VGet _ _)); [by split; [|eexists [_]; split; [|call_class]]|].
  destruct (parents w !! _); [|by split; [|eexists [_]; split; [|call_class]]].
  destruct (faults w (mkCall VStatusPatch _ _));
    by split; [|eexists [_; _]; split; [|call_class]].
Qed.

(** A repository fresh from the template is not ready. *)
Lemma repositoryTemplate_not_ready rp :
  observedReady (observeRepository (repositoryTemplate rp)) = false.
Proof. unfold observedReady. cbn. by rewrite andb_false_r. Qed.

(** Property X18.  As long as no stored HelmRepository is ready,
    [reconcile] issues no call on a HelmRelease and leaves the releases as
    they are.  When it returns no error, it asks to be run again after
    [RequeueHelmDeps] and hands back the parent marked not ready for the
    reason [ArtifactFailed], its repository flag false; the repositories,
    the one it may have created included, are still not ready. *)
Theorem reconcile_waits_for_repository (repos : Repositories) (rp : RedpandaT) (w : World) :
  (∀ key repo, repos !! key = Some repo → observedReady (observeRepository repo) = false) →
  let r := reconcileLoop repos rp w in
  releases r.2 = releases w
  ∧ Forall (λ c, CallKind c ≠ HelmRelease) (issued (reconcileLoop repos rp) w)
  ∧ (r.1.1.2 = None →
     r.1.1.1.2 = mkResult false RequeueHelmDeps
     ∧ ∃ rp' msg, r.1.1.1.1 = RedpandaNotReady rp' "ArtifactFailed" msg
                  ∧ HelmRepositoryReady (Status rp') = Some false)
  ∧ (∀ key repo, r.1.2 !! key = Some repo → observedReady (observeRepository repo) = false).
Proof.
  intros Hnone r.
  assert (releases r.2 = releases w
          ∧ (∃ newCalls, calls r.2 = newCalls ++ calls w
                         ∧ Forall (λ c, CallKind c ≠ HelmRelease) newCalls)
          ∧ (r.1.1.2 = None →
             r.1.1.1.2 = mkResult false RequeueHelmDeps
             ∧ ∃ rp' msg, r.1.1.1.1 = RedpandaNotReady rp' "ArtifactFailed" msg
                          ∧ HelmRepositoryReady (Status rp') = Some false)
          ∧ (∀ key repo, r.1.2 !! key = Some repo
                         → observedReady (observeRepository repo) = false))
    as (Hr & (newc & Hc & Hk) & Hres & Hrepos).
  2:{ split_and!; try done. by rewrite (issued_new _ _ _ Hc). }
  subst r. rewrite reconcile_split. cbn zeta.
  assert (releases (generationStage rp w).2 = releases w
          ∧ ∃ newCalls, calls (generationStage rp w).2 = newCalls ++ calls w
                        ∧ Forall (λ c, CallKind c = Redpanda) newCalls) as (Hr1 & c1 & Hc1 & Hk1).
  { unfold observeGeneration. case_bool_decide; [apply patchRedpandaStatus_parent_only|].
    by split; [|exists []]. }
  assert (Forall (λ c, CallKind c ≠ HelmRelease) c1) as Hk1'.
  { apply (Forall_impl _ _ _ Hk1). by intros c ->. }
  destruct (generationStage rp w) as [[rp1 [e|]] w1]; cbn [fst snd] in *.
  { split_and!; try done. by exists c1. }
  unfold dependentsStage. rewrite run_bind, reconcileHelmRepository_run. cbn zeta.
  set (g := mkCall VGet HelmRepository _). set (c := mkCall VCreate HelmRepository _).
  destruct (faults w1 g); cbn [fst snd].
  { cbn. split_and!; try done. exists (g :: c1). split; [by rewrite Hc1|by constructor]. }
  destruct (repos !! (Namespace (RpMeta rp1), GetHelmRepositoryName rp1)) as [repo|] eqn:Hlive;
    cbn [fst snd].
  - rewrite run_bind, checkHelmRepository_run. cbn zeta.
    rewrite (Hnone _ _ Hlive). cbn [fst snd negb].
    split_and!.
    + by destruct (HelmRepositoryReady _) as [[]|].
    + exists (g :: c1). split; [|by constructor].
      by destruct (HelmRepositoryReady _) as [[]|]; cbn; rewrite Hc1.
    + intros _. split; [done|]. eexists _, _. split; [reflexivity|].
      cbn. by destruct (HelmRepositoryReady (Status rp1)) as [[]|].
    + done.
  - destruct (faults w1 c); cbn [fst snd].
    { cbn. split_and!; try done.
      exists (c :: g :: c1). split; [by rewrite Hc1|by repeat constructor]. }
    rewrite run_bind, checkHelmRepository_run. cbn zeta.
    rewrite repositoryTemplate_not_ready. cbn [fst snd negb].
    split_and!.
    + by destruct (HelmRepositoryReady _) as [[]|].
    + exists (c :: g :: c1). split; [|by repeat constructor].
      by destruct (HelmRepositoryReady _) as [[]|]; cbn; rewrite Hc1.
    + intros _. split; [done|]. eexists _, _. split; [reflexivity|].
      cbn. by destruct (HelmRepositoryReady (Status rp1)) as [[]|].
    + intros key repo. unfold mret, M_ret. cbn [fst snd].
      destruct (decide (key = (Namespace (RpMeta rp1), GetHelmRepositoryName rp1))) as [->|Hother].
      * rewrite lookup_insert_eq. intros [= <-]. apply repositoryTemplate_not_ready.
      * rewrite lookup_insert_ne by done. apply Hnone.
Qed.

(** The release a pass hands back when it did not fail: it has a name, and
    when it is ready it is the stored one, found under the recorded
    name. *)
Lemma reconcileHelmRelease_returns rp w :
  keyedReleases w →
  Name (RpMeta rp) ≠ "" →
  (reconcileRelease rp w).1.2 = None →
  ∃ hr, (reconcileRelease rp w).1.1.2 = Some hr
        ∧ Name (HrMeta hr) ≠ ""
        ∧ (observedReady (observeRelease hr) = true →
           StatusHelmRelease (Status rp) ≠ ""
           ∧ ∃ hr0, releases w !! releaseKeyOf rp = Some hr0
                    ∧ observeRelease hr0 = observeRelease hr).
Proof.
  intros Hk Hname.
  assert (∀ (rp0 : RedpandaT) w0,
            Name (RpMeta rp0) ≠ "" →
            (createHelmRelease ValuesJSON sha256Sum base64URLEncode rp0 w0).1.2 = None →
            ∃ hr, (createHelmRelease ValuesJSON sha256Sum base64URLEncode rp0 w0).1.1.2 = Some hr
                  ∧ Name (HrMeta hr) ≠ ""
                  ∧ observedReady (observeRelease hr) = false) as Hcreate.
  { intros rp0 w0 Hname0. destruct (ValuesJSON rp0) as [values|err] eqn:Hv.
    - destruct (template_ok ValuesJSON sha256Sum base64URLEncode rp0 w0 values Hv)
        as (tpl & Hrun & _ & Hkey).
      rewrite (createHelmRelease_run ValuesJSON sha256Sum base64URLEncode rp0 w0 values tpl Hv)
        by (by rewrite Hrun).
      cbn zeta. destruct (faults w0 _); [done|]. intros _. exists tpl. cbn [fst snd].
      unfold createHelmReleaseFromTemplate in Hrun. rewrite Hv in Hrun.
      rewrite run_bind in Hrun. cbn in Hrun. injection Hrun as <-.
      split_and!; done.
    - unfold createHelmRelease, createHelmReleaseFromTemplate. rewrite Hv.
      by rewrite !run_bind. }
  unfold reconcileHelmRelease. case_bool_decide as Hrec.
  { intros He. destruct (Hcreate rp w Hname He) as (hr & Hhr & Hn & Hnot).
    exists hr. split_and!; try done. intros Hready. congruence. }
  rewrite run_bind, GetRelease_run. cbn [fst snd]. unfold GetHelmRelease.
  fold (releaseKeyOf rp).
  destruct (faults w (mkCall VGet HelmRelease (releaseKeyOf rp))); [done|].
  destruct (releases w !! releaseKeyOf rp) as [hr0|] eqn:Hlive; cbn [IsNotFound].
  2:{ intros He.
      destruct (Hcreate (withStatus (setHelmRelease "" (Status rp)) rp) _ Hname He)
        as (hr & Hhr & Hn & Hnot).
      exists hr. split_and!; try done. intros Hready. congruence. }
  assert (Name (HrMeta hr0) ≠ "") as Hn0.
  { pose proof (Hk _ _ Hlive) as Hkey. unfold keyOf, releaseKeyOf in Hkey.
    injection Hkey as _ ->. done. }
  rewrite run_bind.
  destruct (createHelmReleaseFromTemplate _ _ _ rp _) as [[tpl|err] w1]; cbn [fst snd].
  2:{ by rewrite !run_bind. }
  destruct (helmReleaseRequiresUpdate _ hr0 tpl).
  2:{ intros _. exists hr0. split_and!; try done. intros _. split; [done|]. by exists hr0. }
  rewrite run_bind.
  destruct (UpdateRelease _ w1) as [[err|] w2]; cbn [fst snd]; rewrite run_bind; [done|].
  intros _. eexists. split; [reflexivity|]. split_and!; try done.
  intros _. split; [done|]. by exists hr0.
Qed.

(** What the two legs of the latch hand back. *)
Lemma checkHelmRepository_verdict o rp w :
  let r := checkHelmRepository o rp w in
  r.1.1 = observedReady o
  ∧ releases r.2 = releases w
  ∧ RpMeta r.1.2 = RpMeta rp
  ∧ StatusHelmRelease (Status r.1.2) = StatusHelmRelease (Status rp)
  ∧ (observedReady o = true → HelmRepositoryReady (Status r.1.2) ≠ Some false).
Proof.
  cbn zeta. rewrite checkHelmRepository_run. cbn zeta.
  by destruct (HelmRepositoryReady (Status rp)) as [[]|], (observedReady o).
Qed.

Lemma checkHelmRelease_verdict o rp w :
  let r := checkHelmRelease o rp w in
  r.1.1 = observedReady o
  ∧ HelmRepositoryReady (Status r.1.2) = HelmRepositoryReady (Status rp)
  ∧ (observedReady o = true → HelmReleaseReady (Status r.1.2) ≠ Some false).
Proof.
  cbn zeta. rewrite checkHelmRelease_run. cbn zeta.
  by destruct (HelmReleaseReady (Status rp)) as [[]|], (observedReady o).
Qed.

(** A pass over the HelmRelease leaves the repository flag alone. *)
Lemma reconcileHelmRelease_repository_flag rp w :
  HelmRepositoryReady (Status (reconcileRelease rp w).1.1.1) = HelmRepositoryReady (Status rp).
Proof.
  unfold reconcileHelmRelease, createHelmRelease.
  repeat first
    [ progress rewrite ?run_bind
    | progress cbn [fst snd mret M_ret]
    | case_bool_decide
    | match goal with
      | |- context [GetRelease ?k ?w] => destruct (GetRelease k w) as [[?|?] ?]
      | |- context [createHelmReleaseFromTemplate ?a ?b ?c ?r ?w] =>
          destruct (createHelmReleaseFromTemplate a b c r w) as [[?|?] ?]
      | |- context [CreateRelease ?h ?w] => destruct (CreateRelease h w) as [[?|] ?]
      | |- context [UpdateRelease ?h ?w] => destruct (UpdateRelease h w) as [[?|] ?]
      | |- context [IsNotFound ?e] => destruct (IsNotFound e)
      | |- context [IsAlreadyExists ?e] => destruct (IsAlreadyExists e)
      | |- context [helmReleaseRequiresUpdate ?d ?h ?t] =>
          destruct (helmReleaseRequiresUpdate d h t)
      end ]; done.
Qed.

(** Property X19.  For a parent with a name whose generation is the
    observed one, releases being stored under their own names: a
    [reconcile] that fails asks for no requeue; one that does not fail
    either hands back the parent marked not ready and asks to be run again
    after [RequeueHelmDeps], or hands it back marked ready and asks for
    nothing, and the latter only when the HelmRepository of the parent's
    namespace and the HelmRelease recorded on the parent are stored, have
    caught up and are Ready.  So the pass that creates the HelmRelease is
    always run again after [RequeueHelmDeps]. *)
Theorem reconcile_outcomes (repos : Repositories) (rp : RedpandaT) (w : World) :
  ObservedGeneration (Status rp) = Generation (RpMeta rp) →
  Name (RpMeta rp) ≠ "" →
  keyedReleases w →
  let r := reconcileLoop repos rp w in
  match r.1.1.2 with
  | Some _ => r.1.1.1.2 = noRequeue
  | None =>
      (r.1.1.1.2 = mkResult false RequeueHelmDeps
       ∧ ∃ rp' msg, r.1.1.1.1 = RedpandaNotReady rp' "ArtifactFailed" msg)
      ∨ (r.1.1.1.2 = noRequeue
         ∧ (∃ rp', r.1.1.1.1 = RedpandaReady rp'
                   ∧ HelmRepositoryReady (Status rp') ≠ Some false
                   ∧ HelmReleaseReady (Status rp') ≠ Some false)
         ∧ (∃ repo, repos !! (Namespace (RpMeta rp), GetHelmRepositoryName rp) = Some repo
                    ∧ observedReady (observeRepository repo) = true)
         ∧ StatusHelmRelease (Status rp) ≠ ""
         ∧ (∃ hr, releases w !! releaseKeyOf rp = Some hr
                  ∧ observedReady (observeRelease hr) = true))
  end.
Proof.
  intros Hgen Hname Hk r. subst r. rewrite reconcile_split. cbn zeta.
  unfold observeGeneration. rewrite bool_decide_eq_false_2 by (by intros ?).
  cbn [mret M_ret fst snd].
  unfold dependentsStage. rewrite run_bind, reconcileHelmRepository_run. cbn zeta.
  set (g := mkCall VGet HelmRepository _). set (c := mkCall VCreate HelmRepository _).
  destruct (faults w g); cbn [fst snd]; [done|].
  destruct (repos !! (Namespace (RpMeta rp), GetHelmRepositoryName rp)) as [repo|] eqn:Hlive;
    cbn [fst snd].
  2:{ destruct (faults w c); cbn [fst snd]; [done|].
      rewrite run_bind, checkHelmRepository_run. cbn zeta.
      rewrite repositoryTemplate_not_ready. cbn [fst snd negb]. left. split; [done|].
      by eexists _, _. }
  rewrite run_bind.
  destruct (checkHelmRepository_verdict (observeRepository repo)
              (withStatus (setHelmRepository (GetHelmRepositoryName rp) (Status rp)) rp)
              (called g w)) as (Hverdict & Hrel & Hmeta & Hrecorded & Hflag).
  destruct (checkHelmRepository _ _ _) as [[ready rp2] w2]. cbn [fst snd] in *. subst ready.
  destruct (observedReady (observeRepository repo)) eqn:Hready; cbn [negb].
  2:{ left. split; [done|]. by eexists _, _. }
  specialize (Hflag eq_refl). cbn in Hmeta, Hrecorded.
  assert (keyedReleases w2) as Hk2.
  { intros key hr. rewrite Hrel. apply Hk. }
  assert (Name (RpMeta rp2) ≠ "") as Hname2 by (by rewrite Hmeta).
  unfold releaseStage. rewrite run_bind.
  pose proof (reconcileHelmRelease_returns rp2 w2 Hk2 Hname2) as Hret.
  pose proof (reconcileHelmRelease_repository_flag rp2 w2) as Hkeep.
  destruct (reconcileRelease rp2 w2) as [[[rp3 hr] [err|]] w3]; cbn [fst snd] in *; [done|].
  destruct (Hret eq_refl) as (hr' & -> & Hn & Hfound).
  rewrite bool_decide_eq_false_2 by done.
  rewrite run_bind.
  destruct (checkHelmRelease_verdict (observeRelease hr') rp3 w3) as (Hverdict' & Hflag1 & Hflag2).
  destruct (checkHelmRelease _ _ _) as [[ready rp4] w4]. cbn [fst snd] in *. subst ready.
  destruct (observedReady (observeRelease hr')) eqn:Hready'; cbn [negb].
  2:{ left. split; [done|]. by eexists _, _. }
  right. destruct (Hfound eq_refl) as (Hrec & hr0 & Hlive0 & Hsame).
  assert (releaseKeyOf rp2 = releaseKeyOf rp) as Hkey.
  { unfold releaseKeyOf. by rewrite Hmeta, Hrecorded. }
  split_and!; try done.
  - exists rp4. split; [done|]. split; [congruence|by apply Hflag2].
  - by exists repo.
  - by rewrite <- Hrecorded.
  - exists hr0. split; [|by rewrite Hsame].
    rewrite <- Hkey. rewrite Hrel in Hlive0. exact Hlive0.
Qed.
End LoopRuns.

Section ReconcileRuns.
Context {JSONValues : Type} `{!EqDecision JSONValues}.
Variable ValuesJSON : RedpandaT → result string.
Variable decodeValues : option string → JSONValues.
Variable sha256Sum : string → string.
Variable base64URLEncode : string → string.
Variable RedpandaProgressing : RedpandaT → RedpandaT.
Variable RedpandaNotReady : RedpandaT → string → string → RedpandaT.
Variable RedpandaReady : RedpandaT → RedpandaT.
Variable RedpandaChartRepository : string.
Variable RequeueHelmDeps : Duration.

Local Abbreviation reconcileLoop :=
  (reconcile ValuesJSON decodeValues sha256Sum base64URLEncode RedpandaProgressing
     RedpandaNotReady RedpandaReady RedpandaChartRepository RequeueHelmDeps).
Local Abbreviation ReconcileLoop :=
  (Reconcile ValuesJSON decodeValues sha256Sum base64URLEncode RedpandaProgressing
     RedpandaNotReady RedpandaReady RedpandaChartRepository RequeueHelmDeps).
Local Abbreviation managed_stage :=
  (managedStage ValuesJSON decodeValues sha256Sum base64URLEncode RedpandaProgressing
     RedpandaNotReady RedpandaReady RedpandaChartRepository RequeueHelmDeps).

(** What [Reconcile] does, path by path. *)
Lemma Reconcile_run repos req w :
  ReconcileLoop repos req w
  = let g := mkCall VGet Redpanda req in
    let w1 := called g w in
    match faults w g with
    | Some msg => ((noRequeue, Some (ErrTransient msg), repos), w1)
    | None =>
        match parents w !! req with
        | None => ((noRequeue, None, repos), w1)
        | Some rp =>
            if bool_decide (RpDeletionTimestamp rp ≠ None)
            then let d := reconcileDelete rp w1 in ((noRequeue, d.1.2, repos), d.2)
            else if negb (isRedpandaManaged rp)
            then
              if ContainsFinalizer (RpMeta rp) FinalizerKey
              then
                let u := UpdateParent (withRpMeta (RemoveFinalizer (RpMeta rp) FinalizerKey) rp)
                           w1 in
                ((noRequeue, u.1, repos), u.2)
              else ((noRequeue, None, repos), w1)
            else if negb (ContainsFinalizer (RpMeta rp) FinalizerKey)
            then
              let p := PatchFinalizers (withRpMeta (AddFinalizer (RpMeta rp) FinalizerKey) rp)
                         w1 in
              match p.1.2 with
              | Some err => ((noRequeue, Some err, repos), p.2)
              | None => managed_stage repos p.1.1 p.2
              end
            else managed_stage repos rp w1
        end
    end.
Proof.
  unfold Reconcile, managedStage. rewrite run_bind, GetParent_run. cbn [fst snd]. cbn zeta.
  destruct (faults w _); [done|].
  destruct (parents w !! req) as [rp|]; [|done].
  case_bool_decide.
  { rewrite run_bind. by destruct (reconcileDelete rp _) as [[rp1 err] w1]. }
  destruct (isRedpandaManaged rp); cbn [negb].
  2:{ destruct (ContainsFinalizer _ _); [|done].
      rewrite run_bind. by destruct (UpdateParent _ _) as [[err|] w1]. }
  destruct (ContainsFinalizer _ _); cbn [negb]; rewrite run_bind; [done|].
  by destruct (PatchFinalizers _ _) as [[rp1 [err|]] w1].
Qed.

Lemma deleteHelmRelease_frame rp w :
  let d := deleteHelmRelease rp w in
  parents d.2 = parents w ∧ objects d.2 = objects w ∧ events d.2 = events w
  ∧ faults d.2 = faults w
  ∧ RpMeta d.1.1 = RpMeta rp ∧ beyondFinalizers d.1.1 = beyondFinalizers rp
  ∧ ∃ newCalls, calls d.2 = newCalls ++ calls w ∧ Forall deletionCall newCalls.
Proof.
  cbn zeta. rewrite deleteHelmRelease_run. case_bool_decide.
  { split_and!; try done. by exists []. }
  cbn zeta. set (g := mkCall VGet HelmRelease _).
  assert (deletionCall g) as Hg by (right; call_class).
  destruct (faults w g).
  { split_and!; try done. exists [g]. split; [done|call_class]. }
  destruct (releases w !! _) as [hr|].
  2:{ split_and!; try done. exists [g]. split; [done|call_class]. }
  rewrite DeleteRelease_run. cbn zeta.
  set (c := mkCall (VDelete _) HelmRelease _).
  assert (deletionCall c) as Hc by (right; call_class).
  change (faults (called g w)) with (faults w).
  change (releases (called g w)) with (releases w).
  destruct (faults w c); [|destruct (releases w !! _)];
    (split_and!; try done; exists [c; g]; split; [done|call_class]).
Qed.

(** Writing over a stored parent one that shows the same view keeps the
    view of every stored parent. *)
Lemma parent_written {X} (view : RedpandaT → X) (parents : gmap Key RedpandaT) key stored rp :
  parents !! key = Some stored → view rp = view stored →
  ∀ key', view <$> <[key := rp]> parents !! key' = view <$> parents !! key'.
Proof.
  intros Hlive Hsame key'. destruct (decide (key' = key)) as [->|Hother].
  - rewrite lookup_insert_eq, Hlive. cbn. by rewrite Hsame.
  - by rewrite lookup_insert_ne.
Qed.

Lemma parentsKept_same {X} (view : RedpandaT → X) (P : Call → Prop) w w' newCalls :
  parents w' = parents w → calls w' = newCalls ++ calls w → Forall P newCalls →
  parentsKept view P w w'.
Proof. intros Hp Hc HP. split; [by intros key; rewrite Hp|by exists newCalls]. Qed.

Lemma reconcileDelete_frame rp w :
  parents w !! keyOf (RpMeta rp) = Some rp →
  let d := reconcileDelete rp w in
  parentsKept beyondFinalizers deletionCall w d.2
  ∧ objects d.2 = objects w ∧ events d.2 = events w.
Proof.
  intros Hlive. cbn zeta. rewrite reconcileDelete_run. cbn zeta.
  destruct (deleteHelmRelease_frame rp w) as (Hp & Ho & He & Hf & Hm & Hi & newc & Hc & HP).
  destruct (deleteHelmRelease rp w) as [[rp1 [err|]] w1]; cbn [fst snd] in *.
  { split; [by apply (parentsKept_same _ _ _ _ newc)|done]. }
  destruct (ContainsFinalizer _ _).
  2:{ split; [by apply (parentsKept_same _ _ _ _ newc)|done]. }
  cbn [fst snd]. rewrite UpdateParent_run. cbn zeta.
  set (u := mkCall VUpdate Redpanda _).
  assert (deletionCall u) as Hu by (left; call_class).
  assert (Forall deletionCall (u :: newc)) as HP' by (by constructor).
  destruct (faults w1 u).
  { split; [|done]. apply (parentsKept_same _ _ _ _ (u :: newc)); [done| |done].
    by cbn; rewrite Hc. }
  change (keyOf (RpMeta (withRpMeta (RemoveFinalizer (RpMeta rp1) FinalizerKey) rp1)))
    with (keyOf (RpMeta rp1)).
  rewrite Hm, Hp, Hlive. cbn [snd]. split; [|done].
  split; [|exists (u :: newc); split; [by cbn; rewrite Hc|done]].
  cbn. apply (parent_written _ _ _ rp); [done|].
  rewrite <- Hi. unfold beyondFinalizers. cbn. by rewrite Hm.
Qed.

Lemma parentsKept_trans {X} (view : RedpandaT → X) (P : Call → Prop) w1 w2 w3 :
  parentsKept view P w1 w2 → parentsKept view P w2 w3 → parentsKept view P w1 w3.
Proof.
  intros [Hp1 (c1 & Hc1 & HP1)] [Hp2 (c2 & Hc2 & HP2)]. split.
  - intros key. by rewrite Hp2.
  - exists (c2 ++ c1). split; [by rewrite Hc2, Hc1, (assoc_L (++))|by apply Forall_app].
Qed.

Lemma parentsKept_weaken {X} (view : RedpandaT → X) (P Q : Call → Prop) w w' :
  (∀ c, P c → Q c) → parentsKept view P w w' → parentsKept view Q w w'.
Proof.
  intros HPQ [Hp (c & Hc & HP)]. split; [done|].
  exists c. split; [done|]. by apply (Forall_impl _ _ _ HP).
Qed.

Lemma loopFrame_parentsKept P w w' : loopFrame P w w' → parentsKept beyondStatus P w w'.
Proof. by intros [_ _ Hp Hc _]. Qed.

Lemma beyondStatus_beyondFinalizers w w' (P : Call → Prop) :
  parentsKept beyondStatus P w w' → parentsKept beyondFinalizers P w w'.
Proof.
  intros [Hp Hc]. split; [|done]. intros key. specialize (Hp key).
  destruct (parents w' !! key) as [rp'|], (parents w !! key) as [rp|]; try done.
  cbn in *. injection Hp as Hm Hd Hs. unfold beyondFinalizers. by rewrite Hm, Hd, Hs.
Qed.

Lemma loopCall_liveCall c : loopCall c → liveCall c.
Proof.
  intros [[Hk Hv]|[?|?]]; [left|by right; left|by right; right; left].
  split; [done|]. apply elem_of_cons in Hv as [Hv|Hv]; [rewrite Hv; call_class|].
  apply list_elem_of_singleton in Hv. rewrite Hv. call_class.
Qed.

Lemma patchRedpandaStatus_kept rp w :
  parentsKept beyondStatus liveCall w (patchRedpandaStatus rp w).2.
Proof. apply loopFrame_parentsKept, patchRedpandaStatus_loopFrame; left; call_class. Qed.

(** The last stage keeps every stored parent beside its status, and the
    stored repositories. *)
Lemma managedStage_frame repos rp w :
  parentsKept beyondStatus liveCall w (managed_stage repos rp w).2
  ∧ (∀ key repo, repos !! key = Some repo → (managed_stage repos rp w).1.2 !! key = Some repo).
Proof.
  unfold managedStage. rewrite run_bind.
  assert (∃ w1, ((if MigrationEnabled (SpecMigration (Spec rp))
                  then tryMigration rp;; mret tt else mret tt) w : unit * World) = (tt, w1)
                ∧ parentsKept beyondStatus liveCall w w1) as (w1 & -> & Hm).
  { destruct (MigrationEnabled _).
    - rewrite run_bind. cbn [snd mret M_ret]. eexists. split; [reflexivity|].
      destruct (tryMigration_migFrame rp w) as [_ _ Hp _ _ _ (newc & newe & Hc & _ & HP & _)].
      apply (parentsKept_same _ _ _ _ newc); [done..|].
      apply (Forall_impl _ _ _ HP). intros c Hc'. by right; right; right.
    - exists w. split; [done|]. by apply (parentsKept_same _ _ _ _ []). }
  cbn [fst snd]. rewrite run_bind.
  pose proof (reconcile_loopFrame ValuesJSON decodeValues sha256Sum base64URLEncode
                RedpandaProgressing RedpandaNotReady RedpandaReady RedpandaChartRepository
                RequeueHelmDeps repos rp w1) as Hl.
  pose proof (reconcile_keeps ValuesJSON decodeValues sha256Sum base64URLEncode
                RedpandaProgressing RedpandaNotReady RedpandaReady RedpandaChartRepository
                RequeueHelmDeps repos rp w1) as Hkeep.
  apply loopFrame_parentsKept, (parentsKept_weaken _ _ _ _ _ loopCall_liveCall) in Hl.
  destruct (reconcileLoop repos rp w1) as [[[[rp2 result] err] repos2] w2]. cbn [fst snd] in *.
  rewrite run_bind. pose proof (patchRedpandaStatus_kept rp2 w2) as Hs.
  destruct (patchRedpandaStatus rp2 w2) as [[rp3 [e|]] w3]; cbn [fst snd] in *;
    (split; [|done]);
    (apply (parentsKept_trans _ _ _ w1); [done|]);
    by apply (parentsKept_trans _ _ _ w2).
Qed.

(** Property X20.  When the parent asked for is gone, or is there, not
    being deleted and marked as not managed, [Reconcile] leaves the
    migrated objects, the releases and the repositories as they are,
    records no event, asks for no requeue and only reads or updates the
    parent.  When the parent is gone it issues the one read, changes
    nothing, and fails only if that read was refused. *)
Theorem Reconcile_hands_off (repos : Repositories) (req : Key) (w : World) :
  (∀ rp, parents w !! req = Some rp →
         RpDeletionTimestamp rp = None ∧ isRedpandaManaged rp = false) →
  let r := ReconcileLoop repos req w in
  objects r.2 = objects w
  ∧ releases r.2 = releases w
  ∧ events r.2 = events w
  ∧ r.1.2 = repos
  ∧ r.1.1.1 = noRequeue
  ∧ Forall (λ c, CallKind c = Redpanda ∧ CallVerb c ∈ [VGet; VUpdate])
      (issued (ReconcileLoop repos req) w)
  ∧ (parents w !! req = None →
     parents r.2 = parents w
     ∧ r.1.1.2 = ErrTransient <$> faults w (mkCall VGet Redpanda req)
     ∧ issued (ReconcileLoop repos req) w = [mkCall VGet Redpanda req]).
Proof.
  intros Hoff r.
  assert (∃ newCalls, calls r.2 = newCalls ++ calls w
                      ∧ Forall (λ c, CallKind c = Redpanda ∧ CallVerb c ∈ [VGet; VUpdate]) newCalls
                      ∧ objects r.2 = objects w ∧ releases r.2 = releases w
                      ∧ events r.2 = events w ∧ r.1.2 = repos ∧ r.1.1.1 = noRequeue
                      ∧ (parents w !! req = None →
                         parents r.2 = parents w
                         ∧ r.1.1.2 = ErrTransient <$> faults w (mkCall VGet Redpanda req)
                         ∧ newCalls = [mkCall VGet Redpanda req]))
    as (newc & Hc & HP & Ho & Hr & He & Hrepos & Hres & Habsent).
  2:{ rewrite (issued_new _ _ _ Hc). split_and!; [done..|].
      intros Hnone. by destruct (Habsent Hnone) as (? & ? & ->). }
  subst r. rewrite Reconcile_run. cbn zeta.
  set (g := mkCall VGet Redpanda req).
  destruct (faults w g) as [msg|].
  { exists [g]. split_and!; try done; call_class. }
  destruct (parents w !! req) as [rp|] eqn:Hlive.
  2:{ exists [g]. split_and!; try done; call_class. }
  destruct (Hoff rp eq_refl) as [Hts Hun]. rewrite Hts, Hun.
  rewrite bool_decide_eq_false_2 by (by intros ?). cbn [negb].
  destruct (ContainsFinalizer _ _).
  2:{ exists [g]. split_and!; try done; call_class. }
  rewrite UpdateParent_run. cbn zeta.
  set (u := mkCall VUpdate Redpanda _).
  change (faults (called g w)) with (faults w).
  change (parents (called g w)) with (parents w).
  destruct (faults w u); [|destruct (parents w !! keyOf _)];
    (exists [u; g]; split_and!; try done; call_class).
Qed.

Lemma RemoveFinalizer_absent (rp : RedpandaT) (f : string) :
  f ∉ Finalizers (RpMeta rp) → withRpMeta (RemoveFinalizer (RpMeta rp) f) rp = rp.
Proof.
  intros Hnot. destruct rp as [[n ns l a fs g] d s st]. cbn in *.
  unfold RemoveFinalizer, withRpMeta, withFinalizers. cbn. do 2 f_equal.
  induction fs as [|x fs IH]; [done|].
  apply not_elem_of_cons in Hnot as [Hx Hfs].
  rewrite filter_cons_True by done. f_equal. by apply IH.
Qed.

(** Property X21.  For a stored parent that is not being deleted and is
    marked as not managed, the read and the update of which are not
    refused, [Reconcile] succeeds without requeue and leaves the stored
    parent as it was but for the operator's finalizer, which is gone; the
    other finalizers and the status stay.  The update is issued only when
    the finalizer was there. *)
Theorem Reconcile_unmanaged_drops_finalizer (repos : Repositories) (req : Key) (rp : RedpandaT)
    (w : World) :
  parents w !! req = Some rp →
  keyOf (RpMeta rp) = req →
  RpDeletionTimestamp rp = None →
  isRedpandaManaged rp = false →
  faults w (mkCall VGet Redpanda req) = None →
  faults w (mkCall VUpdate Redpanda req) = None →
  let r := ReconcileLoop repos req w in
  let released := withRpMeta (RemoveFinalizer (RpMeta rp) FinalizerKey) rp in
  r.1 = (noRequeue, None, repos)
  ∧ parents r.2 = <[req := released]> (parents w)
  ∧ (FinalizerKey ∉ Finalizers (RpMeta released))
  ∧ (∀ f, f ≠ FinalizerKey → f ∈ Finalizers (RpMeta rp) → f ∈ Finalizers (RpMeta released))
  ∧ Status released = Status rp
  ∧ issued (ReconcileLoop repos req) w
    = if ContainsFinalizer (RpMeta rp) FinalizerKey
      then [mkCall VUpdate Redpanda req; mkCall VGet Redpanda req]
      else [mkCall VGet Redpanda req].
Proof.
  intros Hlive Hkey Hts Hun Hg Hu r released.
  assert (FinalizerKey ∉ Finalizers (RpMeta released)) as Hgone.
  { apply RemoveFinalizer_gone. }
  assert (∀ f, f ≠ FinalizerKey → f ∈ Finalizers (RpMeta rp) → f ∈ Finalizers (RpMeta released))
    as Hothers.
  { intros f Hne Hin. cbn. by apply list_elem_of_filter. }
  assert (r.1 = (noRequeue, None, repos)
          ∧ parents r.2 = <[req := released]> (parents w)
          ∧ calls r.2 = (if ContainsFinalizer (RpMeta rp) FinalizerKey
                         then [mkCall VUpdate Redpanda req; mkCall VGet Redpanda req]
                         else [mkCall VGet Redpanda req]) ++ calls w) as (H1 & H2 & H3).
  2:{ split_and!; try done. by apply issued_new. }
  subst r. rewrite Reconcile_run. cbn zeta. rewrite Hg, Hlive, Hts, Hun.
  rewrite bool_decide_eq_false_2 by (by intros ?). cbn [negb].
  destruct (ContainsFinalizer _ _) eqn:Hcontains.
  - rewrite UpdateParent_run. cbn zeta.
    change (keyOf (RpMeta (withRpMeta (RemoveFinalizer (RpMeta rp) FinalizerKey) rp)))
      with (keyOf (RpMeta rp)).
    rewrite Hkey.
    change (faults (called ?c w)) with (faults w).
    change (parents (called ?c w)) with (parents w).
    by rewrite Hu, Hlive.
  - split_and!; try done. cbn [snd]. subst released.
    rewrite RemoveFinalizer_absent.
    + by rewrite insert_id.
    + unfold ContainsFinalizer in Hcontains. by apply bool_decide_eq_false_1 in Hcontains.
Qed.

Lemma reconcileDelete_calls rp w :
  let d := reconcileDelete rp w in
  objects d.2 = objects w ∧ events d.2 = events w
  ∧ ∃ newCalls, calls d.2 = newCalls ++ calls w ∧ Forall deletionCall newCalls.
Proof.
  cbn zeta. rewrite reconcileDelete_run. cbn zeta.
  destruct (deleteHelmRelease_frame rp w) as (Hp & Ho & He & Hf & Hm & Hi & newc & Hc & HP).
  destruct (deleteHelmRelease rp w) as [[rp1 [err|]] w1]; cbn [fst snd] in *.
  { split_and!; try done. by exists newc. }
  destruct (ContainsFinalizer _ _); cbn [fst snd].
  2:{ split_and!; try done. by exists newc. }
  rewrite UpdateParent_run. cbn zeta.
  set (u := mkCall VUpdate Redpanda _).
  assert (Forall deletionCall (u :: newc)) as HP'.
  { constructor; [|done]. left. call_class. }
  destruct (faults w1 u); [|destruct (parents w1 !! _)];
    (split_and!; try done; exists (u :: newc); split; [by cbn; rewrite Hc|done]).
Qed.

(** Property X22.  For a stored parent with a deletion timestamp, the read
    of which is not refused, [Reconcile] is [reconcileDelete] after the
    read, whether or not the parent is managed or asks for the migration:
    it returns the error of [reconcileDelete] without requeue, only reads
    and updates the parent and reads and deletes (in the foreground) a
    HelmRelease, and leaves the migrated objects and the events as they
    are. *)
Theorem Reconcile_deleting (repos : Repositories) (req : Key) (rp : RedpandaT) (w : World) :
  parents w !! req = Some rp →
  RpDeletionTimestamp rp ≠ None →
  faults w (mkCall VGet Redpanda req) = None →
  let r := ReconcileLoop repos req w in
  let d := reconcileDelete rp (called (mkCall VGet Redpanda req) w) in
  r = ((noRequeue, d.1.2, repos), d.2)
  ∧ Forall deletionCall (issued (ReconcileLoop repos req) w)
  ∧ objects r.2 = objects w
  ∧ events r.2 = events w.
Proof.
  intros Hlive Hts Hg r d.
  assert (r = ((noRequeue, d.1.2, repos), d.2)) as Hr.
  { subst r d. rewrite Reconcile_run. cbn zeta. rewrite Hg, Hlive.
    by rewrite bool_decide_eq_true_2. }
  destruct (reconcileDelete_calls rp (called (mkCall VGet Redpanda req) w))
    as (Ho & He & newc & Hc & HP).
  fold d in Ho, He, Hc. rewrite Hr. cbn [snd]. split_and!; try done.
  rewrite (issued_new _ _ (newc ++ [mkCall VGet Redpanda req])).
  - apply Forall_app. split; [done|]. apply Forall_singleton. left. call_class.
  - fold r. rewrite Hr. cbn [snd]. rewrite Hc. cbn. by rewrite <- (assoc_L (++)).
Qed.

(** Property X23.  For a stored, managed parent that is not being
    deleted and lacks the operator's finalizer, the first call [Reconcile]
    issues after the read is the patch that registers the finalizer.  If
    the patch is refused, [Reconcile] returns that error without requeue
    and has done nothing else; if not, the stored parent carries the
    finalizer after its other finalizers when [Reconcile] returns,
    whatever the rest of the run did, and is beside its status the parent
    it was. *)
Theorem Reconcile_registers_finalizer_first (repos : Repositories) (req : Key)
    (rp : RedpandaT) (w : World) :
  parents w !! req = Some rp →
  keyOf (RpMeta rp) = req →
  RpDeletionTimestamp rp = None →
  isRedpandaManaged rp = true →
  FinalizerKey ∉ Finalizers (RpMeta rp) →
  faults w (mkCall VGet Redpanda req) = None →
  let r := ReconcileLoop repos req w in
  let get := mkCall VGet Redpanda req in
  let patch := mkCall VPatch Redpanda req in
  (∃ later, issued (ReconcileLoop repos req) w = later ++ [patch; get])
  ∧ match faults w patch with
    | Some msg => r = ((noRequeue, Some (ErrTransient msg), repos), called patch (called get w))
    | None =>
        ∃ stored, parents r.2 !! req = Some stored
                  ∧ Finalizers (RpMeta stored) = Finalizers (RpMeta rp) ++ [FinalizerKey]
                  ∧ beyondFinalizers stored = beyondFinalizers rp
    end.
Proof.
  intros Hlive Hkey Hts Hmanaged Hnot Hg r get patch.
  assert (ContainsFinalizer (RpMeta rp) FinalizerKey = false) as Hcontains.
  { by apply bool_decide_eq_false_2. }
  assert (∃ later, calls r.2 = (later ++ [patch; get]) ++ calls w
          ∧ match faults w patch with
            | Some msg =>
                r = ((noRequeue, Some (ErrTransient msg), repos), called patch (called get w))
            | None =>
                ∃ stored, parents r.2 !! req = Some stored
                          ∧ Finalizers (RpMeta stored) = Finalizers (RpMeta rp) ++ [FinalizerKey]
                          ∧ beyondFinalizers stored = beyondFinalizers rp
            end) as (later & Hc & Hcase).
  2:{ split; [|done]. exists later. by apply issued_new. }
  subst r get patch. rewrite Reconcile_run. cbn zeta.
  rewrite Hg, Hlive, Hts, Hmanaged, Hcontains.
  rewrite bool_decide_eq_false_2 by (by intros ?). cbn [negb].
  rewrite PatchFinalizers_run. cbn zeta. unfold AddFinalizer. rewrite Hcontains.
  change (keyOf (RpMeta (withRpMeta (withFinalizers ?l (RpMeta rp)) rp)))
    with (keyOf (RpMeta rp)).
  rewrite Hkey.
  change (faults (called ?c w)) with (faults w).
  change (parents (called ?c w)) with (parents w).
  destruct (faults w (mkCall VPatch Redpanda req)) as [msg|]; cbn [fst snd].
  { by exists []. }
  rewrite Hlive. cbn [fst snd].
  set (patched := withRpMeta _ rp).
  set (w1 := (setParents _ _).2).
  destruct (managedStage_frame repos patched w1) as [[Hp (newc & Hc & _)] _].
  exists newc. split.
  { rewrite Hc. by rewrite <- (assoc_L (++)). }
  specialize (Hp req). subst w1. cbn in Hp. rewrite lookup_insert_eq in Hp.
  destruct (parents (managed_stage repos patched _).2 !! req) as [stored|]; [|done].
  exists stored. split; [done|]. cbn in Hp. injection Hp as Hm Hd Hs.
  unfold beyondFinalizers. rewrite Hm, Hd, Hs. split; [|done].
  done.
Qed.

(** Property X24.  When the parent asked for is stored under its own
    name, [Reconcile] creates and deletes no parent and changes no stored
    parent beside its status and its finalizers (name, namespace, labels,
    annotations, deletion timestamp and spec stay); every stored
    HelmRepository stays as it is; and when the parent is not being
    deleted, no call deletes a HelmRelease or a HelmRepository: the only
    deletes are those of the migration. *)
Theorem Reconcile_keeps_parents (repos : Repositories) (req : Key) (w : World) :
  (∀ rp, parents w !! req = Some rp → keyOf (RpMeta rp) = req) →
  let r := ReconcileLoop repos req w in
  (∀ key, beyondFinalizers <$> parents r.2 !! key = beyondFinalizers <$> parents w !! key)
  ∧ (∀ key repo, repos !! key = Some repo → r.1.2 !! key = Some repo)
  ∧ (∀ rp, parents w !! req = Some rp → RpDeletionTimestamp rp = None →
           Forall liveCall (issued (ReconcileLoop repos req) w)).
Proof.
  intros Hkeyed r.
  set (deleting := ∃ rp, parents w !! req = Some rp ∧ RpDeletionTimestamp rp ≠ None).
  assert (parentsKept beyondFinalizers (λ c, liveCall c ∨ (deleting ∧ deletionCall c)) w r.2
          ∧ (∀ key repo, repos !! key = Some repo → r.1.2 !! key = Some repo))
    as [[Hp (newc & Hc & HP)] Hrepos].
  2:{ split_and!; try done. intros rp Hlive Hts. rewrite (issued_new _ _ _ Hc).
      apply (Forall_impl _ _ _ HP). intros c [?|[(rp' & Hlive' & Hts') _]]; [done|].
      congruence. }
  assert (∀ rp, parents w !! req = Some rp → RpDeletionTimestamp rp ≠ None → deleting) as Hdel.
  { intros rp ??. by exists rp. }
  subst r. rewrite Reconcile_run. cbn zeta.
  set (g := mkCall VGet Redpanda req).
  assert (liveCall g) as Hg by (left; call_class).
  assert (parentsKept beyondFinalizers (λ c, liveCall c ∨ (deleting ∧ deletionCall c)) w (called g
      w))
    as Hfirst.
  { apply (parentsKept_same _ _ _ _ [g]); [done..|]. apply Forall_singleton. by left. }
  destruct (faults w g); [done|].
  destruct (parents w !! req) as [rp|] eqn:Hlive; [|done].
  specialize (Hkeyed rp eq_refl).
  case_bool_decide as Hts.
  { split; [|done]. cbn [snd]. apply (parentsKept_trans _ _ _ (called g w)); [done|].
    destruct (reconcileDelete_frame rp (called g w)) as [Hd _]; [by rewrite Hkeyed|].
    apply (parentsKept_weaken _ deletionCall); [|exact Hd].
    intros c Hc. right. split; [by apply (Hdel rp)|done]. }
  destruct (isRedpandaManaged rp); cbn [negb].
  2:{ destruct (ContainsFinalizer _ _); [|done].
      split; [|done]. cbn [snd]. rewrite UpdateParent_run. cbn zeta.
      set (u := mkCall VUpdate Redpanda _).
      assert (liveCall u) as Hu by (left; call_class).
      change (faults (called g w)) with (faults w).
      change (parents (called g w)) with (parents w).
      change (keyOf (RpMeta (withRpMeta (RemoveFinalizer (RpMeta rp) FinalizerKey) rp)))
        with (keyOf (RpMeta rp)).
      rewrite Hkeyed, Hlive.
      destruct (faults w u);
        (split; [|exists [u; g]; split; [done|by repeat constructor]]); [done|].
      cbn. by apply (parent_written _ _ _ rp). }
  assert (∀ rp1 w1, parentsKept beyondFinalizers (λ c, liveCall c ∨ (deleting ∧ deletionCall c)) w
      w1 →
            parentsKept beyondFinalizers (λ c, liveCall c ∨ (deleting ∧ deletionCall c)) w
              (managed_stage repos rp1 w1).2
            ∧ (∀ key repo, repos !! key = Some repo
                           → (managed_stage repos rp1 w1).1.2 !! key = Some repo)) as Hstage.
  { intros rp1 w1 Hw1. destruct (managedStage_frame repos rp1 w1) as [Hm Hk].
    split; [|done]. apply (parentsKept_trans _ _ _ w1); [done|].
    apply beyondStatus_beyondFinalizers. apply (parentsKept_weaken _ liveCall); [|exact Hm].
    intros c Hc. by left. }
  destruct (ContainsFinalizer _ _) eqn:Hcontains; cbn [negb]; [by apply Hstage|].
  rewrite PatchFinalizers_run. cbn zeta. unfold AddFinalizer. rewrite Hcontains.
  change (keyOf (RpMeta (withRpMeta (withFinalizers ?l (RpMeta rp)) rp)))
    with (keyOf (RpMeta rp)).
  rewrite Hkeyed.
  set (p := mkCall VPatch Redpanda req).
  assert (liveCall p) as Hp by (left; call_class).
  change (faults (called g w)) with (faults w).
  change (parents (called g w)) with (parents w).
  destruct (faults w p); cbn [fst snd].
  { split; [|done]. apply (parentsKept_same _ _ _ _ [p; g]); [done..|].
    by repeat constructor. }
  rewrite Hlive. cbn [fst snd]. apply Hstage. split.
  - cbn. by apply (parent_written _ _ _ rp).
  - exists [p; g]. split; [done|]. by repeat constructor.
Qed.

Lemma reconcile_shapes repos rp w :
  let r := reconcileLoop repos rp w in
  r.1.1.1.2 = noRequeue
  ∨ (r.1.1.1.2 = mkResult true 0 ∧ r.1.1.2 ≠ None)
  ∨ (r.1.1.1.2 = mkResult false RequeueHelmDeps ∧ r.1.1.2 = None).
Proof.
  cbn zeta. rewrite reconcile_split. cbn zeta.
  destruct (observeGeneration _ rp w) as [[rp1 [e|]] w1]; cbn [fst snd]; [by right; left|].
  unfold dependentsStage. rewrite run_bind.
  destruct (reconcileHelmRepository _ repos rp1 w1) as [[[[rp2 repo] [err|]] repos2] w2];
    cbn [fst snd]; [by left|].
  rewrite run_bind.
  destruct (checkHelmRepository _ rp2 w2) as [[[] rp3] w3]; cbn [fst snd negb];
    [|by right; right].
  unfold releaseStage. rewrite run_bind.
  destruct (reconcileHelmRelease _ _ _ _ rp3 w3) as [[[rp4 hr] [err|]] w4]; cbn [fst snd];
    [by left|].
  destruct hr as [hr|]; [|by left]. case_bool_decide; [by left|].
  rewrite run_bind.
  by destruct (checkHelmRelease _ rp4 w4) as [[[] rp5] w5]; cbn [fst snd negb];
    [left|right; right].
Qed.

(** Property X25.  Whatever the store holds and the API server
    refuses, [Reconcile] returns one of three things: no requeue; an
    immediate requeue together with an error; or a requeue after
    [RequeueHelmDeps] without an error.  A delayed requeue is never
    returned next to an error. *)
Theorem Reconcile_result_shapes (repos : Repositories) (req : Key) (w : World) :
  let r := ReconcileLoop repos req w in
  r.1.1.1 = noRequeue
  ∨ (r.1.1.1 = mkResult true 0 ∧ r.1.1.2 ≠ None)
  ∨ (r.1.1.1 = mkResult false RequeueHelmDeps ∧ r.1.1.2 = None).
Proof.
  cbn zeta. rewrite Reconcile_run. cbn zeta.
  destruct (faults w _); [by left|].
  destruct (parents w !! req) as [rp|]; [|by left].
  case_bool_decide; [by left|].
  destruct (isRedpandaManaged rp); cbn [negb].
  2:{ by destruct (ContainsFinalizer _ _); left. }
  assert (∀ rp1 w1,
            let r := managed_stage repos rp1 w1 in
            r.1.1.1 = noRequeue
            ∨ (r.1.1.1 = mkResult true 0 ∧ r.1.1.2 ≠ None)
            ∨ (r.1.1.1 = mkResult false RequeueHelmDeps ∧ r.1.1.2 = None)) as Hstage.
  { intros rp1 w1. cbn zeta. unfold managedStage. rewrite run_bind.
    assert (∃ w2, ((if MigrationEnabled (SpecMigration (Spec rp1))
                    then tryMigration rp1;; mret tt else mret tt) w1 : unit * World)
                  = (tt, w2)) as [w2 ->].
    { destruct (MigrationEnabled _); [rewrite run_bind|]; by eexists. }
    cbn [fst snd].
    rewrite run_bind. pose proof (reconcile_shapes repos rp1 w2) as Hs. cbn zeta in Hs.
    destruct (reconcileLoop repos rp1 w2) as [[[[rp2 result] err] repos2] w3].
    cbn [fst snd] in *. rewrite run_bind.
    by destruct (patchRedpandaStatus rp2 w3) as [[rp3 [e|]] w4]; cbn [fst snd];
      [right; left|]. }
  destruct (ContainsFinalizer _ _); cbn [negb]; [apply Hstage|].
  destruct (PatchFinalizers _ _) as [[rp1 [e|]] w1]; cbn [fst snd]; [by left|apply Hstage].
Qed.

(** Property X27.  When [reconcileHelmRepository] fails, the
    repositories and the parent are as they were and exactly one Warning
    event was recorded.  When it does not, the repository handed back is
    the one stored under the parent's namespace and the repository name,
    which is recorded on the parent: a repository that was stored is left
    as it is, without an event; otherwise the template is stored (the chart
    repository's URL, an interval of 30 seconds, the parent as owner) and
    one Normal event recorded. *)
Theorem reconcileHelmRepository_outcome (repos : Repositories) (rp : RedpandaT) (w : World) :
  let r := reconcileHelmRepository RedpandaChartRepository repos rp w in
  let fired := emitted (reconcileHelmRepository RedpandaChartRepository repos rp) w in
  let key := (Namespace (RpMeta rp), GetHelmRepositoryName rp) in
  let template := createHelmRepositoryFromTemplate RedpandaChartRepository rp in
  match r.1.1.2 with
  | Some e =>
      r.1.2 = repos ∧ r.1.1.1.1 = rp ∧ ∃ ev, fired = [ev] ∧ isWarning ev
  | None =>
      r.1.2 !! key = Some r.1.1.1.2
      ∧ r.1.1.1.1 = withStatus (setHelmRepository (GetHelmRepositoryName rp) (Status rp)) rp
      ∧ match repos !! key with
        | Some repo => r.1.2 = repos ∧ fired = []
        | None =>
            r.1.2 = <[key := template]> repos
            ∧ RepoURL template = RedpandaChartRepository
            ∧ RepoInterval template = 30 * Second
            ∧ RepoOwner template = Some (keyOf (RpMeta rp))
            ∧ ∃ ev, fired = [ev] ∧ isNormal ev
        end
  end.
Proof.
  cbn zeta.
  assert (∃ new, events (reconcileHelmRepository RedpandaChartRepository repos rp w).2
                 = new ++ events w
          ∧ let r := reconcileHelmRepository RedpandaChartRepository repos rp w in
            let key := (Namespace (RpMeta rp), GetHelmRepositoryName rp) in
            let template := createHelmRepositoryFromTemplate RedpandaChartRepository rp in
            match r.1.1.2 with
            | Some e => r.1.2 = repos ∧ r.1.1.1.1 = rp ∧ ∃ ev, new = [ev] ∧ isWarning ev
            | None =>
                r.1.2 !! key = Some r.1.1.1.2
                ∧ r.1.1.1.1
                  = withStatus (setHelmRepository (GetHelmRepositoryName rp) (Status rp)) rp
                ∧ match repos !! key with
                  | Some repo => r.1.2 = repos ∧ new = []
                  | None =>
                      r.1.2 = <[key := template]> repos
                      ∧ RepoURL template = RedpandaChartRepository
                      ∧ RepoInterval template = 30 * Second
                      ∧ RepoOwner template = Some (keyOf (RpMeta rp))
                      ∧ ∃ ev, new = [ev] ∧ isNormal ev
                  end
            end) as (new & He & Hcase).
  { cbn zeta. rewrite reconcileHelmRepository_run. cbn zeta.
    destruct (faults w (mkCall VGet _ _)); cbn [fst snd].
    { eexists [_]. split; [done|]. split_and!; try done. by eexists. }
    destruct (repos !! _) as [repo|] eqn:Hlive; cbn [fst snd].
    { by exists []. }
    destruct (faults w (mkCall VCreate _ _)); cbn [fst snd].
    { eexists [_]. split; [done|]. split_and!; try done. by eexists. }
    eexists [_]. split; [done|]. rewrite lookup_insert_eq.
    split_and!; try done. by eexists. }
  by rewrite (emitted_new _ _ _ He).
Qed.
End ReconcileRuns.

(** Property X26.  [patchRedpandaStatus] touches no migrated object, no
    release and no event.  When it succeeds, the parent was stored, two
    calls were issued (the read, then the status patch), the stored parent
    is the one that was stored with the status of the parent passed in, and
    that is also what is handed back: what the parent passed in says beside
    its status is dropped.  When it fails, the stored parents and the
    parent passed in are as they were, and a parent that is gone yields the
    not-found error of the read, without a patch. *)
Theorem patchRedpandaStatus_stores_status (rp : RedpandaT) (w : World) :
  let r := patchRedpandaStatus rp w in
  let key := keyOf (RpMeta rp) in
  objects r.2 = objects w ∧ releases r.2 = releases w ∧ events r.2 = events w
  ∧ match r.1.2 with
    | None =>
        ∃ stored, parents w !! key = Some stored
                  ∧ r.1.1 = withStatus (Status rp) stored
                  ∧ parents r.2 = <[key := withStatus (Status rp) stored]> (parents w)
                  ∧ issued (patchRedpandaStatus rp) w
                    = [mkCall VStatusPatch Redpanda key; mkCall VGet Redpanda key]
    | Some e =>
        r.1.1 = rp ∧ parents r.2 = parents w
        ∧ (parents w !! key = None → faults w (mkCall VGet Redpanda key) = None →
           e = ErrNotFound Redpanda key
           ∧ issued (patchRedpandaStatus rp) w = [mkCall VGet Redpanda key])
    end.
Proof.
  cbn zeta.
  assert (∃ new, calls (patchRedpandaStatus rp w).2 = new ++ calls w
          ∧ let r := patchRedpandaStatus rp w in
            let key := keyOf (RpMeta rp) in
            objects r.2 = objects w ∧ releases r.2 = releases w ∧ events r.2 = events w
            ∧ match r.1.2 with
              | None =>
                  ∃ stored, parents w !! key = Some stored
                            ∧ r.1.1 = withStatus (Status rp) stored
                            ∧ parents r.2 = <[key := withStatus (Status rp) stored]> (parents w)
                            ∧ new = [mkCall VStatusPatch Redpanda key; mkCall VGet Redpanda key]
              | Some e =>
                  r.1.1 = rp ∧ parents r.2 = parents w
                  ∧ (parents w !! key = None → faults w (mkCall VGet Redpanda key) = None →
                     e = ErrNotFound Redpanda key ∧ new = [mkCall VGet Redpanda key])
              end) as (new & Hc & Ho & Hr & He & Hcase).
  { cbn zeta. rewrite patchRedpandaStatus_run. cbn zeta.
    destruct (faults w (mkCall VGet _ _)) eqn:Hg.
    { eexists [_]. split; [done|]. split_and!; try done. }
    destruct (parents w !! _) as [latest|] eqn:Hlive.
    2:{ eexists [_]. split; [done|]. split_and!; done. }
    destruct (faults w (mkCall VStatusPatch _ _)).
    { eexists [_; _]. split; [done|]. split_and!; done. }
    eexists [_; _]. split; [done|]. split_and!; try done. by exists latest. }
  split_and!; try done.
  destruct ((patchRedpandaStatus rp w).1.2).
  - destruct Hcase as (? & ? & Hnone). split_and!; try done.
    intros H1 H2. destruct (Hnone H1 H2) as [-> ->]. split; [done|]. by apply issued_new.
  - destruct Hcase as (stored & ? & ? & ? & ->). exists stored. split_and!; try done.
    by apply issued_new.
Qed.

(** * Sample runs of the further properties *)

Lemma worldOf_wellKeyed (items : list (Kind * Object)) : wellKeyed (worldOf items).
Proof.
  intros k key o Hlook. cbn in Hlook. unfold storeOf in Hlook.
  apply elem_of_list_to_map_2, list_elem_of_fmap in Hlook as ([k' o'] & [= -> -> ->] & _).
  done.
Qed.

(** Witness of X12. *)
Lemma aliased_service_witness :
  mkCall VUpdate Service ("default", "redpanda") ∈ issued (tryMigration aliasedParent) legacyWorld
  ∧ (∃ svc', objects (tryMigration aliasedParent legacyWorld).2
               !! (Service, ("default", "redpanda")) = Some svc'
             ∧ Selector svc' = componentSelector aliasedParent "console"
             ∧ serviceStale aliasedParent "redpanda" svc' = true)
  ∧ wellKeyed (tryMigration aliasedParent legacyWorld).2
  ∧ faults (tryMigration aliasedParent legacyWorld).2 = faults legacyWorld.
Proof.
  apply (aliased_service_is_rewritten_every_run aliasedParent legacyWorld (legacy "redpanda"));
    [reflexivity|reflexivity|apply worldOf_wellKeyed|reflexivity|reflexivity|].
  vm_compute. reflexivity.
Defined.

(** Witness of X13. *)
Lemma tryMigration_settles_witness :
  AlreadyMigrated sampleParent (tryMigration sampleParent replacedStatefulSetWorld).2
  ∧ objects (tryMigration sampleParent (tryMigration sampleParent replacedStatefulSetWorld).2).2
    = objects (tryMigration sampleParent replacedStatefulSetWorld).2
  ∧ emitted (tryMigration sampleParent) (tryMigration sampleParent replacedStatefulSetWorld).2 = []
  ∧ issued (tryMigration sampleParent) (tryMigration sampleParent replacedStatefulSetWorld).2
    = migrationReads sampleParent.
Proof.
  apply (tryMigration_settles_in_one_run sampleParent replacedStatefulSetWorld
           (mark sampleParent (legacy "redpanda")));
    [reflexivity|apply worldOf_wellKeyed|reflexivity|vm_compute; reflexivity
    |vm_compute; reflexivity|vm_compute; discriminate|vm_compute; discriminate].
Defined.

(** Witness of X14. *)
Lemma createHelmRelease_witness :
  ∃ tpl,
    (createHelmReleaseFromTemplate sampleValuesJSON sampleDigest sampleDigest freshParent
       (releaseWorld unpinnedRelease)).1 = Ok tpl
    ∧ (createHelmRelease sampleValuesJSON sampleDigest sampleDigest freshParent
         (releaseWorld unpinnedRelease)).1.2 = None
    ∧ releases (createHelmRelease sampleValuesJSON sampleDigest sampleDigest freshParent
                  (releaseWorld unpinnedRelease)).2
      = releases (releaseWorld unpinnedRelease).
Proof.
  destruct (createHelmRelease_creates_or_adopts sampleValuesJSON sampleDigest sampleDigest
              freshParent (releaseWorld unpinnedRelease) "{}" eq_refl eq_refl)
    as (tpl & Htpl & Hr & _ & _ & _ & Hrel).
  exists tpl. split; [exact Htpl|]. split; [by rewrite Hr|]. rewrite Hrel. reflexivity.
Defined.

Lemma parentWorld_keyed (rp rp' : RedpandaT) (req : Key) :
  parents (parentWorld rp) !! req = Some rp' → keyOf (RpMeta rp') = req.
Proof. cbn. intros [<- <-]%lookup_singleton_Some. done. Qed.

(** Witness of X18: no repository stored yet. *)
Lemma reconcile_waits_for_repository_witness :
  let r := sampleReconcile ∅ sampleParent (releaseWorld unpinnedRelease) in
  releases r.2 = releases (releaseWorld unpinnedRelease)
  ∧ r.1.1.1.2 = mkResult false sampleRequeue.
Proof.
  destruct (reconcile_waits_for_repository sampleValuesJSON sampleDecode sampleDigest
              sampleDigest sampleProgressing sampleNotReady sampleReady sampleChartRepository
              sampleRequeue ∅ sampleParent (releaseWorld unpinnedRelease))
    as (H1 & _ & H2 & _).
  - intros key repo Hlive. by rewrite lookup_empty in Hlive.
  - split; [exact H1|]. apply H2. reflexivity.
Defined.

(** Witness of X19: both dependents ready. *)
Lemma reconcile_outcomes_witness :
  let r := sampleReconcile {[("default", "redpanda-repository") := readyRepository]}
             sampleParent (releaseWorld readyRelease) in
  r.1.1.2 = None ∧ r.1.1.1.2 = noRequeue
  ∧ ∃ rp', r.1.1.1.1 = sampleReady rp'.
Proof.
  pose proof (reconcile_outcomes sampleValuesJSON sampleDecode sampleDigest
                sampleDigest sampleProgressing sampleNotReady sampleReady sampleChartRepository
                sampleRequeue {[("default", "redpanda-repository") := readyRepository]}
                sampleParent (releaseWorld readyRelease)) as H.
  cbn zeta in H. fold sampleReconcile in H.
  assert ((sampleReconcile {[("default", "redpanda-repository") := readyRepository]}
             sampleParent (releaseWorld readyRelease)).1.1.2 = None) as Hnone.
  { vm_compute. reflexivity. }
  cbn zeta. rewrite Hnone in H. split; [exact Hnone|].
  destruct H as [[Hres _]|(Hres & (rp' & Hrp & _) & _)].
  - reflexivity.
  - discriminate.
  - intros key hr Hlook. cbn in Hlook. apply lookup_singleton_Some in Hlook as [<- <-].
    reflexivity.
  - exfalso. revert Hres. vm_compute. discriminate.
  - split; [exact Hres|]. by exists rp'.
Defined.

(** Witness of X20 and of X21: the unmanaged parent loses the finalizer. *)
Lemma Reconcile_hands_off_witness :
  let r := sampleReconcileRequest ∅ ("default", "redpanda") (parentWorld unmanagedParent) in
  releases r.2 = ∅ ∧ events r.2 = [] ∧ r.1.1.1 = noRequeue.
Proof.
  destruct (Reconcile_hands_off sampleValuesJSON sampleDecode sampleDigest
              sampleDigest sampleProgressing sampleNotReady sampleReady sampleChartRepository
              sampleRequeue ∅ ("default", "redpanda") (parentWorld unmanagedParent))
    as (_ & H1 & H2 & _ & H3 & _).
  - intros rp Hlive. cbn in Hlive. apply lookup_singleton_Some in Hlive as [_ <-].
    split; reflexivity.
  - by repeat split.
Defined.

Lemma Reconcile_unmanaged_witness :
  let r := sampleReconcileRequest ∅ ("default", "redpanda") (parentWorld unmanagedParent) in
  r.1 = (noRequeue, None, ∅)
  ∧ issued (sampleReconcileRequest ∅ ("default", "redpanda")) (parentWorld unmanagedParent)
    = [mkCall VUpdate Redpanda ("default", "redpanda");
       mkCall VGet Redpanda ("default", "redpanda")].
Proof.
  destruct (Reconcile_unmanaged_drops_finalizer sampleValuesJSON sampleDecode sampleDigest
              sampleDigest sampleProgressing sampleNotReady sampleReady sampleChartRepository
              sampleRequeue ∅ ("default", "redpanda") unmanagedParent
              (parentWorld unmanagedParent))
    as (H1 & _ & _ & _ & _ & H2); try reflexivity.
  split; [exact H1|exact H2].
Defined.

(** Witness of X22: the parent being deleted, its release recorded and
    gone. *)
Lemma Reconcile_deleting_witness :
  let r := sampleReconcileRequest ∅ ("default", "redpanda") (parentWorld deletingParent) in
  r.1 = (noRequeue, None, ∅)
  ∧ Forall deletionCall
      (issued (sampleReconcileRequest ∅ ("default", "redpanda")) (parentWorld deletingParent)).
Proof.
  destruct (Reconcile_deleting sampleValuesJSON sampleDecode sampleDigest
              sampleDigest sampleProgressing sampleNotReady sampleReady sampleChartRepository
              sampleRequeue ∅ ("default", "redpanda") deletingParent
              (parentWorld deletingParent))
    as (H1 & H2 & _); [reflexivity|discriminate|reflexivity|].
  split; [|exact H2]. cbn zeta. fold sampleReconcileRequest in H1. rewrite H1. reflexivity.
Defined.

(** Witness of X23: the finalizer of a new parent. *)
Lemma Reconcile_registers_finalizer_witness :
  ∃ stored,
    parents (sampleReconcileRequest ∅ ("default", "redpanda") (parentWorld newParent)).2
      !! ("default", "redpanda") = Some stored
    ∧ Finalizers (RpMeta stored) = [FinalizerKey].
Proof.
  destruct (Reconcile_registers_finalizer_first sampleValuesJSON sampleDecode sampleDigest
              sampleDigest sampleProgressing sampleNotReady sampleReady sampleChartRepository
              sampleRequeue ∅ ("default", "redpanda") newParent (parentWorld newParent))
    as (_ & stored & H1 & H2 & _);
    [reflexivity|reflexivity|reflexivity|reflexivity|by intros H; inversion H
    |reflexivity|].
  exists stored. split; [exact H1|exact H2].
Defined.

(** Witness of X24: the sample parent. *)
Lemma Reconcile_keeps_parents_witness :
  Spec <$> parents (sampleReconcileRequest ∅ ("default", "redpanda")
                      (parentWorld sampleParent)).2 !! ("default", "redpanda")
  = Some (Spec sampleParent).
Proof.
  destruct (Reconcile_keeps_parents sampleValuesJSON sampleDecode sampleDigest
              sampleDigest sampleProgressing sampleNotReady sampleReady sampleChartRepository
              sampleRequeue ∅ ("default", "redpanda") (parentWorld sampleParent))
    as (H1 & _).
  - intros rp. apply parentWorld_keyed.
  - specialize (H1 ("default", "redpanda")). fold sampleReconcileRequest in H1.
    destruct (parents _ !! _) as [stored|]; [|discriminate].
    cbn in H1. apply (inj Some) in H1. apply (f_equal snd) in H1. cbn in H1.
    cbn. by rewrite H1.
Defined.
